(** * Scheduling passes of the transpiler: ASAP scheduling and removal of
      delays on idle qubits

    Shallow embedding of
    - [qiskit/transpiler/passes/scheduling/asap.py] ([ASAPSchedule.run]) and
    - [qiskit/transpiler/passes/utils/remove_delays_on_idle_qubits.py]
      ([RemoveDelaysOnIdleQubits.run]),
    followed by the properties of the two passes.

    Python objects that are shared and mutated (the [Instruction] held by a
    DAG node) live in an explicit object store; a DAG node holds a reference
    into that store, so that two graphs holding the same instruction object
    see each other's writes.

    Times and durations are Python numbers.  With the time unit ['dt'] they
    are integers, and the embedding has them as [Z]: comparison, maximum,
    sum and difference are then exact.  With the time unit ['s'] the source
    runs the same statements on floats; what is stated of the arithmetic
    of a whole run (contiguous lanes, the total duration) is stated for
    ['dt'], and [Seconds] shows on floats why. *)

From Stdlib Require Import ZArith Lia.
From Stdlib Require Floats.PrimFloat.
From stdpp Require Import base option list gmap strings.

#[local] Set Warnings "-clear-no-such-hyp,-inexact-float".

(* ================================================================== *)
(** * Data model *)
(* ================================================================== *)

(** Modelled from the spec: the classes [Bit], [Qubit] and [Clbit] (module
    [qiskit.circuit]) are not among the sources.  A lane is one wire,
    quantum or classical; it is identified by its register and its index
    in it. *)
Inductive Bit : Type :=
| Qubit (reg : string) (index : nat)
| Clbit (reg : string) (index : nat).

#[global] Instance Bit_eq_dec : EqDecision Bit.
Proof. solve_decision. Defined.

Definition Bit_encode (b : Bit) : (string * nat) + (string * nat) :=
  match b with
  | Qubit r i => inl (r, i)
  | Clbit r i => inr (r, i)
  end.

Definition Bit_decode (x : (string * nat) + (string * nat)) : Bit :=
  match x with
  | inl (r, i) => Qubit r i
  | inr (r, i) => Clbit r i
  end.

#[global] Instance Bit_countable : Countable Bit.
Proof. apply (inj_countable' Bit_encode Bit_decode). by intros []. Defined.

(** [isinstance(b, Qubit)] and [isinstance(b, Clbit)]. *)
Definition is_Qubit (b : Bit) : bool :=
  match b with Qubit _ _ => true | Clbit _ _ => false end.

Definition is_Clbit (b : Bit) : bool :=
  match b with Qubit _ _ => false | Clbit _ _ => true end.

(** Modelled from the spec: the class [Instruction] (module
    [qiskit.circuit]) is not among the sources.  It is the payload of an
    operation node; once scheduled it carries a duration and a time unit.
    [is_Delay] stands for [isinstance(op, Delay)]; [op_duration] and
    [op_unit] are the attributes [op.duration] and [op.unit] that
    [ASAPSchedule.run] assigns ([None] for Python's [None]). *)
Record Instruction : Type := mkInstruction {
  op_name : string;
  is_Delay : bool;
  op_duration : option Z;
  op_unit : option string
}.

#[global] Instance Instruction_inhabited : Inhabited Instruction :=
  populate (mkInstruction "" false None None).

(** The object store: instruction objects by identity.  A reference is an
    index; a new object is appended, attribute assignment overwrites. *)
Definition ref : Type := nat.
Abbreviation Store := (list Instruction).

Definition alloc (o : Instruction) (h : Store) : ref * Store :=
  (length h, h ++ [o]).

(** [op.duration = d; op.unit = u] on the object at [r]. *)
Definition set_duration_unit (r : ref) (d : Z) (u : option string)
    (h : Store) : Store :=
  <[r := mkInstruction (op_name (h !!! r)) (is_Delay (h !!! r)) (Some d) u]> h.

(** Exceptions raised by the two passes and by what they call:
    [TranspilerError] by the passes themselves, [ValueError] by [max] on
    an empty sequence, [TypeError] by [sum] on a missing duration, and
    [DurationLookupError] by a failed lookup in the duration table. *)
Inductive Exception : Type :=
| TranspilerError (msg : string)
| ValueError
| TypeError
| DurationLookupError.

(** Modelled from the spec: the class [DAGNode] (module
    [qiskit.dagcircuit]) is not among the sources.  An operation node has
    a payload, here a reference to its instruction object, ordered quantum
    and classical operands, and an optional classical condition (register
    name and value). *)
Record DAGNode : Type := mkDAGNode {
  op : ref;
  qargs : list Bit;
  cargs : list Bit;
  condition : option (string * Z)
}.

(** Modelled from the spec: the class [DAGCircuit] (module
    [qiskit.dagcircuit]) is not among the sources.  The graph has a name,
    its lane groups (registers, as (name, size) in insertion order), its
    operation nodes, and the schedule metadata: a duration, [None] while
    unscheduled, and a time unit.  Operation nodes are kept by handle: the
    handle of a node is its position in [nodes]; a removed node leaves
    [None] behind, so handles of other nodes are stable.  All wires being
    built by appending at the end, the order of the nodes of a wire is the
    order of their handles. *)
Record DAGCircuit : Type := mkDAGCircuit {
  dag_name : option string;
  qregs : list (string * nat);
  cregs : list (string * nat);
  nodes : list (option DAGNode);
  dag_duration : option Z;
  dag_unit : option string
}.

Definition register_bits (mk : string → nat → Bit) (r : string * nat)
    : list Bit :=
  map (mk r.1) (seq 0 r.2).

(** Modelled from the spec: [dag.qubits], the quantum lanes of the
    registered groups in order. *)
Definition qubits (dag : DAGCircuit) : list Bit :=
  flat_map (register_bits Qubit) (qregs dag).

(** Modelled from the spec: [dag.clbits], the classical lanes of the
    registered groups in order. *)
Definition clbits (dag : DAGCircuit) : list Bit :=
  flat_map (register_bits Clbit) (cregs dag).

(** Modelled from the spec: [DAGCircuit()], a new graph without lane
    group, node or schedule metadata. *)
Definition DAGCircuit_new : DAGCircuit :=
  mkDAGCircuit None [] [] [] None None.

(** Modelled from the spec: [dag.add_qreg(qreg)], registration of a
    quantum lane group. *)
Definition add_qreg (r : string * nat) (dag : DAGCircuit) : DAGCircuit :=
  mkDAGCircuit (dag_name dag) (qregs dag ++ [r]) (cregs dag) (nodes dag)
               (dag_duration dag) (dag_unit dag).

(** Modelled from the spec: [dag.add_creg(creg)], registration of a
    classical lane group. *)
Definition add_creg (r : string * nat) (dag : DAGCircuit) : DAGCircuit :=
  mkDAGCircuit (dag_name dag) (qregs dag) (cregs dag ++ [r]) (nodes dag)
               (dag_duration dag) (dag_unit dag).

(** The graph [dag] with [ns] for its nodes. *)
Definition set_nodes (ns : list (option DAGNode)) (dag : DAGCircuit)
    : DAGCircuit :=
  mkDAGCircuit (dag_name dag) (qregs dag) (cregs dag) ns
               (dag_duration dag) (dag_unit dag).

(** Modelled from the spec: [dag.apply_operation_back(op, qargs, cargs,
    condition)], append-operation-at-end returning the node handle.  The
    payload is stored as it is handed over: the new node refers to the
    caller's instruction object. *)
Definition apply_operation_back (o : ref) (qs cs : list Bit)
    (cond : option (string * Z)) (dag : DAGCircuit) : nat * DAGCircuit :=
  (length (nodes dag),
   set_nodes (nodes dag ++ [Some (mkDAGNode o qs cs cond)]) dag).

(** Modelled from the spec: [dag.remove_op_node(node)], remove-node by
    handle. *)
Definition remove_op_node (i : nat) (dag : DAGCircuit) : DAGCircuit :=
  set_nodes (<[i := None]> (nodes dag)) dag.

(** Handles and nodes still in the graph, in insertion order, the first
    handle being [i0]. *)
Fixpoint live_from (i0 : nat) (ns : list (option DAGNode))
    : list (nat * DAGNode) :=
  match ns with
  | [] => []
  | Some n :: r => (i0, n) :: live_from (S i0) r
  | None :: r => live_from (S i0) r
  end.

(** Modelled from the spec: the operation nodes of the graph, each with
    its handle. *)
Definition op_nodes (dag : DAGCircuit) : list (nat * DAGNode) :=
  live_from 0 (nodes dag).

(** Modelled from the spec: [dag.topological_op_nodes()], the
    dependency-ordered traversal of the operation nodes, which preserves
    insertion order. *)
Definition topological_op_nodes (dag : DAGCircuit) : list DAGNode :=
  map snd (op_nodes dag).

(** The lanes of a node: [node.qargs + node.cargs]. *)
Definition node_bits (n : DAGNode) : list Bit := qargs n ++ cargs n.

Definition on_wire (b : Bit) (n : DAGNode) : bool :=
  bool_decide (b ∈ node_bits n).

(** Modelled from the spec: [dag.nodes_on_wire(b, only_ops=True)], the
    per-lane ordered traversal restricted to operation nodes.  An
    operation is on a lane when the lane is one of its quantum or
    classical operands; the classical condition is an ordering constraint
    kept on the node, not an operand. *)
Definition nodes_on_wire (b : Bit) (dag : DAGCircuit)
    : list (nat * DAGNode) :=
  filter (λ p, on_wire b p.2 = true) (op_nodes dag).

(** Modelled from the spec: the class [Delay] (module
    [qiskit.circuit.delay]) is not among the sources.  It is the padding
    operation: an instruction of the idle kind, waiting on one lane for
    the given duration in the given unit. *)
Definition Delay (d : Z) (u : option string) : Instruction :=
  mkInstruction "delay" true (Some d) u.

(* ================================================================== *)
(** * Python built-ins used by the passes *)
(* ================================================================== *)

(** [max(xs)]: raises [ValueError] ([None] here) on an empty sequence. *)
Definition py_max (xs : list Z) : option Z :=
  match xs with
  | [] => None
  | x :: r => Some (fold_left Z.max r x)
  end.

(** [sum(xs)] where an element may be [None]: adding [None] to an integer
    raises [TypeError] ([None] here). *)
Fixpoint py_sum_from (acc : Z) (xs : list (option Z)) : option Z :=
  match xs with
  | [] => Some acc
  | Some x :: r => py_sum_from (acc + x) r
  | None :: _ => None
  end.

Definition py_sum (xs : list (option Z)) : option Z := py_sum_from 0 xs.

(** [m[b]] on a [defaultdict(int)]: a missing key is inserted with 0. *)
Definition dd_get (b : Bit) (m : gmap Bit Z) : Z * gmap Bit Z :=
  match m !! b with
  | Some t => (t, m)
  | None => (0%Z, <[b := 0%Z]> m)
  end.

(** [[m[b] for b in bits]], reads in order. *)
Fixpoint dd_get_all (bits : list Bit) (m : gmap Bit Z)
    : list Z * gmap Bit Z :=
  match bits with
  | [] => ([], m)
  | b :: r =>
      let '(t, m1) := dd_get b m in
      let '(ts, m2) := dd_get_all r m1 in
      (t :: ts, m2)
  end.

(** [for b in bits: m[b] = v]. *)
Fixpoint dd_set_all (bits : list Bit) (v : Z) (m : gmap Bit Z)
    : gmap Bit Z :=
  match bits with
  | [] => m
  | b :: r => dd_set_all r v (<[b := v]> m)
  end.

(** [not time_unit] for an optional string. *)
Definition falsy (u : option string) : bool :=
  match u with
  | None => true
  | Some s => bool_decide (s = "")
  end.

(* ================================================================== *)
(** * ASAPSchedule *)
(* ================================================================== *)

Module ASAPSchedule.

(** The variables of [ASAPSchedule.run] that change while it runs: the
    object store, the graph under construction, and the time table
    [bit_time_available].  [start_times] is a ghost log, one entry per
    node appended to [new_dag] and in the same order: the time at which
    the scheduler places that node (the local [start_time] for an
    operation, the lane's availability for a padding delay).  Nothing
    reads it. *)
Record Sched : Type := mkSched {
  store : Store;
  new_dag : DAGCircuit;
  bit_time_available : gmap Bit Z;
  start_times : list Z
}.

(** One iteration of the loop of [pad_with_delays].  The source reads
    [bit_time_available[b]] in the test and again for [idle_duration]; the
    first read has inserted the key, so both give [t].  The delay is
    [Delay(idle_duration, unit, isinstance(b, Qubit))], put on the qubit or
    on the clbit [b] alone.  [until - t] is the difference of integers, as
    the source computes it with the unit ['dt']; with the unit ['s'] the
    source computes it on floats ([Seconds.idle_duration]). *)
Definition pad_bit (until : Z) (u : option string) (b : Bit) (s : Sched)
    : Sched :=
  let '(t, m) := dd_get b (bit_time_available s) in
  if (t <? until)%Z then
    let idle_duration := (until - t)%Z in
    let '(r, h) := alloc (Delay idle_duration u) (store s) in
    let '(_, g) :=
      apply_operation_back r
        (if is_Qubit b then [b] else [])
        (if is_Clbit b then [b] else [])
        None (new_dag s) in
    mkSched h g m (start_times s ++ [t])
  else
    mkSched (store s) (new_dag s) m (start_times s).

(** [pad_with_delays(bits, until, unit)]. *)
Fixpoint pad_with_delays (bits : list Bit) (until : Z) (u : option string)
    (s : Sched) : Sched :=
  match bits with
  | [] => s
  | b :: r => pad_with_delays r until u (pad_bit until u b s)
  end.

Section WithDurations.

(** [self.durations.get(op, qargs, unit=...)]: the duration table is an
    external collaborator; [None] stands for a failed lookup.  The
    durations are the integers the table gives with the unit ['dt']. *)
Variable durations : Instruction → list Bit → option string → option Z.

(** [self.property_set['time_unit']]. *)
Variable property_set_time_unit : option string.

(** The body of [for node in dag.topological_op_nodes()].  A raised
    exception comes with the object store at that point.  The lookup is
    made on [node.op] as it is at that point: an object that an earlier
    node holds too has got that node's duration and unit by then, and the
    assignment overwrites them.  [start_time + duration] is the sum of
    integers, as with the unit ['dt']. *)
Definition schedule_node (u : option string) (node : DAGNode) (s : Sched)
    : (Exception * Store) + Sched :=
  let bits := node_bits node in
  let '(ts, m) := dd_get_all bits (bit_time_available s) in
  match py_max ts with
  | None => inl (ValueError, store s)
  | Some start_time =>
      let s1 :=
        pad_with_delays bits start_time u
          (mkSched (store s) (new_dag s) m (start_times s)) in
      let '(_, g) :=
        apply_operation_back (op node) (qargs node) (cargs node)
                             (condition node) (new_dag s1) in
      match durations (store s1 !!! op node) (qargs node) u with
      | None => inl (DurationLookupError, store s1)
      | Some duration =>
          let h := set_duration_unit (op node) duration u (store s1) in
          let stop_time := (start_time + duration)%Z in
          inr (mkSched h g
                 (dd_set_all bits stop_time (bit_time_available s1))
                 (start_times s1 ++ [start_time]))
      end
  end.

Fixpoint schedule_nodes (u : option string) (ns : list DAGNode) (s : Sched)
    : (Exception * Store) + Sched :=
  match ns with
  | [] => inr s
  | n :: r =>
      match schedule_node u n s with
      | inl e => inl e
      | inr s1 => schedule_nodes u r s1
      end
  end.

(** The closing part of [run]: the circuit duration over the keys of the
    time table, padding of all qubits and then all clbits, metadata. *)
Definition finish (name : option string) (u : option string) (s : Sched)
    : (Exception * Store) + Sched :=
  let working_bits := map_to_list (bit_time_available s) in
  match py_max (working_bits.*2) with
  | None => inl (ValueError, store s)
  | Some circuit_duration =>
      let s1 := pad_with_delays (qubits (new_dag s)) circuit_duration u s in
      let s2 := pad_with_delays (clbits (new_dag s1)) circuit_duration u s1 in
      let g := new_dag s2 in
      inr (mkSched (store s2)
             (mkDAGCircuit name (qregs g) (cregs g) (nodes g)
                           (Some circuit_duration) u)
             (bit_time_available s2) (start_times s2))
  end.

(** [if not time_unit: time_unit = self.property_set['time_unit']]. *)
Definition resolve_unit (time_unit : option string) : option string :=
  if falsy time_unit then property_set_time_unit else time_unit.

(** The variables before the loop: a new graph with the registers of
    [dag], and an empty time table. *)
Definition init_sched (dag : DAGCircuit) (h : Store) : Sched :=
  mkSched h
    (foldl (λ g r, add_creg r g)
       (foldl (λ g r, add_qreg r g) DAGCircuit_new (qregs dag))
       (cregs dag))
    ∅ [].

(** [ASAPSchedule.run] with its variables at the return statement. *)
Definition schedule (dag : DAGCircuit) (time_unit : option string)
    (h : Store) : (Exception * Store) + Sched :=
  if bool_decide (length (qregs dag) ≠ 1%nat)
     || bool_decide (list_to_map (M := gmap string nat) (qregs dag) !! "q" = None)
  then inl (TranspilerError "ASAP schedule runs on physical circuits only", h)
  else
    let u := resolve_unit time_unit in
    match schedule_nodes u (topological_op_nodes dag) (init_sched dag h) with
    | inl e => inl e
    | inr s => finish (dag_name dag) u s
    end.

(** [ASAPSchedule.run(dag, time_unit)] in the object store [h]: the
    returned graph or the exception, and the object store afterwards. *)
Definition run (dag : DAGCircuit) (time_unit : option string) (h : Store)
    : (Exception + DAGCircuit) * Store :=
  match schedule dag time_unit h with
  | inl (e, h') => (inl e, h')
  | inr s => (inr (new_dag s), store s)
  end.

End WithDurations.

End ASAPSchedule.

(* ================================================================== *)
(** * RemoveDelaysOnIdleQubits *)
(* ================================================================== *)

Module RemoveDelaysOnIdleQubits.

(** The first inner loop: [idling] after scanning the wire of [q]. *)
Definition idling (h : Store) (q : Bit) (dag : DAGCircuit) : bool :=
  forallb (λ p : nat * DAGNode, is_Delay (h !!! op p.2)) (nodes_on_wire q dag).

(** [for node in list(dag.nodes_on_wire(q, only_ops=True)):
       dag.remove_op_node(node)]. *)
Definition remove_all (ps : list (nat * DAGNode)) (dag : DAGCircuit)
    : DAGCircuit :=
  foldl (λ g p, remove_op_node p.1 g) dag ps.

(** The loop over [dag.qubits], carrying the graph and [removed]. *)
Fixpoint remove_idle (h : Store) (qs : list Bit) (dag : DAGCircuit)
    (removed : bool) : DAGCircuit * bool :=
  match qs with
  | [] => (dag, removed)
  | q :: r =>
      if idling h q dag
      then remove_idle h r (remove_all (nodes_on_wire q dag) dag) true
      else remove_idle h r dag removed
  end.

(** [sum([node.op.duration for node in dag.nodes_on_wire(q, only_ops=True)])]. *)
Definition per_qubit (h : Store) (q : Bit) (dag : DAGCircuit) : option Z :=
  py_sum (map (λ p : nat * DAGNode, op_duration (h !!! op p.2))
              (nodes_on_wire q dag)).

(** The second loop over [dag.qubits], carrying [circuit_duration]. *)
Fixpoint recompute (h : Store) (qs : list Bit) (dag : DAGCircuit)
    (circuit_duration : Z) : option Z :=
  match qs with
  | [] => Some circuit_duration
  | q :: r =>
      match per_qubit h q dag with
      | None => None
      | Some s => recompute h r dag (Z.max s circuit_duration)
      end
  end.

Definition set_duration (d : Z) (dag : DAGCircuit) : DAGCircuit :=
  mkDAGCircuit (dag_name dag) (qregs dag) (cregs dag) (nodes dag)
               (Some d) (dag_unit dag).

(** [RemoveDelaysOnIdleQubits.run(dag)] in the object store [h].  The pass
    works on the graph object it is given and returns that same object:
    the result is the raised exception, if any, and the graph object as
    the call leaves it. *)
Definition run (h : Store) (dag : DAGCircuit)
    : option Exception * DAGCircuit :=
  match dag_duration dag with
  | None =>
      (Some (TranspilerError
               "RemoveDelaysOnIdleQubits runs on scheduled circuits only"),
       dag)
  | Some _ =>
      let '(g, removed) := remove_idle h (qubits dag) dag false in
      if removed then
        match recompute h (qubits g) g 0 with
        | None => (Some TypeError, g)
        | Some d => (None, set_duration d g)
        end
      else (None, g)
  end.

End RemoveDelaysOnIdleQubits.

(* ================================================================== *)
(** * Notions used to state the properties *)
(* ================================================================== *)

(** The availability of a lane in a time table: the value read by
    [bit_time_available[b]], 0 for a lane not in the table yet. *)
Definition avail (m : gmap Bit Z) (b : Bit) : Z := default 0%Z (m !! b).

(** An operation as it sits on a lane of a scheduled graph: its operands
    and condition, the time at which the scheduler placed it, and the
    instruction object it refers to, read in the store. *)
Record Placed : Type := mkPlaced {
  p_qargs : list Bit;
  p_cargs : list Bit;
  p_condition : option (string * Z);
  p_start : Z;
  p_op : Instruction
}.

Definition place (h : Store) (b : Bit) (x : option DAGNode * Z)
    : option Placed :=
  match x.1 with
  | Some n =>
      if on_wire b n
      then Some (mkPlaced (qargs n) (cargs n) (condition n) x.2 (h !!! op n))
      else None
  | None => None
  end.

(** The operations on lane [b] of graph [g], in lane order, each with its
    start time from the log [ts] and its instruction read in [h]. *)
Definition lane_view (h : Store) (g : DAGCircuit) (ts : list Z) (b : Bit)
    : list Placed :=
  omap (place h b) (zip (nodes g) ts).

Definition p_end (p : Placed) : option Z :=
  (λ d, p_start p + d)%Z <$> op_duration (p_op p).

(** Follow a lane from time [t]: every operation has a non-negative
    duration and starts where the one before it ends.  The result is the
    end of the last operation ([t] on an empty lane), [None] when the
    lane has a gap, an overlap or an operation without duration. *)
Fixpoint chain_end (t : Z) (l : list Placed) : option Z :=
  match l with
  | [] => Some t
  | p :: r =>
      match op_duration (p_op p) with
      | Some d =>
          if bool_decide (p_start p = t ∧ 0 ≤ d)%Z
          then chain_end (t + d) r
          else None
      | None => None
      end
  end.

(** End time of the last operation of a lane, 0 for a lane without
    operations. *)
Definition last_end (l : list Placed) : option Z :=
  match last l with
  | None => Some 0%Z
  | Some p => p_end p
  end.

(** What the scheduler may assume of its input: register names are keys
    of a dictionary, hence distinct; every operation node refers to an
    object of the store, no two nodes to the same one; the operands of a
    node are distinct lanes of the graph. *)
Record well_formed (h : Store) (dag : DAGCircuit) : Prop := {
  wf_cregs : NoDup (cregs dag).*1;
  wf_refs : ∀ n, n ∈ topological_op_nodes dag → op n < length h;
  wf_unshared : NoDup (op <$> topological_op_nodes dag);
  wf_operands : ∀ n, n ∈ topological_op_nodes dag → NoDup (node_bits n);
  wf_lanes : ∀ n b, n ∈ topological_op_nodes dag → b ∈ node_bits n →
             b ∈ qubits dag ++ clbits dag
}.

(** The padding node and its lane entry for lane [b]. *)
Definition delay_entry (b : Bit) (t d : Z) (u : option string) : Placed :=
  mkPlaced (if is_Qubit b then [b] else []) (if is_Clbit b then [b] else [])
           None t (Delay d u).

(** The entries that padding up to [until] adds to lane [b] when the
    lanes [bits] are padded from the time table [m]. *)
Definition padding (until : Z) (u : option string) (m : gmap Bit Z)
    (bits : list Bit) (b : Bit) : list Placed :=
  if decide (b ∈ bits ∧ (avail m b < until)%Z)
  then [delay_entry b (avail m b) (until - avail m b) u]
  else [].

(** The node of a padding delay on lane [b], its instruction at [r]. *)
Definition delay_node (r : ref) (b : Bit) : DAGNode :=
  mkDAGNode r (if is_Qubit b then [b] else []) (if is_Clbit b then [b] else [])
            None.

(** The lane entry of an operation node placed at [t], once its
    instruction [o] has been given the duration [d] and the unit [u]. *)
Definition op_entry (n : DAGNode) (o : Instruction) (t d : Z)
    (u : option string) : Placed :=
  mkPlaced (qargs n) (cargs n) (condition n) t
           (mkInstruction (op_name o) (is_Delay o) (Some d) u).

(** The contract of the duration table: durations are not negative. *)
Definition durations_nonneg
    (durations : Instruction → list Bit → option string → option Z) : Prop :=
  ∀ o qs u d, durations o qs u = Some d → (0 ≤ d)%Z.

(** What holds of the variables of the scheduler between two operations:
    the log of start times runs along the nodes of the new graph, the
    nodes refer to objects of the store, and, when durations are not
    negative ([nonneg]), every lane is contiguous from 0 up to its
    availability in the time table. *)
Record sched_inv (nonneg : Prop) (s : ASAPSchedule.Sched) : Prop := {
  inv_len : length (ASAPSchedule.start_times s)
            = length (nodes (ASAPSchedule.new_dag s));
  inv_refs : ∀ n, Some n ∈ nodes (ASAPSchedule.new_dag s) →
             op n < length (ASAPSchedule.store s);
  inv_chain : nonneg → ∀ b,
      chain_end 0 (lane_view (ASAPSchedule.store s) (ASAPSchedule.new_dag s)
                     (ASAPSchedule.start_times s) b)
      = Some (avail (ASAPSchedule.bit_time_available s) b)
}.

(** What holds, in addition, after the operations [done] of the input
    graph have been scheduled from the store [h]: objects of [h] not
    referred to by [done] are as in [h]; the object of a node of [done]
    has got the duration looked up for it and the unit [u]; the nodes of
    the new graph are the nodes of [done], sharing their objects, and
    padding delays on objects created since; the keys of the time table
    are the lanes of [done]. *)
Record loop_inv (durations : Instruction → list Bit → option string → option Z)
    (h : Store) (u : option string) (g0 : DAGCircuit) (done : list DAGNode)
    (s : ASAPSchedule.Sched) : Prop := {
  li_inv : sched_inv (durations_nonneg durations) s;
  li_grow : length h ≤ length (ASAPSchedule.store s);
  li_frame : ∀ r, r < length h → r ∉ op <$> done →
             ASAPSchedule.store s !! r = h !! r;
  li_set : ∀ n, n ∈ done →
           ∃ d, durations (h !!! op n) (qargs n) u = Some d
                ∧ ASAPSchedule.store s !!! op n
                  = mkInstruction (op_name (h !!! op n)) (is_Delay (h !!! op n))
                                  (Some d) u;
  li_nodes : ∀ n, Some n ∈ nodes (ASAPSchedule.new_dag s) →
             n ∈ done ∨ length h ≤ op n;
  li_shared : ∀ n, n ∈ done → Some n ∈ nodes (ASAPSchedule.new_dag s);
  li_keys : dom (ASAPSchedule.bit_time_available s)
            = list_to_set (concat (node_bits <$> done));
  li_regs : ASAPSchedule.new_dag s
            = set_nodes (nodes (ASAPSchedule.new_dag s)) g0
}.

(** All lanes of a graph. *)
Definition lanes (dag : DAGCircuit) : list Bit := qubits dag ++ clbits dag.

(** [d] is the largest of the sums of durations over the quantum lanes of
    [g], and 0 when they are all empty. *)
Definition max_over_qubits (h : Store) (g : DAGCircuit) (d : Z) : Prop :=
  (0 ≤ d)%Z
  ∧ (∀ q, q ∈ qubits g →
       ∃ s, RemoveDelaysOnIdleQubits.per_qubit h q g = Some s ∧ (s ≤ d)%Z)
  ∧ (d = 0%Z ∨ ∃ q, q ∈ qubits g ∧ RemoveDelaysOnIdleQubits.per_qubit h q g = Some d).

(* ================================================================== *)
(** * Example circuits *)
(* ================================================================== *)

Module Examples.

Definition q (i : nat) : Bit := Qubit "q" i.
Definition c (i : nat) : Bit := Clbit "c" i.
Definition dt : option string := Some "dt".

(** A duration table: a delay lasts what it says (a negative duration is
    not one), the other gates are looked up by name. *)
Definition table (o : Instruction) (qs : list Bit) (u : option string)
    : option Z :=
  if is_Delay o then
    match op_duration o with
    | Some d => if (0 <=? d)%Z then Some d else None
    | None => None
    end
  else if String.eqb (op_name o) "op1" then Some 5%Z
  else if String.eqb (op_name o) "op2" then Some 3%Z
  else if String.eqb (op_name o) "op3" then Some 2%Z
  else if String.eqb (op_name o) "h" then Some 4%Z
  else None.

Definition gate (name : string) : Instruction :=
  mkInstruction name false None None.

(** Three lanes; op1 on q0, op2 on (q0, q1), op3 on q2. *)
Definition store_A : Store := [gate "op1"; gate "op2"; gate "op3"].

Definition dag_A : DAGCircuit :=
  mkDAGCircuit (Some "A") [("q", 3)] []
    [Some (mkDAGNode 0 [q 0] [] None);
     Some (mkDAGNode 1 [q 0; q 1] [] None);
     Some (mkDAGNode 2 [q 2] [] None)]
    None None.

(** The nodes of [dag_A], and the variables of the scheduler after it has
    scheduled the nodes [ns] from [store_A]. *)
Definition node_A (i : nat) : DAGNode :=
  default (mkDAGNode 0 [] [] None) (topological_op_nodes dag_A !! i).


(** A graph without any operation. *)
Definition dag_empty : DAGCircuit :=
  mkDAGCircuit (Some "empty") [("q", 2)] [("c", 1)] [] None None.

(** One qubit and one clbit; a gate on the qubit. *)
Definition store_H : Store := [gate "h"].

Definition dag_H : DAGCircuit :=
  mkDAGCircuit (Some "H") [("q", 1)] [("c", 1)]
    [Some (mkDAGNode 0 [q 0] [] None)] None None.

(** [dag_H] once scheduled. *)
Definition store_H_scheduled : Store :=
  [mkInstruction "h" false (Some 4%Z) dt; Delay 4 dt].

Definition dag_H_scheduled : DAGCircuit :=
  mkDAGCircuit (Some "H") [("q", 1)] [("c", 1)]
    [Some (mkDAGNode 0 [q 0] [] None);
     Some (mkDAGNode 1 [] [c 0] None)]
    (Some 4%Z) dt.





(** The circuit of [test_simple_circuit]: delay(100) and h (duration 200)
    on q0, delay(300) on q1 and on q2, scheduled duration 300. *)
Definition store_D : Store :=
  [Delay 100 dt; mkInstruction "h" false (Some 200%Z) None;
   Delay 300 dt; Delay 300 dt].

Definition dag_D : DAGCircuit :=
  mkDAGCircuit None [("q", 3)] []
    [Some (mkDAGNode 0 [q 0] [] None);
     Some (mkDAGNode 1 [q 0] [] None);
     Some (mkDAGNode 2 [q 1] [] None);
     Some (mkDAGNode 3 [q 2] [] None)]
    (Some 300%Z) None.



(** Two qubits and one clbit: op1 on q0 and c0, then op2 on q1 under a
    condition on the register c. *)
Definition store_M : Store := [gate "op1"; gate "op2"].

Definition dag_M : DAGCircuit :=
  mkDAGCircuit (Some "M") [("q", 2)] [("c", 1)]
    [Some (mkDAGNode 0 [q 0] [c 0] None);
     Some (mkDAGNode 1 [q 1] [] (Some ("c", 1%Z)))]
    None None.

(** A graph that was never scheduled. *)
Definition dag_unscheduled : DAGCircuit :=
  mkDAGCircuit None [("q", 1)] []
    [Some (mkDAGNode 0 [q 0] [] None)] None None.

End Examples.

Module MoreExamples.

(** Two qubits with a recorded duration of 10: a gate without duration on
    q0, a delay of 10 on q1. *)
Definition store_T : Store := [Examples.gate "h"; Delay 10 Examples.dt].

Definition dag_T : DAGCircuit :=
  mkDAGCircuit None [("q", 2)] []
    [Some (mkDAGNode 0 [Examples.q 0] [] None);
     Some (mkDAGNode 1 [Examples.q 1] [] None)]
    (Some 10%Z) Examples.dt.

(** A graph whose quantum register is not named q. *)
Definition dag_virtual : DAGCircuit :=
  mkDAGCircuit None [("qr", 2)] []
    [Some (mkDAGNode 0 [Qubit "qr" 0] [] None)] None None.

(** [Examples.dag_A] with one more operation, of a name the duration
    table does not know, on q1. *)
Definition store_U : Store := Examples.store_A ++ [Examples.gate "unknown"].

Definition dag_U : DAGCircuit :=
  mkDAGCircuit (Some "U") [("q", 3)] []
    (nodes Examples.dag_A ++ [Some (mkDAGNode 3 [Examples.q 1] [] None)])
    None None.

End MoreExamples.

Module SharedExamples.

(** A duration table by qubit: the gate y lasts 10 wherever it acts, any
    other gate lasts 3 on q0 alone and 5 elsewhere. *)
Definition table_by_qubit (o : Instruction) (qs : list Bit) (u : option string)
    : option Z :=
  if String.eqb (op_name o) "y" then Some 10%Z
  else if bool_decide (qs = [Examples.q 0]) then Some 3%Z
  else Some 5%Z.

(** Two qubits and one instruction object held by two nodes: x on q0,
    then the same x on q1. *)
Definition store_S : Store := [Examples.gate "x"].

Definition dag_S : DAGCircuit :=
  mkDAGCircuit (Some "S") [("q", 2)] []
    [Some (mkDAGNode 0 [Examples.q 0] [] None);
     Some (mkDAGNode 0 [Examples.q 1] [] None)]
    None None.

(** Two qubits: y on q0, then one object x held by two nodes, on q0 and
    then on q1. *)
Definition store_S3 : Store := [Examples.gate "y"; Examples.gate "x"].

Definition dag_S3 : DAGCircuit :=
  mkDAGCircuit (Some "S3") [("q", 2)] []
    [Some (mkDAGNode 0 [Examples.q 0] [] None);
     Some (mkDAGNode 1 [Examples.q 0] [] None);
     Some (mkDAGNode 1 [Examples.q 1] [] None)]
    None None.

(** The variables of the scheduler at the return statement of a run on
    [dag] from the store [h], with the table by qubit and the unit
    ['dt']. *)
Definition scheduled (dag : DAGCircuit) (h : Store) : ASAPSchedule.Sched :=
  match ASAPSchedule.schedule table_by_qubit None dag Examples.dt h with
  | inr s => s
  | inl _ => ASAPSchedule.init_sched dag h
  end.

End SharedExamples.

(** With the time unit ['s'] the times of [ASAPSchedule.run] are Python
    floats (binary64).  The two expressions that decide where a padded
    lane ends, on floats. *)
Module Seconds.

Import PrimFloat.

(** Line 68: [idle_duration = until - bit_time_available[b]]. *)
Definition idle_duration (until t : float) : float := (until - t)%float.

(** The end of the padding delay of a lane free at [t]: its start plus
    its duration. *)
Definition padded_end (until t : float) : float :=
  (t + idle_duration until t)%float.

(** A lane free at 0.3 s, padded until 0.9 s. *)
Definition free_at : float := 0.3%float.

Definition pad_until : float := 0.9%float.

End Seconds.

(* ================================================================== *)
(** * Further notions *)
(* ================================================================== *)

(** The node [n] is a padding delay in the store [h]: it sits on one lane
    alone, without condition, and its instruction is a delay of positive
    duration in the unit [u]. *)
Definition is_padding (h : Store) (u : option string) (n : DAGNode) : Prop :=
  ∃ b d, n = delay_node (op n) b ∧ h !!! op n = Delay d u ∧ (0 < d)%Z.

(** What holds of the nodes of the new graph after the operations [done]
    have been scheduled from the store [h]: no handle is vacant; the nodes
    whose instruction was in [h] are the nodes of [done], in order; the
    other nodes are padding delays. *)
Record nodes_inv (h : Store) (u : option string) (done : list DAGNode)
    (s : ASAPSchedule.Sched) : Prop := {
  ni_live : ∀ o, o ∈ nodes (ASAPSchedule.new_dag s) → is_Some o;
  ni_originals :
    filter (λ n, op n < length h) (omap id (nodes (ASAPSchedule.new_dag s)))
    = done;
  ni_padding : ∀ n, Some n ∈ nodes (ASAPSchedule.new_dag s) →
               length h ≤ op n → is_padding (ASAPSchedule.store s) u n
}.

(** A duration that is there and is not negative. *)
Definition timed_nonneg (x : option Z) : Prop := ∃ d, x = Some d ∧ (0 ≤ d)%Z.

(** The sum of the durations of a list, a missing one counting for 0. *)
Definition total (xs : list (option Z)) : Z :=
  foldr (λ x acc, (default 0 x + acc)%Z) 0%Z xs.


(* ================================================================== *)
(** * Lemmas on the built-ins *)
(* ================================================================== *)

Lemma fold_left_max_ge (xs : list Z) (a : Z) :
  (a ≤ fold_left Z.max xs a)%Z ∧ ∀ x, x ∈ xs → (x ≤ fold_left Z.max xs a)%Z.
Proof.
  revert a. induction xs as [|y r IH]; intros a; simpl.
  - split; [lia|]. intros x Hx. inversion Hx.
  - destruct (IH (Z.max a y)) as [H1 H2]. split; [lia|].
    intros x Hx. apply elem_of_cons in Hx as [->|Hx]; [lia|auto].
Qed.

Lemma fold_left_max_in (xs : list Z) (a : Z) :
  fold_left Z.max xs a = a ∨ fold_left Z.max xs a ∈ xs.
Proof.
  revert a. induction xs as [|y r IH]; intros a; simpl; [by left|].
  destruct (IH (Z.max a y)) as [H|H].
  - rewrite H. destruct (Z.max_spec a y) as [[_ ->]|[_ ->]].
    + right. left.
    + by left.
  - right. by right.
Qed.

Lemma py_max_Some (xs : list Z) (m : Z) :
  py_max xs = Some m → m ∈ xs ∧ ∀ x, x ∈ xs → (x ≤ m)%Z.
Proof.
  destruct xs as [|x r]; simpl; [congruence|]. intros [= <-].
  destruct (fold_left_max_ge r x) as [H1 H2]. split.
  - destruct (fold_left_max_in r x) as [->|H]; [left | by right].
  - intros y Hy. apply elem_of_cons in Hy as [->|Hy]; auto.
Qed.

Lemma py_max_is_Some (xs : list Z) : xs ≠ [] → is_Some (py_max xs).
Proof. destruct xs; [congruence|]. intros _. simpl. eauto. Qed.

Lemma avail_dd_get (b b' : Bit) (m : gmap Bit Z) :
  (dd_get b m).1 = avail m b ∧ avail (dd_get b m).2 b' = avail m b'.
Proof.
  unfold dd_get, avail. destruct (m !! b) eqn:E; simpl; [done|].
  split; [done|]. destruct (decide (b = b')) as [->|Hne].
  - by rewrite lookup_insert_eq, E.
  - by rewrite lookup_insert_ne.
Qed.

Lemma dom_dd_get (b : Bit) (m : gmap Bit Z) :
  dom (dd_get b m).2 = {[b]} ∪ dom m.
Proof.
  unfold dd_get. destruct (m !! b) eqn:E; simpl.
  - apply elem_of_dom_2 in E. set_solver.
  - by rewrite dom_insert_L.
Qed.

Lemma dd_get_all_spec (bits : list Bit) (m : gmap Bit Z) :
  (dd_get_all bits m).1 = map (avail m) bits
  ∧ (∀ b, avail (dd_get_all bits m).2 b = avail m b)
  ∧ dom (dd_get_all bits m).2 = list_to_set bits ∪ dom m.
Proof.
  revert m. induction bits as [|b r IH]; intros m; simpl.
  - split; [done|]. split; [done|]. set_solver.
  - destruct (dd_get b m) as [t m1] eqn:E1.
    destruct (dd_get_all r m1) as [ts m2] eqn:E2. simpl.
    destruct (IH m1) as (H1 & H2 & H3). rewrite E2 in H1, H2, H3. simpl in *.
    pose proof (avail_dd_get b b m) as [Ha _].
    pose proof (dom_dd_get b m) as Hd. rewrite E1 in Ha, Hd. simpl in *.
    split; [|split].
    + rewrite H1, Ha. f_equal. apply map_ext_in. intros b' _.
      pose proof (avail_dd_get b b' m) as [_ Hb]. by rewrite E1 in Hb.
    + intros b'. rewrite H2.
      pose proof (avail_dd_get b b' m) as [_ Hb]. by rewrite E1 in Hb.
    + rewrite H3, Hd. set_solver.
Qed.

Lemma dd_set_all_lookup (bits : list Bit) (v : Z) (m : gmap Bit Z) (b : Bit) :
  dd_set_all bits v m !! b = if decide (b ∈ bits) then Some v else m !! b.
Proof.
  revert m. induction bits as [|b0 r IH]; intros m; cbn [dd_set_all].
  - by rewrite decide_False by set_solver.
  - rewrite IH. destruct (decide (b ∈ r)) as [Hin|Hnin].
    + by rewrite decide_True by set_solver.
    + destruct (decide (b = b0)) as [->|Hne].
      * rewrite decide_True by set_solver. by rewrite lookup_insert_eq.
      * rewrite decide_False by set_solver. by rewrite lookup_insert_ne.
Qed.

Lemma avail_dd_set_all (bits : list Bit) (v : Z) (m : gmap Bit Z) (b : Bit) :
  avail (dd_set_all bits v m) b = if decide (b ∈ bits) then v else avail m b.
Proof. unfold avail. rewrite dd_set_all_lookup. by destruct (decide _). Qed.

Lemma dom_dd_set_all (bits : list Bit) (v : Z) (m : gmap Bit Z) :
  dom (dd_set_all bits v m) = list_to_set bits ∪ dom m.
Proof.
  revert m. induction bits as [|b0 r IH]; intros m; simpl; [set_solver|].
  rewrite IH, dom_insert_L. set_solver.
Qed.

(* ================================================================== *)
(** * Lemmas on the graph *)
(* ================================================================== *)

Lemma set_nodes_set_nodes (ns ns' : list (option DAGNode)) (g : DAGCircuit) :
  set_nodes ns (set_nodes ns' g) = set_nodes ns g.
Proof. done. Qed.

Lemma set_nodes_id (g : DAGCircuit) : set_nodes (nodes g) g = g.
Proof. by destruct g. Qed.

Lemma live_from_ge (i0 : nat) (ns : list (option DAGNode)) (p : nat * DAGNode) :
  p ∈ live_from i0 ns → i0 ≤ p.1.
Proof.
  revert i0. induction ns as [|[n|] r IH]; intros i0; simpl.
  - by intros ?%elem_of_nil.
  - intros [->|H]%elem_of_cons; simpl; [lia|]. apply IH in H. lia.
  - intros H. apply IH in H. lia.
Qed.

Lemma live_from_lookup (i0 : nat) (ns : list (option DAGNode)) (p : nat * DAGNode) :
  p ∈ live_from i0 ns ↔ ∃ k, p.1 = i0 + k ∧ ns !! k = Some (Some p.2).
Proof.
  revert i0. induction ns as [|o r IH]; intros i0.
  - simpl. rewrite elem_of_nil. split; [done|]. by intros (k & _ & ?).
  - assert (p ∈ live_from (S i0) r ↔
            ∃ k, p.1 = i0 + S k ∧ (o :: r) !! S k = Some (Some p.2)) as Htl.
    { rewrite IH. split; intros (k & H1 & H2); exists k; split; auto; lia. }
    destruct o as [n|]; simpl.
    + rewrite elem_of_cons, Htl. split.
      * intros [->|(k & H1 & H2)]; [exists 0; simpl; split; [lia|done]|].
        exists (S k). by split.
      * intros ([|k] & H1 & H2); simpl in *.
        -- left. destruct p as [i n']; simpl in *. inversion H2; subst.
           f_equal. lia.
        -- right. exists k. by split.
    + rewrite Htl. split.
      * intros (k & H1 & H2). exists (S k). by split.
      * intros ([|k] & H1 & H2); simpl in *; [done|]. exists k. by split.
Qed.

Lemma filter_ext_in {A} (P Q : A → Prop) `{!∀ x, Decision (P x)}
    `{!∀ x, Decision (Q x)} (l : list A) :
  (∀ x, x ∈ l → P x ↔ Q x) → filter P l = filter Q l.
Proof.
  induction l as [|x r IH]; intros Hx; [done|].
  rewrite !filter_cons.
  rewrite IH by (intros y Hy; apply Hx; by right).
  destruct (decide (P x)) as [HP|HP], (decide (Q x)) as [HQ|HQ]; try done.
  - apply Hx in HP; [done | left].
  - apply Hx in HQ; [done | left].
Qed.

Lemma filter_id {A} (P : A → Prop) `{!∀ x, Decision (P x)} (l : list A) :
  (∀ x, x ∈ l → P x) → filter P l = l.
Proof.
  induction l as [|x r IH]; intros Hx; [done|].
  rewrite filter_cons_True by (apply Hx; left).
  f_equal. apply IH. intros y Hy. apply Hx. by right.
Qed.

Lemma filter_none {A} (P : A → Prop) `{!∀ x, Decision (P x)} (l : list A) :
  (∀ x, x ∈ l → ¬ P x) → filter P l = [].
Proof.
  induction l as [|x r IH]; intros Hx; [done|].
  rewrite filter_cons_False by (apply Hx; left).
  apply IH. intros y Hy. apply Hx. by right.
Qed.

Lemma live_from_remove (i0 k : nat) (ns : list (option DAGNode)) :
  live_from i0 (<[k := None]> ns)
  = filter (λ p, p.1 ≠ i0 + k) (live_from i0 ns).
Proof.
  revert i0 k. induction ns as [|o r IH]; intros i0 k; [done|].
  destruct k as [|k].
  - assert (filter (λ p : nat * DAGNode, p.1 ≠ i0 + 0) (live_from (S i0) r)
            = live_from (S i0) r) as Hid.
    { apply filter_id. intros p Hp. apply live_from_ge in Hp. lia. }
    destruct o as [n|]; cbn [live_from insert list_insert]; [|by rewrite Hid].
    rewrite filter_cons_False by (simpl; lia). by rewrite Hid.
  - replace (i0 + S k) with (S i0 + k) by lia.
    destruct o as [n|]; cbn [live_from insert list_insert]; [|apply IH].
    rewrite filter_cons_True by (simpl; lia). f_equal. apply IH.
Qed.

Lemma live_from_inj (i0 : nat) (ns : list (option DAGNode)) (p p' : nat * DAGNode) :
  p ∈ live_from i0 ns → p' ∈ live_from i0 ns → p.1 = p'.1 → p = p'.
Proof.
  rewrite !live_from_lookup. intros (k & H1 & H2) (k' & H1' & H2') Heq.
  assert (k = k') as -> by lia. rewrite H2 in H2'.
  destruct p, p'; simpl in *. congruence.
Qed.

Lemma op_nodes_remove_op_node (i : nat) (g : DAGCircuit) :
  op_nodes (remove_op_node i g) = filter (λ p, p.1 ≠ i) (op_nodes g).
Proof. unfold op_nodes. cbn [remove_op_node set_nodes nodes]. by rewrite live_from_remove. Qed.

Lemma remove_all_set_nodes (ps : list (nat * DAGNode)) (g : DAGCircuit) :
  ∃ ns, RemoveDelaysOnIdleQubits.remove_all ps g = set_nodes ns g.
Proof.
  unfold RemoveDelaysOnIdleQubits.remove_all.
  revert g. induction ps as [|p r IH]; intros g; cbn [foldl].
  - exists (nodes g). by rewrite set_nodes_id.
  - destruct (IH (remove_op_node p.1 g)) as [ns ->]. by exists ns.
Qed.

Lemma op_nodes_remove_all (ps : list (nat * DAGNode)) (g : DAGCircuit) :
  op_nodes (RemoveDelaysOnIdleQubits.remove_all ps g)
  = filter (λ p, p.1 ∉ ps.*1) (op_nodes g).
Proof.
  unfold RemoveDelaysOnIdleQubits.remove_all.
  revert g. induction ps as [|p0 r IH]; intros g; cbn [foldl].
  - symmetry. apply filter_id. intros p _. cbn. by intros ?%elem_of_nil.
  - rewrite IH, op_nodes_remove_op_node, list_filter_filter.
    apply list_filter_iff. intros p. rewrite fmap_cons, not_elem_of_cons. tauto.
Qed.

(** Removing every node of a wire leaves the nodes that are not on it. *)
Lemma op_nodes_strip (q : Bit) (g : DAGCircuit) :
  op_nodes (RemoveDelaysOnIdleQubits.remove_all (nodes_on_wire q g) g)
  = filter (λ p, on_wire q p.2 ≠ true) (op_nodes g).
Proof.
  rewrite op_nodes_remove_all. apply filter_ext_in. intros p Hp.
  unfold nodes_on_wire. split.
  - intros Hn Hon. apply Hn. apply list_elem_of_fmap. exists p. split; [done|].
    apply list_elem_of_filter. by split.
  - intros Hoff (p' & Heq & Hp')%list_elem_of_fmap.
    apply list_elem_of_filter in Hp' as [Hon Hp'].
    assert (p = p') as <- by (by apply (live_from_inj 0 (nodes g))).
    done.
Qed.

Lemma nodes_on_wire_strip (q q' : Bit) (g : DAGCircuit) :
  nodes_on_wire q' (RemoveDelaysOnIdleQubits.remove_all (nodes_on_wire q g) g)
  = filter (λ p, on_wire q p.2 ≠ true) (nodes_on_wire q' g).
Proof.
  unfold nodes_on_wire at 1. rewrite op_nodes_strip.
  unfold nodes_on_wire. rewrite !list_filter_filter.
  apply list_filter_iff. intros p. tauto.
Qed.

Lemma nodes_on_wire_strip_self (q : Bit) (g : DAGCircuit) :
  nodes_on_wire q (RemoveDelaysOnIdleQubits.remove_all (nodes_on_wire q g) g) = [].
Proof.
  rewrite nodes_on_wire_strip. apply filter_none. intros p Hp.
  apply list_elem_of_filter in Hp as [Hon _]. tauto.
Qed.

(* ================================================================== *)
(** * Lemmas on RemoveDelaysOnIdleQubits *)
(* ================================================================== *)

Section RemoverLemmas.

Import RemoveDelaysOnIdleQubits.

Variable h : Store.

Lemma idling_false (q : Bit) (g : DAGCircuit) :
  idling h q g = false ↔
  ∃ p, p ∈ nodes_on_wire q g ∧ is_Delay (h !!! op p.2) = false.
Proof.
  unfold idling. split.
  - intros Hf. apply not_true_iff_false in Hf.
    rewrite forallb_forall in Hf.
    destruct (decide (Exists (λ p : nat * DAGNode, is_Delay (h !!! op p.2) = false)
                             (nodes_on_wire q g))) as [He|He].
    + apply Exists_exists in He as (p & Hp & Hd). eauto.
    + exfalso. apply Hf. intros p Hp. apply list_elem_of_In in Hp.
      destruct (is_Delay (h !!! op p.2)) eqn:E; [done|].
      exfalso. apply He. apply Exists_exists. eauto.
  - intros (p & Hp & Hd). apply not_true_iff_false. intros Ht.
    rewrite forallb_forall in Ht. apply list_elem_of_In in Hp.
    apply Ht in Hp. congruence.
Qed.


Lemma remove_idle_set_nodes (qs : list Bit) (g : DAGCircuit) (r : bool) :
  ∃ ns, (remove_idle h qs g r).1 = set_nodes ns g.
Proof.
  revert g r. induction qs as [|q qs IH]; intros g r; cbn [remove_idle].
  - exists (nodes g). by rewrite set_nodes_id.
  - destruct (idling h q g); [|apply IH].
    destruct (remove_all_set_nodes (nodes_on_wire q g) g) as [ns1 ->].
    destruct (IH (set_nodes ns1 g) true) as [ns ->]. by exists ns.
Qed.

(** Nodes are only ever removed, and only delays are. *)
Lemma remove_idle_op_nodes (qs : list Bit) (g : DAGCircuit) (r : bool)
    (p : nat * DAGNode) :
  (p ∈ op_nodes (remove_idle h qs g r).1 → p ∈ op_nodes g)
  ∧ (p ∈ op_nodes g → is_Delay (h !!! op p.2) = false →
     p ∈ op_nodes (remove_idle h qs g r).1).
Proof.
  revert g r. induction qs as [|q qs IH]; intros g r; cbn [remove_idle]; [done|].
  destruct (idling h q g) eqn:Hi; [|apply IH].
  destruct (IH (remove_all (nodes_on_wire q g) g) true) as [IH1 IH2].
  rewrite op_nodes_strip in IH1, IH2. split.
  - intros Hp. apply IH1 in Hp. by apply list_elem_of_filter in Hp as [_ ?].
  - intros Hp Hd. apply IH2; [|done]. apply list_elem_of_filter. split; [|done].
    intros Hon. unfold idling in Hi. rewrite forallb_forall in Hi.
    assert (p ∈ nodes_on_wire q g) as Hw
      by (apply list_elem_of_filter; by split).
    apply list_elem_of_In, Hi in Hw. congruence.
Qed.

Lemma remove_idle_on_wire (qs : list Bit) (g : DAGCircuit) (r : bool)
    (q : Bit) (p : nat * DAGNode) :
  p ∈ nodes_on_wire q (remove_idle h qs g r).1 → p ∈ nodes_on_wire q g.
Proof.
  unfold nodes_on_wire. rewrite !list_elem_of_filter. intros [Hon Hp].
  split; [done|]. by apply remove_idle_op_nodes in Hp.
Qed.

Lemma remove_idle_keeps_empty (qs : list Bit) (g : DAGCircuit) (r : bool)
    (q : Bit) :
  nodes_on_wire q g = [] → nodes_on_wire q (remove_idle h qs g r).1 = [].
Proof.
  intros He. destruct (nodes_on_wire q (remove_idle h qs g r).1) as [|p l] eqn:E;
    [done|].
  assert (p ∈ nodes_on_wire q g) as Hp
    by (apply (remove_idle_on_wire qs g r); rewrite E; left).
  rewrite He in Hp. by apply elem_of_nil in Hp.
Qed.

(** After the loop, a processed wire is empty or carries an operation
    that is not a delay. *)
Lemma remove_idle_idle_empty (qs : list Bit) (g : DAGCircuit) (r : bool)
    (q : Bit) :
  q ∈ qs → idling h q (remove_idle h qs g r).1 = true →
  nodes_on_wire q (remove_idle h qs g r).1 = [].
Proof.
  revert g r. induction qs as [|q0 qs IH]; intros g r; [by intros ?%elem_of_nil|].
  intros Hq. cbn [remove_idle]. destruct (idling h q0 g) eqn:Hi.
  - destruct (decide (q ∈ qs)) as [Hin|Hnin]; [by apply IH|].
    apply elem_of_cons in Hq as [->|?]; [|done]. intros _.
    apply remove_idle_keeps_empty, nodes_on_wire_strip_self.
  - destruct (decide (q ∈ qs)) as [Hin|Hnin]; [by apply IH|].
    apply elem_of_cons in Hq as [->|?]; [|done]. intros Ht. exfalso.
    apply idling_false in Hi as (p & Hp & Hd).
    assert (idling h q0 (remove_idle h qs g r).1 = false) as Hf; [|congruence].
    apply idling_false. exists p. split; [|done].
    unfold nodes_on_wire in *. apply list_elem_of_filter in Hp as [Hon Hp].
    apply list_elem_of_filter. split; [done|].
    by apply remove_idle_op_nodes.
Qed.

Lemma remove_idle_true (qs : list Bit) (g : DAGCircuit) :
  (remove_idle h qs g true).2 = true.
Proof.
  revert g. induction qs as [|q qs IH]; intros g; cbn [remove_idle]; [done|].
  by destruct (idling h q g).
Qed.

Lemma remove_idle_false (qs : list Bit) (g : DAGCircuit) (r : bool) :
  (remove_idle h qs g r).2 = false → (remove_idle h qs g r).1 = g ∧ r = false.
Proof.
  revert g r. induction qs as [|q qs IH]; intros g r; cbn [remove_idle]; [done|].
  destruct (idling h q g); [|apply IH].
  by rewrite remove_idle_true.
Qed.


(** A graph on which every idle wire is already empty is left as it is;
    [removed] records whether some wire is idle. *)
Lemma remove_idle_fixpoint (qs : list Bit) (g : DAGCircuit) (r : bool) :
  (∀ q, q ∈ qs → idling h q g = true → nodes_on_wire q g = []) →
  remove_idle h qs g r = (g, r || existsb (λ q, idling h q g) qs).
Proof.
  revert r. induction qs as [|q qs IH]; intros r Hf; cbn [remove_idle existsb].
  - by rewrite orb_false_r.
  - destruct (idling h q g) eqn:Hi.
    + rewrite (Hf q) by (done || left). cbn [remove_all foldl].
      rewrite IH by (intros q' Hq'; apply Hf; by right).
      by rewrite orb_true_r.
    + rewrite IH by (intros q' Hq'; apply Hf; by right). done.
Qed.

(** When a delay sits on one lane only, a wire carrying an operation that
    is not a delay keeps all its nodes. *)
Lemma remove_idle_busy_wire (qs : list Bit) (g : DAGCircuit) (r : bool)
    (q : Bit) :
  (∀ p, p ∈ op_nodes g → is_Delay (h !!! op p.2) = true →
        length (node_bits p.2) = 1) →
  idling h q g = false →
  nodes_on_wire q (remove_idle h qs g r).1 = nodes_on_wire q g.
Proof.
  revert g r. induction qs as [|q0 qs IH]; intros g r Hone Hbusy;
    cbn [remove_idle]; [done|].
  destruct (idling h q0 g) eqn:Hi; [|by apply IH].
  assert (nodes_on_wire q (remove_all (nodes_on_wire q0 g) g)
          = nodes_on_wire q g) as Hsame.
  { rewrite nodes_on_wire_strip. apply filter_id. intros p Hp Hon0.
    unfold nodes_on_wire in Hp. apply list_elem_of_filter in Hp as [Hon Hp].
    assert (is_Delay (h !!! op p.2) = true) as Hd.
    { unfold idling in Hi. rewrite forallb_forall in Hi. apply Hi.
      apply list_elem_of_In. apply list_elem_of_filter. by split. }
    assert (q ≠ q0) as Hne by (intros ->; congruence).
    specialize (Hone p Hp Hd). unfold on_wire in Hon, Hon0.
    apply bool_decide_eq_true in Hon, Hon0.
    destruct (node_bits p.2) as [|b [|b' l]]; simpl in Hone; try lia.
    apply list_elem_of_singleton in Hon, Hon0. congruence. }
  rewrite IH.
  - done.
  - intros p Hp. apply Hone. rewrite op_nodes_strip in Hp.
    by apply list_elem_of_filter in Hp as [_ ?].
  - apply idling_false in Hbusy as (p & Hp & Hd). apply idling_false.
    exists p. rewrite Hsame. by split.
Qed.

Lemma py_sum_from_is_Some (acc : Z) (xs : list (option Z)) :
  (∀ x, x ∈ xs → is_Some x) → is_Some (py_sum_from acc xs).
Proof.
  revert acc. induction xs as [|[x|] r IH]; intros acc Hs; cbn [py_sum_from].
  - eauto.
  - apply IH. intros y Hy. apply Hs. by right.
  - destruct (Hs None) as [? [=]]. left.
Qed.

Lemma per_qubit_is_Some (q : Bit) (g : DAGCircuit) :
  (∀ p, p ∈ op_nodes g → is_Some (op_duration (h !!! op p.2))) →
  is_Some (per_qubit h q g).
Proof.
  intros Hs. apply py_sum_from_is_Some. intros x Hx.
  apply list_elem_of_fmap in Hx as (p & -> & Hp). apply Hs.
  unfold nodes_on_wire in Hp. by apply list_elem_of_filter in Hp as [_ ?].
Qed.

Lemma recompute_is_Some (qs : list Bit) (g : DAGCircuit) (c : Z) :
  (∀ p, p ∈ op_nodes g → is_Some (op_duration (h !!! op p.2))) →
  is_Some (recompute h qs g c).
Proof.
  intros Hs. revert c. induction qs as [|q qs IH]; intros c; cbn [recompute].
  - eauto.
  - destruct (per_qubit_is_Some q g Hs) as [s ->]. apply IH.
Qed.

(** The value computed by the second loop is the largest of the initial
    value and of the sums over the wires. *)
Lemma recompute_spec (qs : list Bit) (g : DAGCircuit) (c d : Z) :
  recompute h qs g c = Some d →
  (c ≤ d)%Z
  ∧ (∀ q, q ∈ qs → ∃ s, per_qubit h q g = Some s ∧ (s ≤ d)%Z)
  ∧ (d = c ∨ ∃ q, q ∈ qs ∧ per_qubit h q g = Some d).
Proof.
  revert c. induction qs as [|q qs IH]; intros c; cbn [recompute].
  - intros [= ->]. split; [lia|]. split; [|by left].
    by intros q ?%elem_of_nil.
  - destruct (per_qubit h q g) as [s|] eqn:Es; [|done]. intros Hr.
    destruct (IH _ Hr) as (H1 & H2 & H3). split; [lia|]. split.
    + intros q' [->|Hq']%elem_of_cons; [|by apply H2].
      exists s. split; [done|lia].
    + destruct H3 as [->|(q' & Hq' & Hs')].
      * destruct (Z.max_spec s c) as [[_ ->]|[_ ->]]; [by left|].
        right. exists q. split; [left|done].
      * right. exists q'. split; [by right|done].
Qed.

Lemma recompute_set_nodes_indep (qs : list Bit) (g g' : DAGCircuit) (c : Z) :
  nodes g' = nodes g → recompute h qs g' c = recompute h qs g c.
Proof.
  intros Hn. revert c. induction qs as [|q qs IH]; intros c; cbn [recompute];
    [done|].
  unfold per_qubit, nodes_on_wire, op_nodes. rewrite Hn.
  destruct (py_sum _); [apply IH|done].
Qed.

Lemma remove_idle_nodes_indep (qs : list Bit) (g : DAGCircuit) (r : bool) (d : Z) :
  remove_idle h qs (set_duration d g) r
  = ((set_duration d (remove_idle h qs g r).1), (remove_idle h qs g r).2).
Proof.
  revert g r. induction qs as [|q qs IH]; intros g r; cbn [remove_idle]; [done|].
  change (idling h q (set_duration d g)) with (idling h q g).
  change (nodes_on_wire q (set_duration d g)) with (nodes_on_wire q g).
  destruct (idling h q g); [|apply IH].
  rewrite <- IH. f_equal.
  unfold remove_all. generalize (nodes_on_wire q g). intros ps. revert g.
  induction ps as [|p ps IHp]; intros g; cbn [foldl]; [done|].
  by rewrite <- IHp.
Qed.

End RemoverLemmas.

Section RemoverRun.

Import RemoveDelaysOnIdleQubits.

Variable h : Store.

Lemma run_unscheduled (dag : DAGCircuit) :
  dag_duration dag = None →
  run h dag
  = (Some (TranspilerError
             "RemoveDelaysOnIdleQubits runs on scheduled circuits only"), dag).
Proof. unfold run. by intros ->. Qed.

Lemma run_scheduled (dag : DAGCircuit) (d0 : Z) :
  dag_duration dag = Some d0 →
  run h dag =
    let g := (remove_idle h (qubits dag) dag false).1 in
    if (remove_idle h (qubits dag) dag false).2 then
      match recompute h (qubits dag) g 0 with
      | None => (Some TypeError, g)
      | Some d => (None, set_duration d g)
      end
    else (None, g).
Proof.
  unfold run. intros ->.
  destruct (remove_idle_set_nodes h (qubits dag) dag false) as [ns Hns].
  destruct (remove_idle h (qubits dag) dag false) as [g r]. simpl in *.
  by rewrite Hns.
Qed.

Lemma run_nodes_on_wire (dag : DAGCircuit) (d0 : Z) (b : Bit) :
  dag_duration dag = Some d0 →
  nodes_on_wire b (run h dag).2
  = nodes_on_wire b (remove_idle h (qubits dag) dag false).1.
Proof.
  intros Hd. rewrite (run_scheduled dag d0 Hd). cbv zeta.
  destruct (remove_idle h (qubits dag) dag false).2; [|done].
  by destruct (recompute _ _ _ _).
Qed.

Lemma run_op_nodes (dag : DAGCircuit) (d0 : Z) :
  dag_duration dag = Some d0 →
  op_nodes (run h dag).2 = op_nodes (remove_idle h (qubits dag) dag false).1.
Proof.
  intros Hd. rewrite (run_scheduled dag d0 Hd). cbv zeta.
  destruct (remove_idle h (qubits dag) dag false).2; [|done].
  by destruct (recompute _ _ _ _).
Qed.

(** Once [removed] is set and every remaining operation has a duration,
    the pass returns with the recomputed duration. *)
Lemma run_recomputed (dag : DAGCircuit) (d0 : Z) :
  dag_duration dag = Some d0 →
  (∀ p, p ∈ op_nodes dag → is_Some (op_duration (h !!! op p.2))) →
  (remove_idle h (qubits dag) dag false).2 = true →
  (run h dag).1 = None
  ∧ ∃ d, dag_duration (run h dag).2 = Some d
         ∧ max_over_qubits h (run h dag).2 d.
Proof.
  intros Hd Hs Hr. rewrite (run_scheduled dag d0 Hd). cbv zeta. rewrite Hr.
  destruct (remove_idle_set_nodes h (qubits dag) dag false) as [ns Hns].
  set (g := (remove_idle h (qubits dag) dag false).1) in *.
  destruct (recompute_is_Some h (qubits dag) g 0) as [d Hrec].
  { intros p Hp. apply Hs. by apply remove_idle_op_nodes in Hp. }
  rewrite Hrec. cbn [fst snd]. split; [done|]. exists d. split; [done|].
  apply recompute_spec in Hrec as (H1 & H2 & H3).
  assert (qubits (set_duration d g) = qubits dag) as Hq by (by rewrite Hns).
  unfold max_over_qubits. rewrite Hq. done.
Qed.

End RemoverRun.

(* ================================================================== *)
(** * Properties of RemoveDelaysOnIdleQubits *)
(* ================================================================== *)

(** C6.  The pass raises [TranspilerError] (the precondition error) exactly
    when the duration of the input graph is [None], and in that case the
    graph object is left as it was: no node removed, no metadata changed. *)
Theorem remover_precondition_error (h : Store) (dag : DAGCircuit) :
  ((∃ msg, (RemoveDelaysOnIdleQubits.run h dag).1 = Some (TranspilerError msg))
   ↔ dag_duration dag = None)
  ∧ (dag_duration dag = None → (RemoveDelaysOnIdleQubits.run h dag).2 = dag).
Proof.
  split; [split|].
  - intros [msg Hm]. destruct (dag_duration dag) as [d0|] eqn:Hd; [|done].
    rewrite (run_scheduled h dag d0 Hd) in Hm. cbv zeta in Hm.
    destruct (RemoveDelaysOnIdleQubits.remove_idle h (qubits dag) dag false).2;
      [|done].
    by destruct (RemoveDelaysOnIdleQubits.recompute _ _ _ _).
  - intros Hd. rewrite (run_unscheduled h dag Hd). eauto.
  - intros Hd. by rewrite (run_unscheduled h dag Hd).
Qed.

Lemma remover_precondition_error_witness :
  dag_duration Examples.dag_unscheduled = None
  ∧ (RemoveDelaysOnIdleQubits.run Examples.store_H Examples.dag_unscheduled).2
    = Examples.dag_unscheduled.
Proof.
  split; [reflexivity|].
  apply (remover_precondition_error Examples.store_H Examples.dag_unscheduled).
  reflexivity.
Defined.

(** C7.  The pass is idempotent: run on the graph it has returned, it
    returns again, with the very same graph: no node removed, the nodes of
    every lane and the duration unchanged. *)
Theorem remover_idempotent (h : Store) (dag g1 : DAGCircuit) :
  RemoveDelaysOnIdleQubits.run h dag = (None, g1) →
  RemoveDelaysOnIdleQubits.run h g1 = (None, g1).
Proof.
  intros Hrun. destruct (dag_duration dag) as [d0|] eqn:Hd;
    [|by rewrite (run_unscheduled h dag Hd) in Hrun].
  rewrite (run_scheduled h dag d0 Hd) in Hrun. cbv zeta in Hrun.
  destruct (remove_idle_set_nodes h (qubits dag) dag false) as [ns Hns].
  pose proof (remove_idle_idle_empty h (qubits dag) dag false) as Hempty.
  pose proof (remove_idle_false h (qubits dag) dag false) as Hfalse.
  destruct (RemoveDelaysOnIdleQubits.remove_idle h (qubits dag) dag false)
    as [g r] eqn:Hloop.
  cbn [fst snd] in *. destruct r.
  - destruct (RemoveDelaysOnIdleQubits.recompute h (qubits dag) g 0)
      as [d|] eqn:Hrec; [|done].
    injection Hrun as <-.
    assert (qubits (RemoveDelaysOnIdleQubits.set_duration d g) = qubits dag) as Hq by (by rewrite Hns).
    rewrite (run_scheduled h (RemoveDelaysOnIdleQubits.set_duration d g) d eq_refl). cbv zeta.
    rewrite Hq, remove_idle_nodes_indep.
    rewrite (remove_idle_fixpoint h (qubits dag) g false) by done.
    cbn [fst snd orb].
    destruct (existsb _ _); [|done].
    rewrite (recompute_set_nodes_indep h (qubits dag) g (RemoveDelaysOnIdleQubits.set_duration d g))
      by done.
    by rewrite Hrec.
  - destruct Hfalse as [-> _]; [done|]. injection Hrun as <-.
    rewrite (run_scheduled h dag d0 Hd). cbv zeta. by rewrite Hloop.
Qed.

Lemma remover_idempotent_witness :
  let g1 := (RemoveDelaysOnIdleQubits.run Examples.store_D Examples.dag_D).2 in
  RemoveDelaysOnIdleQubits.run Examples.store_D Examples.dag_D = (None, g1)
  ∧ RemoveDelaysOnIdleQubits.run Examples.store_D g1 = (None, g1).
Proof.
  split; [reflexivity|].
  apply (remover_idempotent Examples.store_D Examples.dag_D). reflexivity.
Defined.

(** C4, as the code has it.  For every quantum lane of a scheduled graph:
    if every operation on the lane is a delay, the lane has no operation
    left after the pass; if the lane carries an operation that is not a
    delay, and delays sit on one lane each, the pass leaves the sequence of
    operations of that lane as it was.  Classical lanes are not visited. *)
Theorem remover_quantum_lanes (h : Store) (dag : DAGCircuit) (d0 : Z) (q : Bit) :
  dag_duration dag = Some d0 →
  q ∈ qubits dag →
  ((∀ p, p ∈ nodes_on_wire q dag → is_Delay (h !!! op p.2) = true) →
   nodes_on_wire q (RemoveDelaysOnIdleQubits.run h dag).2 = [])
  ∧ ((∃ p, p ∈ nodes_on_wire q dag ∧ is_Delay (h !!! op p.2) = false) →
     (∀ p, p ∈ op_nodes dag → is_Delay (h !!! op p.2) = true →
           length (node_bits p.2) = 1) →
     nodes_on_wire q (RemoveDelaysOnIdleQubits.run h dag).2
     = nodes_on_wire q dag).
Proof.
  intros Hd Hq. rewrite (run_nodes_on_wire h dag d0 q Hd). split.
  - intros Hall. apply remove_idle_idle_empty; [done|].
    unfold RemoveDelaysOnIdleQubits.idling. apply forallb_forall.
    intros p Hp. apply list_elem_of_In in Hp.
    apply remove_idle_on_wire in Hp. by apply Hall.
  - intros Hbusy Hone. apply remove_idle_busy_wire; [done|].
    by apply idling_false.
Qed.

Lemma remover_quantum_lanes_witness :
  nodes_on_wire (Examples.q 1)
    (RemoveDelaysOnIdleQubits.run Examples.store_D Examples.dag_D).2 = []
  ∧ nodes_on_wire (Examples.q 0)
      (RemoveDelaysOnIdleQubits.run Examples.store_D Examples.dag_D).2
    = nodes_on_wire (Examples.q 0) Examples.dag_D.
Proof.
  split.
  - apply (remover_quantum_lanes Examples.store_D Examples.dag_D 300
             (Examples.q 1)); [reflexivity | by vm_compute; right; left |].
    intros p Hp. vm_compute in Hp.
    apply list_elem_of_singleton in Hp as ->. reflexivity.
  - apply (remover_quantum_lanes Examples.store_D Examples.dag_D 300
             (Examples.q 0)); [reflexivity | by vm_compute; left | |].
    + exists (1, mkDAGNode 1 [Examples.q 0] [] None). split; [|reflexivity].
      vm_compute. right. left.
    + intros p Hp _. vm_compute in Hp.
      repeat (apply elem_of_cons in Hp as [->|Hp]; [reflexivity|]).
      by apply elem_of_nil in Hp.
Defined.

(** C4 as stated fails on a classical lane: in the scheduled graph of one
    gate on a circuit with a clbit, the lane of the clbit carries a padding
    delay and nothing else, and still carries it after the pass. *)
Lemma remover_classical_lane_counterexample :
  ASAPSchedule.run Examples.table None Examples.dag_H Examples.dt Examples.store_H
  = (inr Examples.dag_H_scheduled, Examples.store_H_scheduled)
  ∧ ¬ (∀ b, b ∈ lanes Examples.dag_H_scheduled →
         (∀ p, p ∈ nodes_on_wire b Examples.dag_H_scheduled →
               is_Delay (Examples.store_H_scheduled !!! op p.2) = true) →
         nodes_on_wire b
           (RemoveDelaysOnIdleQubits.run Examples.store_H_scheduled
              Examples.dag_H_scheduled).2 = []).
Proof.
  split; [by vm_compute|]. intros Hclaim.
  specialize (Hclaim (Examples.c 0)). 
  assert (nodes_on_wire (Examples.c 0)
           (RemoveDelaysOnIdleQubits.run Examples.store_H_scheduled
              Examples.dag_H_scheduled).2
          = [(1, mkDAGNode 1 [] [Examples.c 0] None)]) as Hrun
    by (by vm_compute).
  rewrite Hrun in Hclaim. discriminate Hclaim.
  - vm_compute. right. left.
  - intros p Hp. vm_compute in Hp. apply list_elem_of_singleton in Hp as ->.
    reflexivity.
Qed.






(* ================================================================== *)
(** * Lemmas on lanes *)
(* ================================================================== *)

Lemma chain_end_app (t : Z) (l1 l2 : list Placed) :
  chain_end t (l1 ++ l2) = chain_end t l1 ≫= λ e, chain_end e l2.
Proof.
  revert t. induction l1 as [|p r IH]; intros t; cbn [app chain_end]; [done|].
  destruct (op_duration (p_op p)) as [d|]; [|done].
  destruct (bool_decide _); [apply IH|done].
Qed.

Lemma chain_end_ge (t e : Z) (l : list Placed) :
  chain_end t l = Some e → (t ≤ e)%Z.
Proof.
  revert t. induction l as [|p r IH]; intros t; cbn [chain_end].
  - intros [= ->]. lia.
  - destruct (op_duration (p_op p)) as [d|]; [|done].
    destruct (bool_decide _) eqn:E; [|done].
    apply bool_decide_eq_true in E as [_ Hd]. intros H%IH. lia.
Qed.

Lemma chain_end_singleton (t d : Z) (p : Placed) :
  op_duration (p_op p) = Some d → p_start p = t → (0 ≤ d)%Z →
  chain_end t [p] = Some (t + d)%Z.
Proof.
  intros Hd Hs Hn. cbn [chain_end]. rewrite Hd.
  by rewrite bool_decide_eq_true_2.
Qed.

(** A lane that can be followed to its end is contiguous in the sense of
    consecutive operations, and ends with its last operation. *)
Lemma chain_end_lookup (t e : Z) (l : list Placed) :
  chain_end t l = Some e →
  (∀ p, l !! 0 = Some p → p_start p = t)
  ∧ (∀ i p p', l !! i = Some p → l !! S i = Some p' →
       ∃ d, op_duration (p_op p) = Some d ∧ (0 ≤ d)%Z
            ∧ p_start p' = (p_start p + d)%Z)
  ∧ (∀ p, last l = Some p → p_end p = Some e)
  ∧ (l = [] → e = t).
Proof.
  revert t. induction l as [|p r IH]; intros t; cbn [chain_end].
  - intros [= ->]. done.
  - destruct (op_duration (p_op p)) as [d|] eqn:Ed; [|done].
    destruct (bool_decide _) eqn:E; [|done].
    apply bool_decide_eq_true in E as [Hs Hd]. intros Hr.
    destruct (IH _ Hr) as (H0 & Hnext & Hlast & Hnil).
    split; [|split; [|split]].
    + by intros p0 [= <-].
    + intros [|i] p1 p2 H1 H2; simpl in H1, H2.
      * injection H1 as <-. exists d. split; [done|]. split; [done|].
        rewrite (H0 p2 H2). lia.
      * by apply (Hnext i).
    + intros p0. destruct r as [|p1 r'].
      * intros [= <-]. unfold p_end. rewrite Ed. simpl.
        specialize (Hnil eq_refl). subst e. by rewrite Hs.
      * rewrite last_cons_cons. apply Hlast.
    + done.
Qed.

Lemma chain_end_last_end (e : Z) (l : list Placed) :
  chain_end 0 l = Some e → last_end l = Some e.
Proof.
  intros H. apply chain_end_lookup in H as (_ & _ & Hlast & Hnil).
  unfold last_end. destruct (last l) as [p|] eqn:El; [by apply Hlast|].
  apply last_None in El. by rewrite Hnil.
Qed.

Lemma lane_view_app (h : Store) (g : DAGCircuit)
    (ns : list (option DAGNode)) (ts ts' : list Z) (b : Bit) :
  length ts = length (nodes g) →
  lane_view h (set_nodes (nodes g ++ ns) g) (ts ++ ts') b
  = lane_view h g ts b ++ omap (place h b) (zip ns ts').
Proof.
  intros Hl. unfold lane_view. cbn [set_nodes nodes].
  rewrite zip_with_app by done. by rewrite omap_app.
Qed.

Lemma omap_place_ext (h h' : Store) (b : Bit)
    (l : list (option DAGNode * Z)) :
  (∀ n, Some n ∈ l.*1 → h' !!! op n = h !!! op n) →
  omap (place h' b) l = omap (place h b) l.
Proof.
  induction l as [|[o t] r IH]; intros Hs; [done|].
  cbn [omap list_omap]. rewrite IH by (intros n Hn; apply Hs; by right).
  assert (place h' b (o, t) = place h b (o, t)) as ->; [|done].
  unfold place. cbn [fst snd]. destruct o as [n|]; [|done].
  rewrite (Hs n) by left. done.
Qed.

Lemma lane_view_ext (h h' : Store) (g : DAGCircuit) (ts : list Z) (b : Bit) :
  (∀ n, Some n ∈ nodes g → h' !!! op n = h !!! op n) →
  lane_view h' g ts b = lane_view h g ts b.
Proof.
  intros Hs. apply omap_place_ext. intros n Hn. apply Hs.
  apply list_elem_of_fmap in Hn as ([o t] & -> & Hin).
  apply elem_of_zip_l in Hin. done.
Qed.

Lemma place_delay_node (h : Store) (b b' : Bit) (t : Z) (r : ref) :
  place h b' (Some (mkDAGNode r (if is_Qubit b then [b] else [])
                              (if is_Clbit b then [b] else []) None), t)
  = if decide (b' = b)
    then Some (mkPlaced (if is_Qubit b then [b] else [])
                        (if is_Clbit b then [b] else []) None t (h !!! r))
    else None.
Proof.
  unfold place, on_wire, node_bits.
  cbn [fst snd qargs cargs condition op].
  destruct (decide (b' = b)) as [->|Hne].
  - rewrite bool_decide_eq_true_2; [done|]. destruct b; cbn; left.
  - rewrite bool_decide_eq_false_2; [done|].
    destruct b; cbn; by intros ?%list_elem_of_singleton.
Qed.

Lemma node_bits_delay_node (r : ref) (b : Bit) : node_bits (delay_node r b) = [b].
Proof. by destruct b. Qed.

(* ================================================================== *)
(** * Lemmas on ASAPSchedule *)
(* ================================================================== *)

Section PadLemmas.

Import ASAPSchedule.

Variables (until : Z) (u : option string).

Lemma pad_bit_spec (b : Bit) (s : Sched) :
  length (start_times s) = length (nodes (new_dag s)) →
  (∀ n, Some n ∈ nodes (new_dag s) → op n < length (store s)) →
  let s' := pad_bit until u b s in
  length (start_times s') = length (nodes (new_dag s'))
  ∧ (∀ n, Some n ∈ nodes (new_dag s') → op n < length (store s'))
  ∧ (∀ b', avail (bit_time_available s') b' = avail (bit_time_available s) b')
  ∧ dom (bit_time_available s') = {[b]} ∪ dom (bit_time_available s)
  ∧ (∃ ext, store s' = store s ++ ext)
  ∧ new_dag s' = set_nodes (nodes (new_dag s')) (new_dag s)
  ∧ (∀ b', lane_view (store s') (new_dag s') (start_times s') b'
           = lane_view (store s) (new_dag s) (start_times s) b'
             ++ padding until u (bit_time_available s) [b] b')
  ∧ (∀ n, Some n ∈ nodes (new_dag s') →
          Some n ∈ nodes (new_dag s) ∨ length (store s) ≤ op n)
  ∧ (∀ n, Some n ∈ nodes (new_dag s) → Some n ∈ nodes (new_dag s')).
Proof.
  intros Hlen Hrefs. destruct s as [h g m ts]. cbn [store new_dag
    bit_time_available start_times] in *. unfold pad_bit.
  cbn [store new_dag bit_time_available start_times].
  pose proof (avail_dd_get b b m) as [Ht _].
  pose proof (λ b', proj2 (avail_dd_get b b' m)) as Hav.
  pose proof (dom_dd_get b m) as Hdom.
  destruct (dd_get b m) as [t m'] eqn:Eg. cbn [fst snd] in *. subst t.
  assert (∀ b', padding until u m [b] b'
                = if decide (b' = b ∧ (avail m b < until)%Z)
                  then [delay_entry b (avail m b) (until - avail m b) u]
                  else []) as Hpad.
  { intros b'. unfold padding.
    destruct (decide (b' = b)) as [->|Hne].
    - destruct (decide (b ∈ [b] ∧ _)) as [[_ H1]|H1];
        destruct (decide (b = b ∧ _)) as [[_ H2]|H2]; try done.
      + exfalso. apply H2. done.
      + exfalso. apply H1. split; [left|done].
    - rewrite decide_False by (intros [?%list_elem_of_singleton _]; done).
      by rewrite decide_False by (intros [? _]; done). }
  destruct (avail m b <? until)%Z eqn:Elt.
  - apply Z.ltb_lt in Elt. unfold alloc, apply_operation_back.
    cbn [store new_dag bit_time_available start_times set_nodes nodes].
    split; [by rewrite !length_app, Hlen|].
    split.
    { intros n [Hn|Hn%list_elem_of_singleton]%elem_of_app;
        rewrite length_app; cbn [length].
      - apply Hrefs in Hn. lia.
      - injection Hn as ->. cbn [op]. lia. }
    split; [done|]. split; [done|]. split; [eauto|].
    split; [by destruct g|]. split.
    { intros b'.
      change (mkDAGCircuit (dag_name g) (qregs g) (cregs g)
                (nodes g ++ [Some (mkDAGNode (length h)
                   (if is_Qubit b then [b] else [])
                   (if is_Clbit b then [b] else []) None)])
                (dag_duration g) (dag_unit g))
        with (set_nodes (nodes g ++ [Some (delay_node (length h) b)]) g).
      rewrite lane_view_app by done. f_equal.
      - apply lane_view_ext. intros n Hn. apply lookup_total_app_l.
        by apply Hrefs.
      - rewrite Hpad. cbn [zip_with omap list_omap].
        rewrite place_delay_node.
        destruct (decide (b' = b)) as [->|Hne].
        + rewrite decide_True by done.
          rewrite list_lookup_total_middle by done. done.
        + by rewrite decide_False by (intros [? _]; done). }
    split.
    { intros n [Hn|Hn%list_elem_of_singleton]%elem_of_app; [by left|].
      injection Hn as ->. right. cbn [op]. lia. }
    intros n Hn. apply elem_of_app. by left.
  - apply Z.ltb_ge in Elt.
    split; [done|]. split; [done|]. split; [done|]. split; [done|].
    split; [exists []; by rewrite app_nil_r|].
    split; [by destruct g|]. split.
    { intros b'. rewrite Hpad.
      rewrite decide_False by (intros [_ ?]; lia). by rewrite app_nil_r. }
    split; [by left|done].
Qed.

Lemma pad_with_delays_spec (bits : list Bit) (s : Sched) :
  length (start_times s) = length (nodes (new_dag s)) →
  (∀ n, Some n ∈ nodes (new_dag s) → op n < length (store s)) →
  let s' := pad_with_delays bits until u s in
  length (start_times s') = length (nodes (new_dag s'))
  ∧ (∀ n, Some n ∈ nodes (new_dag s') → op n < length (store s'))
  ∧ (∀ b', avail (bit_time_available s') b' = avail (bit_time_available s) b')
  ∧ dom (bit_time_available s') = list_to_set bits ∪ dom (bit_time_available s)
  ∧ (∃ ext, store s' = store s ++ ext)
  ∧ new_dag s' = set_nodes (nodes (new_dag s')) (new_dag s)
  ∧ (NoDup bits →
     ∀ b', lane_view (store s') (new_dag s') (start_times s') b'
           = lane_view (store s) (new_dag s) (start_times s) b'
             ++ padding until u (bit_time_available s) bits b')
  ∧ (∀ n, Some n ∈ nodes (new_dag s') →
          Some n ∈ nodes (new_dag s) ∨ length (store s) ≤ op n)
  ∧ (∀ n, Some n ∈ nodes (new_dag s) → Some n ∈ nodes (new_dag s')).
Proof.
  revert s. induction bits as [|b r IH]; intros s Hlen Hrefs; cbn [pad_with_delays].
  - cbv zeta. split; [done|]. split; [done|]. split; [done|].
    split; [set_solver|]. split; [exists []; by rewrite app_nil_r|].
    split; [by rewrite set_nodes_id|]. split.
    { intros _ b'. unfold padding.
      rewrite decide_False by (intros [?%elem_of_nil _]; done).
      by rewrite app_nil_r. }
    split; [by left|done].
  - destruct (pad_bit_spec b s Hlen Hrefs)
      as (A1 & B1 & C1 & D1 & [e1 E1] & F1 & G1 & H1 & I1).
    destruct (IH (pad_bit until u b s) A1 B1)
      as (A2 & B2 & C2 & D2 & [e2 E2] & F2 & G2 & H2 & I2).
    cbv zeta. split; [done|]. split; [done|].
    split; [intros b'; by rewrite C2, C1|].
    split; [rewrite D2, D1; set_solver|].
    split; [exists (e1 ++ e2); by rewrite E2, E1, app_assoc|].
    split; [rewrite F2, F1 at 1; by rewrite set_nodes_set_nodes|].
    split.
    { intros [Hnin Hnd]%NoDup_cons b'. rewrite (G2 Hnd), G1, <- app_assoc.
      f_equal. unfold padding. rewrite !C1.
      destruct (decide (b' = b)) as [->|Hne].
      - rewrite (decide_False (P := b ∈ r ∧ _)) by (intros [? _]; done).
        rewrite app_nil_r.
        destruct (decide (b ∈ [b] ∧ _)) as [[_ X]|X];
          destruct (decide (b ∈ b :: r ∧ _)) as [[_ Y]|Y]; try done.
        + exfalso. apply Y. split; [left|done].
        + exfalso. apply X. split; [left|done].
      - rewrite (decide_False (P := b' ∈ [b] ∧ _))
          by (intros [?%list_elem_of_singleton _]; done).
        cbn [app].
        destruct (decide (b' ∈ r ∧ _)) as [[X1 X2]|X];
          destruct (decide (b' ∈ b :: r ∧ _)) as [[Y1 Y2]|Y]; try done.
        + exfalso. apply Y. split; [by right|done].
        + exfalso. apply X. apply elem_of_cons in Y1 as [?|?]; [done|].
          by split. }
    split.
    { intros n Hn. apply H2 in Hn as [Hn|Hn].
      - by apply H1.
      - right. rewrite E1, length_app in Hn. lia. }
    intros n Hn. by apply I2, I1.
Qed.

End PadLemmas.

Section ScheduleLemmas.

Import ASAPSchedule.

Variable durations : Instruction → list Bit → option string → option Z.

Lemma schedule_node_unfold (u : option string) (node : DAGNode) (s s' : Sched) :
  schedule_node durations u node s = inr s' →
  ∃ start d s1,
    py_max (map (avail (bit_time_available s)) (node_bits node)) = Some start
    ∧ s1 = pad_with_delays (node_bits node) start u
             (mkSched (store s) (new_dag s)
                (dd_get_all (node_bits node) (bit_time_available s)).2
                (start_times s))
    ∧ durations (store s1 !!! op node) (qargs node) u = Some d
    ∧ s' = mkSched (set_duration_unit (op node) d u (store s1))
             (set_nodes (nodes (new_dag s1) ++ [Some node]) (new_dag s1))
             (dd_set_all (node_bits node) (start + d) (bit_time_available s1))
             (start_times s1 ++ [start]).
Proof.
  unfold schedule_node.
  destruct (dd_get_all_spec (node_bits node) (bit_time_available s)) as (Hts & _).
  destruct (dd_get_all (node_bits node) (bit_time_available s)) as [ts m1].
  cbn [fst snd] in *. subst ts.
  destruct (py_max _) as [start|]; [|done].
  unfold apply_operation_back.
  destruct (durations _ _ _) as [d|] eqn:Ed; [|done].
  intros [= <-]. exists start, d. eexists. split; [done|]. split; [done|].
  split; [exact Ed|]. by destruct node.
Qed.

Lemma store_lookup_total (h h' : Store) (r : nat) :
  h' !! r = h !! r → h' !!! r = h !!! r.
Proof. intros H. by rewrite !list_lookup_total_alt, H. Qed.

Lemma set_duration_unit_other (r r' : ref) (d : Z) (u : option string) (h : Store) :
  r ≠ r' → set_duration_unit r d u h !! r' = h !! r'.
Proof. intros. unfold set_duration_unit. by apply list_lookup_insert_ne. Qed.

Lemma set_duration_unit_same (r : ref) (d : Z) (u : option string) (h : Store) :
  r < length h →
  set_duration_unit r d u h !!! r
  = mkInstruction (op_name (h !!! r)) (is_Delay (h !!! r)) (Some d) u.
Proof.
  intros. unfold set_duration_unit. by apply list_lookup_total_insert_eq.
Qed.

Lemma length_set_duration_unit (r : ref) (d : Z) (u : option string) (h : Store) :
  length (set_duration_unit r d u h) = length h.
Proof. unfold set_duration_unit. apply length_insert. Qed.

Lemma place_node (h : Store) (b : Bit) (n : DAGNode) (t : Z) :
  omap (place h b) (zip [Some n] [t])
  = if decide (b ∈ node_bits n)
    then [mkPlaced (qargs n) (cargs n) (condition n) t (h !!! op n)]
    else [].
Proof.
  cbn [zip_with omap list_omap]. unfold place, on_wire. cbn [fst snd].
  destruct (decide (b ∈ node_bits n)).
  - by rewrite bool_decide_eq_true_2.
  - by rewrite bool_decide_eq_false_2.
Qed.

Lemma chain_end_padding (until : Z) (u : option string) (m : gmap Bit Z)
    (bits : list Bit) (b : Bit) :
  b ∈ bits → (avail m b ≤ until)%Z →
  chain_end (avail m b) (padding until u m bits b) = Some until.
Proof.
  intros Hin Hle. unfold padding.
  destruct (decide (b ∈ bits ∧ _)) as [[_ Hlt]|Hn].
  - rewrite (chain_end_singleton _ (until - avail m b)); [f_equal; lia|done..|lia].
  - cbn [chain_end]. f_equal.
    destruct (decide (avail m b < until)%Z); [|lia]. exfalso. by apply Hn.
Qed.

Lemma padding_not_in (until : Z) (u : option string) (m : gmap Bit Z)
    (bits : list Bit) (b : Bit) :
  b ∉ bits → padding until u m bits b = [].
Proof. intros. unfold padding. by rewrite decide_False by (by intros [? _]). Qed.

(** One operation: the invariant is kept, and every lane gets the
    padding it needs and then the operation, placed at the largest
    availability of its lanes. *)
Lemma schedule_node_spec (h : Store) (u : option string) (g0 : DAGCircuit)
    (done : list DAGNode) (node : DAGNode) (s s' : Sched) :
  loop_inv durations h u g0 done s →
  op node < length h →
  op node ∉ op <$> done →
  NoDup (node_bits node) →
  schedule_node durations u node s = inr s' →
  ∃ start d,
    py_max (map (avail (bit_time_available s)) (node_bits node)) = Some start
    ∧ durations (h !!! op node) (qargs node) u = Some d
    ∧ loop_inv durations h u g0 (done ++ [node]) s'
    ∧ (∀ b, lane_view (store s') (new_dag s') (start_times s') b
            = lane_view (store s) (new_dag s) (start_times s) b
              ++ padding start u (bit_time_available s) (node_bits node) b
              ++ (if decide (b ∈ node_bits node)
                  then [op_entry node (h !!! op node) start d u] else []))
    ∧ (∀ b, avail (bit_time_available s') b
            = if decide (b ∈ node_bits node) then (start + d)%Z
              else avail (bit_time_available s) b).
Proof.
  intros [[Hlen Hrefs Hchain] Hgrow Hframe Hset Hnodes Hshared Hkeys Hregs]
         Hop Hfresh Hnd Hstep.
  apply schedule_node_unfold in Hstep as (start & d & s1 & Hmax & Hs1 & Hdur & ->).
  destruct (dd_get_all_spec (node_bits node) (bit_time_available s))
    as (_ & Hav0 & Hdom0).
  set (s0 := mkSched (store s) (new_dag s)
               (dd_get_all (node_bits node) (bit_time_available s)).2
               (start_times s)) in *.
  destruct (pad_with_delays_spec start u (node_bits node) s0 Hlen Hrefs)
    as (A & B & C & D & [ext E] & F & G & H & I).
  rewrite <- Hs1 in A, B, C, D, E, F, G, H, I. subst s0. cbn [store new_dag
    bit_time_available start_times] in *. specialize (G Hnd).
  assert (∀ b, avail (bit_time_available s1) b = avail (bit_time_available s) b)
    as Hav1 by (intros b; by rewrite C, Hav0).
  assert (∀ b, padding start u
                 (dd_get_all (node_bits node) (bit_time_available s)).2
                 (node_bits node) b
               = padding start u (bit_time_available s) (node_bits node) b)
    as Hpadeq by (intros b; unfold padding; by rewrite !Hav0).
  assert (op node < length (store s)) as Hop' by lia.
  assert (store s1 !!! op node = h !!! op node) as Hobj.
  { rewrite E, lookup_total_app_l by done. apply store_lookup_total.
    by apply Hframe. }
  rewrite Hobj in Hdur.
  assert (∀ n, Some n ∈ nodes (new_dag s1) → op n ≠ op node) as Hother.
  { intros n Hn Heq. apply H in Hn as [Hn|Hn]; [|lia].
    apply Hnodes in Hn as [Hn|Hn]; [|lia].
    apply Hfresh. rewrite <- Heq. by apply list_elem_of_fmap_2. }
  assert (∀ b, lane_view (set_duration_unit (op node) d u (store s1))
                 (set_nodes (nodes (new_dag s1) ++ [Some node]) (new_dag s1))
                 (start_times s1 ++ [start]) b
               = lane_view (store s) (new_dag s) (start_times s) b
                 ++ padding start u (bit_time_available s) (node_bits node) b
                 ++ (if decide (b ∈ node_bits node)
                     then [op_entry node (h !!! op node) start d u] else []))
    as Hlane.
  { intros b. rewrite lane_view_app by done. rewrite app_assoc. f_equal.
    - rewrite <- Hpadeq, <- G. apply lane_view_ext. intros n Hn.
      apply store_lookup_total, set_duration_unit_other.
      intros Heq. by apply (Hother n).
    - rewrite place_node. destruct (decide (b ∈ node_bits node)); [|done].
      rewrite set_duration_unit_same by (rewrite E, length_app; lia).
      by rewrite Hobj. }
  pose proof (py_max_Some _ _ Hmax) as [Hstart_in Hstart_ub].
  assert (∀ b, b ∈ node_bits node → (avail (bit_time_available s) b ≤ start)%Z)
    as Hub.
  { intros b Hb. apply Hstart_ub.
    apply list_elem_of_fmap. by exists b. }
  assert (∀ b, avail (dd_set_all (node_bits node) (start + d)
                        (bit_time_available s1)) b
               = if decide (b ∈ node_bits node) then (start + d)%Z
                 else avail (bit_time_available s) b) as Havail.
  { intros b. rewrite avail_dd_set_all. by rewrite Hav1. }
  exists start, d. split; [done|]. split; [done|].
  split; [|split; [exact Hlane | exact Havail]].
  split; cbn [store new_dag bit_time_available start_times set_nodes nodes].
  - split; cbn [store new_dag bit_time_available start_times set_nodes nodes].
    + rewrite !length_app. cbn [length]. lia.
    + intros n Hn. rewrite length_set_duration_unit.
      apply elem_of_app in Hn as [Hn|Hn%list_elem_of_singleton].
      * by apply B.
      * injection Hn as ->. rewrite E, length_app. lia.
    + intros Hnn b. rewrite Hlane, Havail, chain_end_app, (Hchain Hnn).
      cbn [mbind option_bind]. rewrite chain_end_app.
      destruct (decide (b ∈ node_bits node)) as [Hin|Hnin].
      * rewrite chain_end_padding by auto. cbn [mbind option_bind].
        apply chain_end_singleton; [done..|]. by eapply Hnn.
      * by rewrite padding_not_in.
  - rewrite length_set_duration_unit, E, length_app. lia.
  - intros r Hr Hnot. rewrite set_duration_unit_other.
    + rewrite E, lookup_app_l by lia. apply Hframe; [done|].
      intros Hin. apply Hnot. rewrite fmap_app. apply elem_of_app. by left.
    + intros <-. apply Hnot. rewrite fmap_app. apply elem_of_app. right.
      cbn. left.
  - intros n [Hn|Hn%list_elem_of_singleton]%elem_of_app.
    + destruct (Hset n Hn) as (dn & Hdn & Hobjn). exists dn. split; [done|].
      rewrite <- Hobjn. apply store_lookup_total.
      rewrite set_duration_unit_other.
      * rewrite E. apply lookup_app_l. by apply Hrefs, Hshared.
      * intros Heq. apply Hfresh. rewrite Heq. by apply list_elem_of_fmap_2.
    + subst n. exists d. split; [done|].
      rewrite set_duration_unit_same by (rewrite E, length_app; lia).
      by rewrite Hobj.
  - intros n [Hn|Hn%list_elem_of_singleton]%elem_of_app.
    + apply H in Hn as [Hn|Hn]; [|right; lia].
      apply Hnodes in Hn as [Hn|Hn]; [|by right].
      left. apply elem_of_app. by left.
    + injection Hn as ->. left. apply elem_of_app. right. left.
  - intros n [Hn|Hn%list_elem_of_singleton]%elem_of_app.
    + apply elem_of_app. left. by apply I, Hshared.
    + subst n. apply elem_of_app. right. left.
  - rewrite dom_dd_set_all, D, Hdom0, Hkeys.
    rewrite fmap_app, concat_app, list_to_set_app_L. cbn [fmap list_fmap concat].
    rewrite app_nil_r. set_solver.
  - rewrite F, Hregs. done.
Qed.

Lemma schedule_nodes_spec (h : Store) (u : option string) (g0 : DAGCircuit)
    (ns done : list DAGNode) (s s' : Sched) :
  loop_inv durations h u g0 done s →
  (∀ n, n ∈ ns → op n < length h) →
  NoDup (op <$> (done ++ ns)) →
  (∀ n, n ∈ ns → NoDup (node_bits n)) →
  schedule_nodes durations u ns s = inr s' →
  loop_inv durations h u g0 (done ++ ns) s'.
Proof.
  revert done s. induction ns as [|n ns IH]; intros done s Hinv Hrefs Hnd Hbits;
    cbn [schedule_nodes].
  - intros [= <-]. by rewrite app_nil_r.
  - destruct (schedule_node durations u n s) as [e|s1] eqn:Hstep; [done|].
    intros Hloop.
    assert (op n ∉ op <$> done) as Hfresh.
    { rewrite fmap_app, fmap_cons in Hnd.
      apply NoDup_app in Hnd as (_ & Hdisj & _). intros Hin.
      apply (Hdisj _ Hin). left. }
    assert (n ∈ n :: ns) as Hhd by left.
    destruct (schedule_node_spec h u g0 done n s s1 Hinv (Hrefs n Hhd) Hfresh
                (Hbits n Hhd) Hstep) as (start & d & _ & _ & Hinv1 & _).
    replace (done ++ n :: ns) with ((done ++ [n]) ++ ns)
      by (by rewrite <- app_assoc).
    apply (IH (done ++ [n]) s1); [done| | | |done].
    + intros n' Hn'. apply Hrefs. by right.
    + by rewrite <- app_assoc.
    + intros n' Hn'. apply Hbits. by right.
Qed.

Lemma init_sched_dag (dag : DAGCircuit) (h : Store) :
  new_dag (init_sched dag h)
  = mkDAGCircuit None (qregs dag) (cregs dag) [] None None.
Proof.
  unfold init_sched. cbn [new_dag].
  assert (∀ l g, foldl (λ g r, add_qreg r g) g l
                 = mkDAGCircuit (dag_name g) (qregs g ++ l) (cregs g) (nodes g)
                                (dag_duration g) (dag_unit g)) as Hq.
  { induction l as [|r l IHl]; intros g; cbn [foldl].
    - rewrite app_nil_r. by destruct g.
    - rewrite IHl. cbn. by rewrite <- app_assoc. }
  assert (∀ l g, foldl (λ g r, add_creg r g) g l
                 = mkDAGCircuit (dag_name g) (qregs g) (cregs g ++ l) (nodes g)
                                (dag_duration g) (dag_unit g)) as Hc.
  { induction l as [|r l IHl]; intros g; cbn [foldl].
    - rewrite app_nil_r. by destruct g.
    - rewrite IHl. cbn. by rewrite <- app_assoc. }
  by rewrite Hc, Hq.
Qed.

Lemma init_sched_inv (dag : DAGCircuit) (h : Store) (u : option string) :
  loop_inv durations h u (new_dag (init_sched dag h)) [] (init_sched dag h).
Proof.
  pose proof (init_sched_dag dag h) as Hg.
  split; [split|..].
  - by rewrite Hg.
  - rewrite Hg. by intros n ?%elem_of_nil.
  - intros _ b. unfold lane_view. by rewrite Hg.
  - done.
  - done.
  - by intros n ?%elem_of_nil.
  - rewrite Hg. by intros n ?%elem_of_nil.
  - by intros n ?%elem_of_nil.
  - cbn. by rewrite dom_empty_L.
  - by rewrite set_nodes_id.
Qed.

Lemma pad_with_delays_app (l1 l2 : list Bit) (until : Z) (u : option string)
    (s : Sched) :
  pad_with_delays (l1 ++ l2) until u s
  = pad_with_delays l2 until u (pad_with_delays l1 until u s).
Proof.
  revert s. induction l1 as [|b r IH]; intros s; cbn [app pad_with_delays];
    [done|apply IH].
Qed.

Lemma NoDup_register_bits (mk : string → nat → Bit) (regs : list (string * nat)) :
  (∀ r i r' i', mk r i = mk r' i' → r = r' ∧ i = i') →
  NoDup regs.*1 → NoDup (flat_map (register_bits mk) regs).
Proof.
  intros Hinj. induction regs as [|[r k] regs IH]; cbn [flat_map fmap list_fmap fst].
  - intros _. constructor.
  - intros [Hnin Hnd]%NoDup_cons. apply NoDup_app. split; [|split].
    + unfold register_bits. cbn [fst snd]. apply NoDup_fmap_2_strong.
      * intros i j _ _ Heq. by apply Hinj in Heq as [_ ?].
      * apply NoDup_seq.
    + intros b Hb Hb'. unfold register_bits in Hb. cbn [fst snd] in Hb.
      apply list_elem_of_fmap in Hb as (i & -> & _).
      apply list_elem_of_In, in_flat_map in Hb' as ([r' k'] & Hr' & Hb').
      unfold register_bits in Hb'. cbn [fst snd] in Hb'.
      apply list_elem_of_In, list_elem_of_fmap in Hb' as (j & Heq & _).
      apply Hinj in Heq as [-> _]. apply Hnin.
      apply list_elem_of_fmap. exists (r', k'). split; [done|].
      by apply list_elem_of_In.
    + by apply IH.
Qed.

Lemma NoDup_lanes (g : DAGCircuit) :
  NoDup (qregs g).*1 → NoDup (cregs g).*1 → NoDup (lanes g).
Proof.
  intros Hq Hc. unfold lanes, qubits, clbits. apply NoDup_app. split; [|split].
  - apply NoDup_register_bits; [|done]. by intros r i r' i' [= -> ->].
  - intros b Hb Hb'.
    apply list_elem_of_In, in_flat_map in Hb as (r & _ & Hb).
    apply list_elem_of_In, in_flat_map in Hb' as (r' & _ & Hb').
    unfold register_bits in Hb, Hb'.
    apply list_elem_of_In, list_elem_of_fmap in Hb as (i & -> & _).
    apply list_elem_of_In, list_elem_of_fmap in Hb' as (j & [=] & _).
  - apply NoDup_register_bits; [|done]. by intros r i r' i' [= -> ->].
Qed.

Lemma elem_of_values (m : gmap Bit Z) (x : Z) :
  x ∈ (map_to_list m).*2 ↔ ∃ b, m !! b = Some x.
Proof.
  rewrite list_elem_of_fmap. split.
  - intros ([b y] & -> & Hin). exists b. by apply elem_of_map_to_list.
  - intros (b & Hb). exists (b, x). split; [done|]. by apply elem_of_map_to_list.
Qed.

Lemma avail_lookup (m : gmap Bit Z) (b : Bit) (x : Z) :
  m !! b = Some x → avail m b = x.
Proof. unfold avail. by intros ->. Qed.

(** The closing part of [run]: every lane of the new graph is padded up
    to the largest availability of the time table. *)
Lemma finish_spec (h : Store) (u : option string) (g0 : DAGCircuit)
    (done : list DAGNode) (name : option string) (s sf : Sched) :
  durations_nonneg durations →
  loop_inv durations h u g0 done s →
  NoDup (lanes g0) →
  finish name u s = inr sf →
  ∃ cd,
    new_dag sf = mkDAGCircuit name (qregs g0) (cregs g0) (nodes (new_dag sf))
                              (Some cd) u
    ∧ (∀ b, b ∈ dom (bit_time_available s) →
            (avail (bit_time_available s) b ≤ cd)%Z)
    ∧ (∃ b, b ∈ dom (bit_time_available s) ∧ avail (bit_time_available s) b = cd)
    ∧ (∀ b, lane_view (store sf) (new_dag sf) (start_times sf) b
            = lane_view (store s) (new_dag s) (start_times s) b
              ++ padding cd u (bit_time_available s) (lanes g0) b)
    ∧ (∀ b, chain_end 0 (lane_view (store sf) (new_dag sf) (start_times sf) b)
            = Some (if decide (b ∈ lanes g0) then cd
                    else avail (bit_time_available s) b))
    ∧ (∃ ext, store sf = store s ++ ext)
    ∧ (∀ n, Some n ∈ nodes (new_dag s) → Some n ∈ nodes (new_dag sf)).
Proof.
  intros Hnn [[Hlen Hrefs Hchain] Hgrow Hframe Hset Hnodes Hshared Hkeys Hregs]
         Hnd. specialize (Hchain Hnn). unfold finish.
  destruct (py_max _) as [cd|] eqn:Hmax; [|done].
  apply py_max_Some in Hmax as [Hin Hub].
  assert (qubits (new_dag s) = qubits g0) as -> by (by rewrite Hregs).
  destruct (pad_with_delays_spec cd u (qubits g0) s Hlen Hrefs)
    as (_ & _ & _ & _ & _ & F1 & _).
  assert (clbits (new_dag (pad_with_delays (qubits g0) cd u s)) = clbits g0)
    as -> by (by rewrite F1, Hregs).
  rewrite <- pad_with_delays_app. fold (lanes g0).
  destruct (pad_with_delays_spec cd u (lanes g0) s Hlen Hrefs)
    as (A & B & C & D & E & F & G & H & I). specialize (G Hnd).
  set (s2 := pad_with_delays (lanes g0) cd u s) in *.
  intros [= <-]. cbn [store new_dag bit_time_available start_times nodes].
  assert (∀ b, b ∈ dom (bit_time_available s) →
               (avail (bit_time_available s) b ≤ cd)%Z) as Hle.
  { intros b [x Hx]%elem_of_dom. rewrite (avail_lookup _ _ _ Hx).
    apply Hub, elem_of_values. eauto. }
  assert (∃ b, b ∈ dom (bit_time_available s)
               ∧ avail (bit_time_available s) b = cd) as Hex.
  { apply elem_of_values in Hin as [b Hb]. exists b. split.
    - apply elem_of_dom. eauto.
    - by apply avail_lookup. }
  assert (0 ≤ cd)%Z as Hcd.
  { destruct Hex as (b & _ & <-). by apply (chain_end_ge _ _ _ (Hchain b)). }
  exists cd. split.
  { rewrite F, Hregs. done. }
  split; [done|]. split; [done|]. split; [exact G|]. split; [|by split].
  intros b.
  change (lane_view (store s2)
            (mkDAGCircuit name (qregs (new_dag s2)) (cregs (new_dag s2))
               (nodes (new_dag s2)) (Some cd) u) (start_times s2) b)
    with (lane_view (store s2) (new_dag s2) (start_times s2) b).
  rewrite G, chain_end_app, Hchain. cbn [mbind option_bind].
  destruct (decide (b ∈ lanes g0)) as [Hb|Hb].
  - apply chain_end_padding; [done|].
    destruct (bit_time_available s !! b) as [x|] eqn:Hx.
    + apply Hle, elem_of_dom. eauto.
    + unfold avail. by rewrite Hx.
  - by rewrite padding_not_in.
Qed.

Section Schedule.

Variable property_set_time_unit : option string.

(** The whole of [run] on a well-formed input, when it returns. *)
Lemma schedule_spec (dag : DAGCircuit) (time_unit : option string)
    (h : Store) (sf : Sched) :
  well_formed h dag →
  schedule durations property_set_time_unit dag time_unit h = inr sf →
  let u := resolve_unit property_set_time_unit time_unit in
  let g0 := new_dag (init_sched dag h) in
  ∃ s1,
    schedule_nodes durations u (topological_op_nodes dag) (init_sched dag h)
    = inr s1
    ∧ loop_inv durations h u g0 (topological_op_nodes dag) s1
    ∧ finish (dag_name dag) u s1 = inr sf
    ∧ NoDup (lanes g0)
    ∧ lanes g0 = lanes dag.
Proof.
  intros [Hcregs Hrefs Hunshared Hoperands Hlanes]. unfold schedule.
  destruct (bool_decide (length (qregs dag) ≠ 1)) eqn:Hq; [done|].
  apply bool_decide_eq_false in Hq. apply dec_stable in Hq.
  cbn [orb]. destruct (bool_decide _); [done|].
  destruct (schedule_nodes _ _ _ _) as [e|s1] eqn:Hloop; [done|].
  intros Hfin. cbv zeta. exists s1. split; [done|].
  split.
  { apply (schedule_nodes_spec h _ _ (topological_op_nodes dag) [] (init_sched dag h));
      [apply init_sched_inv|done..]. }
  split; [done|].
  assert (lanes (new_dag (init_sched dag h)) = lanes dag) as Hl
    by (by rewrite init_sched_dag).
  split; [|done]. rewrite Hl. apply NoDup_lanes; [|done].
  destruct (qregs dag) as [|r [|r' l]]; cbn in Hq; try lia.
  cbn. apply NoDup_singleton.
Qed.

End Schedule.

End ScheduleLemmas.

Lemma finish_store (name u : option string) (s sf : ASAPSchedule.Sched) :
  length (ASAPSchedule.start_times s) = length (nodes (ASAPSchedule.new_dag s)) →
  (∀ n, Some n ∈ nodes (ASAPSchedule.new_dag s) →
        op n < length (ASAPSchedule.store s)) →
  ASAPSchedule.finish name u s = inr sf →
  (∃ ext, ASAPSchedule.store sf = ASAPSchedule.store s ++ ext)
  ∧ (∀ n, Some n ∈ nodes (ASAPSchedule.new_dag s) →
          Some n ∈ nodes (ASAPSchedule.new_dag sf)).
Proof.
  intros Hlen Hrefs. unfold ASAPSchedule.finish.
  destruct (py_max _) as [cd|]; [|done].
  destruct (pad_with_delays_spec cd u (qubits (ASAPSchedule.new_dag s)) s Hlen Hrefs)
    as (A1 & B1 & _ & _ & [e1 E1] & _ & _ & _ & I1).
  set (s1 := ASAPSchedule.pad_with_delays _ cd u s) in *.
  destruct (pad_with_delays_spec cd u (clbits (ASAPSchedule.new_dag s1)) s1 A1 B1)
    as (_ & _ & _ & _ & [e2 E2] & _ & _ & _ & I2).
  intros [= <-]. cbn [ASAPSchedule.store ASAPSchedule.new_dag nodes]. split.
  - exists (e1 ++ e2). by rewrite E2, E1, app_assoc.
  - intros n Hn. by apply I2, I1.
Qed.

Lemma well_formed_split (h : Store) (dag : DAGCircuit)
    (pre post : list DAGNode) (node : DAGNode) :
  well_formed h dag →
  topological_op_nodes dag = pre ++ node :: post →
  (∀ n, n ∈ pre → op n < length h)
  ∧ NoDup (op <$> pre)
  ∧ (∀ n, n ∈ pre → NoDup (node_bits n))
  ∧ op node < length h
  ∧ (op node ∉ op <$> pre)
  ∧ NoDup (node_bits node).
Proof.
  intros [_ Hrefs Hunshared Hoperands _] Hsplit. rewrite Hsplit in *.
  rewrite fmap_app, fmap_cons in Hunshared.
  apply NoDup_app in Hunshared as (Hpre & Hdisj & _).
  split; [intros n Hn; apply Hrefs, elem_of_app; by left|].
  split; [done|].
  split; [intros n Hn; apply Hoperands, elem_of_app; by left|].
  split; [apply Hrefs, elem_of_app; right; left|].
  split; [intros Hin; apply (Hdisj _ Hin); left|].
  apply Hoperands, elem_of_app. right. left.
Qed.

(* ================================================================== *)
(** * The object store along a run, shared objects included *)
(* ================================================================== *)



Section StoreInvariant.

Import ASAPSchedule.

Variable durations : Instruction → list Bit → option string → option Z.
Variables (h : Store) (u : option string).




End StoreInvariant.

(* ================================================================== *)
(** * Properties of ASAPSchedule *)
(* ================================================================== *)


Lemma Examples_table_nonneg : durations_nonneg Examples.table.
Proof.
  intros o qs u d. unfold Examples.table.
  destruct (is_Delay o) eqn:Hd.
  - destruct (op_duration o) as [d'|]; [|done].
    destruct (0 <=? d')%Z eqn:E; [|done]. intros [= <-]. by apply Z.leb_le.
  - repeat (destruct (String.eqb _ _); [intros [= <-]; lia|]). done.
Qed.

Lemma well_formed_A : well_formed Examples.store_A Examples.dag_A.
Proof.
  split.
  - constructor.
  - intros n Hn. vm_compute in Hn.
    repeat (apply elem_of_cons in Hn as [->|Hn]; [cbn; lia|]).
    by apply elem_of_nil in Hn.
  - vm_compute. repeat (constructor; [set_solver|]). constructor.
  - intros n Hn. vm_compute in Hn.
    repeat (apply elem_of_cons in Hn as [->|Hn];
            [vm_compute; repeat (constructor; [set_solver|]); constructor|]).
    by apply elem_of_nil in Hn.
  - intros n b Hn Hb. vm_compute in Hn.
    repeat (apply elem_of_cons in Hn as [->|Hn];
            [vm_compute in Hb; vm_compute; set_solver|]).
    by apply elem_of_nil in Hn.
Qed.


(** C9.  On a graph that satisfies the precondition (one quantum
    register, named q) and has no operation node, the pass does not
    return a graph: the maximum over the empty time table raises
    [ValueError], the store being as it was. *)
Theorem asap_empty_graph_fails
    (durations : Instruction → list Bit → option string → option Z)
    (property_set_time_unit time_unit : option string)
    (dag : DAGCircuit) (h : Store) :
  length (qregs dag) = 1 →
  list_to_map (M := gmap string nat) (qregs dag) !! "q" ≠ None →
  topological_op_nodes dag = [] →
  ASAPSchedule.run durations property_set_time_unit dag time_unit h
  = (inl ValueError, h).
Proof.
  intros Hone Hq Hnone. unfold ASAPSchedule.run, ASAPSchedule.schedule.
  rewrite bool_decide_eq_false_2 by (intros ?; done).
  rewrite bool_decide_eq_false_2 by done. cbn [orb]. rewrite Hnone.
  cbn [ASAPSchedule.schedule_nodes]. unfold ASAPSchedule.finish.
  cbn [ASAPSchedule.init_sched ASAPSchedule.bit_time_available
       ASAPSchedule.store].
  by rewrite map_to_list_empty.
Qed.

Lemma asap_empty_graph_fails_witness :
  ASAPSchedule.run Examples.table None Examples.dag_empty Examples.dt
    Examples.store_A
  = (inl ValueError, Examples.store_A).
Proof.
  apply asap_empty_graph_fails; [reflexivity | by vm_compute | reflexivity].
Defined.




Lemma elem_of_concat_bits (ns : list DAGNode) (b : Bit) :
  b ∈ concat (node_bits <$> ns) ↔ ∃ n, n ∈ ns ∧ b ∈ node_bits n.
Proof.
  induction ns as [|n ns IH]; cbn [fmap list_fmap concat].
  - rewrite elem_of_nil. split; [done|]. by intros (n & ?%elem_of_nil & _).
  - rewrite elem_of_app, IH. split.
    + intros [Hb|(n' & Hn' & Hb)].
      * exists n. split; [left|done].
      * exists n'. split; [by right|done].
    + intros (n' & [->|Hn']%elem_of_cons & Hb); [by left|].
      right. by exists n'.
Qed.

Lemma py_max_const (xs : list Z) (c : Z) :
  c ∈ xs → (∀ x, x ∈ xs → x = c) → py_max xs = Some c.
Proof.
  intros Hin Hall. destruct (py_max_is_Some xs) as [m Hm].
  { intros ->. by apply elem_of_nil in Hin. }
  rewrite Hm. f_equal. apply py_max_Some in Hm as [Hm _]. by apply Hall.
Qed.

Lemma chain_end_start_ge (t e : Z) (l : list Placed) (j : nat) (p : Placed) :
  chain_end t l = Some e → l !! j = Some p → (t ≤ p_start p)%Z.
Proof.
  revert t j. induction l as [|p0 r IH]; intros t j; cbn [chain_end]; [done|].
  destruct (op_duration (p_op p0)) as [d|]; [|done].
  destruct (bool_decide _) eqn:E; [|done].
  apply bool_decide_eq_true in E as [Hs Hd]. intros Hr.
  destruct j as [|j]; cbn.
  - intros [= <-]. lia.
  - intros Hj. specialize (IH _ _ Hr Hj). lia.
Qed.

Lemma chain_end_no_overlap (t e : Z) (l : list Placed) (i j : nat)
    (p p' : Placed) :
  chain_end t l = Some e → i < j → l !! i = Some p → l !! j = Some p' →
  ∃ d, op_duration (p_op p) = Some d ∧ (p_start p + d ≤ p_start p')%Z.
Proof.
  revert t i j. induction l as [|p0 r IH]; intros t i j; cbn [chain_end]; [done|].
  destruct (op_duration (p_op p0)) as [d|] eqn:Ed; [|done].
  destruct (bool_decide _) eqn:E; [|done].
  apply bool_decide_eq_true in E as [Hs Hd]. intros Hr Hij.
  destruct j as [|j]; [lia|]. destruct i as [|i]; cbn.
  - intros [= <-] Hj. exists d. split; [done|].
    pose proof (chain_end_start_ge _ _ _ _ _ Hr Hj). lia.
  - intros Hi Hj. apply (IH _ i j Hr); [lia|done..].
Qed.

Lemma table_by_qubit_nonneg : durations_nonneg SharedExamples.table_by_qubit.
Proof.
  intros o qs u d. unfold SharedExamples.table_by_qubit.
  destruct (String.eqb _ _); [intros [= <-]; lia|].
  destruct (bool_decide _); intros [= <-]; lia.
Qed.

(** On floats a padded lane need not end where it is padded to: a lane
    free at 0.3 and padded until 0.9 gets a delay of 0.9 - 0.3, and
    0.3 + (0.9 - 0.3) is above 0.9. *)
Remark seconds_padding_overshoots :
  PrimFloat.ltb Seconds.pad_until
    (Seconds.padded_end Seconds.pad_until Seconds.free_at) = true.
Proof. reflexivity. Qed.

(** C3 as stated fails when two nodes hold one instruction object.  With
    the unit ['dt'] and the table by qubit, x on q0 is placed at 0 and
    given the duration 3, then the same object on q1 is given the
    duration 5; q0, free at 3, is padded from 3 to the circuit duration 5.
    Lane q0 of the returned graph: x at 0, now lasting 5, then the delay
    at 3.  The delay does not start at 0 + 5. *)
Lemma asap_shared_object_gap_counterexample :
  let sf := SharedExamples.scheduled SharedExamples.dag_S
              SharedExamples.store_S in
  let lane := lane_view (ASAPSchedule.store sf) (ASAPSchedule.new_dag sf)
                (ASAPSchedule.start_times sf) (Examples.q 0) in
  ASAPSchedule.run SharedExamples.table_by_qubit None
    SharedExamples.dag_S Examples.dt SharedExamples.store_S
  = (inr (ASAPSchedule.new_dag sf), ASAPSchedule.store sf)
  ∧ lane = [mkPlaced [Examples.q 0] [] None 0
              (mkInstruction "x" false (Some 5%Z) Examples.dt);
            delay_entry (Examples.q 0) 3 2 Examples.dt]
  ∧ ¬ (∀ i p p', lane !! i = Some p → lane !! S i = Some p' →
         ∃ d, op_duration (p_op p) = Some d
              ∧ p_start p' = (p_start p + d)%Z).
Proof.
  intros sf lane.
  assert (lane = [mkPlaced [Examples.q 0] [] None 0
                    (mkInstruction "x" false (Some 5%Z) Examples.dt);
                  delay_entry (Examples.q 0) 3 2 Examples.dt]) as Hlane
    by (vm_compute; reflexivity).
  split; [vm_compute; reflexivity|]. split; [exact Hlane|].
  rewrite Hlane. intros Hclaim.
  destruct (Hclaim 0 _ _ eq_refl eq_refl) as (d & Hd & Hstart).
  cbn in Hd, Hstart. injection Hd as <-. discriminate Hstart.
Qed.

(** C3, as the code has it.  With the time unit ['dt'], in which times
    and durations are integers, and a duration table without negative
    durations: in the graph returned on a well-formed input, where in
    particular no two nodes hold the same instruction object, every lane
    is contiguous and without overlap: the first operation of the lane
    starts at 0, each next one starts where the one before it ends (its
    start plus its duration), and an operation ends before any later one
    starts. *)
Theorem asap_lanes_contiguous
    (durations : Instruction → list Bit → option string → option Z)
    (property_set_time_unit time_unit : option string)
    (dag : DAGCircuit) (h : Store) (sf : ASAPSchedule.Sched) :
  ASAPSchedule.resolve_unit property_set_time_unit time_unit = Some "dt" →
  durations_nonneg durations →
  well_formed h dag →
  ASAPSchedule.schedule durations property_set_time_unit dag time_unit h
  = inr sf →
  ASAPSchedule.run durations property_set_time_unit dag time_unit h
  = (inr (ASAPSchedule.new_dag sf), ASAPSchedule.store sf)
  ∧ ∀ b,
      let lane := lane_view (ASAPSchedule.store sf) (ASAPSchedule.new_dag sf)
                    (ASAPSchedule.start_times sf) b in
      (∀ p, lane !! 0 = Some p → p_start p = 0%Z)
      ∧ (∀ i p p', lane !! i = Some p → lane !! S i = Some p' →
           ∃ d, op_duration (p_op p) = Some d ∧ (0 ≤ d)%Z
                ∧ p_start p' = (p_start p + d)%Z)
      ∧ (∀ i j p p', i < j → lane !! i = Some p → lane !! j = Some p' →
           ∃ d, op_duration (p_op p) = Some d
                ∧ (p_start p + d ≤ p_start p')%Z).
Proof.
  intros _ Hnn Hwf Hsched. split; [unfold ASAPSchedule.run; by rewrite Hsched|].
  destruct (schedule_spec durations property_set_time_unit dag time_unit h sf
              Hwf Hsched) as (s1 & _ & Hinv & Hfin & Hnd & _).
  destruct (finish_spec durations _ _ _ _ _ _ _ Hnn Hinv Hnd Hfin)
    as (cd & _ & _ & _ & _ & Hchain & _).
  intros b lane. specialize (Hchain b). fold lane in Hchain.
  destruct (chain_end_lookup _ _ _ Hchain) as (H0 & Hnext & _ & _).
  split; [done|]. split; [done|].
  intros i j p p'. by apply chain_end_no_overlap with (1 := Hchain).
Qed.

Lemma asap_lanes_contiguous_witness :
  ∃ sf,
    ASAPSchedule.schedule Examples.table None Examples.dag_A Examples.dt
      Examples.store_A = inr sf
    ∧ ASAPSchedule.run Examples.table None Examples.dag_A Examples.dt
        Examples.store_A
      = (inr (ASAPSchedule.new_dag sf), ASAPSchedule.store sf)
    ∧ ∀ b,
        let lane := lane_view (ASAPSchedule.store sf) (ASAPSchedule.new_dag sf)
                      (ASAPSchedule.start_times sf) b in
        (∀ p, lane !! 0 = Some p → p_start p = 0%Z)
        ∧ (∀ i p p', lane !! i = Some p → lane !! S i = Some p' →
             ∃ d, op_duration (p_op p) = Some d ∧ (0 ≤ d)%Z
                  ∧ p_start p' = (p_start p + d)%Z)
        ∧ (∀ i j p p', i < j → lane !! i = Some p → lane !! j = Some p' →
             ∃ d, op_duration (p_op p) = Some d
                  ∧ (p_start p + d ≤ p_start p')%Z).
Proof.
  eexists. split; [by vm_compute|].
  apply (asap_lanes_contiguous Examples.table None Examples.dt Examples.dag_A
           Examples.store_A).
  - reflexivity.
  - apply Examples_table_nonneg.
  - apply well_formed_A.
  - by vm_compute.
Defined.

(** C2 as stated fails when two nodes hold one instruction object.  With
    the unit ['dt'] and the table by qubit, y on q0 lasts until 10, x on
    q0 is placed at 10 and given the duration 3, then the same object on
    q1 is placed at 0 and given the duration 5.  The recorded duration is
    13, the availability of q0; but the last operation of lane q0, x at
    10, now lasts 5 and ends at 15, and 15 is the maximum over the
    lanes. *)
Lemma asap_shared_object_duration_counterexample :
  let sf := SharedExamples.scheduled SharedExamples.dag_S3
              SharedExamples.store_S3 in
  let g := ASAPSchedule.new_dag sf in
  let lane := lane_view (ASAPSchedule.store sf) g
                (ASAPSchedule.start_times sf) in
  ASAPSchedule.run SharedExamples.table_by_qubit None
    SharedExamples.dag_S3 Examples.dt SharedExamples.store_S3
  = (inr g, ASAPSchedule.store sf)
  ∧ dag_duration g = Some 13%Z
  ∧ lane (Examples.q 0)
    = [mkPlaced [Examples.q 0] [] None 0
         (mkInstruction "y" false (Some 10%Z) Examples.dt);
       mkPlaced [Examples.q 0] [] None 10
         (mkInstruction "x" false (Some 5%Z) Examples.dt)]
  ∧ last_end (lane (Examples.q 0)) = Some 15%Z
  ∧ py_max (omap (λ b, last_end (lane b)) (lanes g)) = Some 15%Z.
Proof.
  intros sf g lane.
  do 4 (split; [vm_compute; reflexivity|]). vm_compute. reflexivity.
Qed.

(** C2, as the code has it.  With the time unit ['dt'], in which times
    and durations are integers, and a duration table without negative
    durations: in the graph returned on a well-formed input, where in
    particular no two nodes hold the same instruction object, the
    recorded duration is the largest availability, at the end of the
    loop, over the lanes touched by the operations; after the closing
    padding every lane of the graph, touched or not, ends exactly at that
    duration; and so the recorded duration is the maximum over all lanes
    of the end time of the last operation of the lane. *)
Theorem asap_total_duration
    (durations : Instruction → list Bit → option string → option Z)
    (property_set_time_unit time_unit : option string)
    (dag : DAGCircuit) (h : Store) (sf : ASAPSchedule.Sched) :
  let u := ASAPSchedule.resolve_unit property_set_time_unit time_unit in
  u = Some "dt" →
  durations_nonneg durations →
  well_formed h dag →
  ASAPSchedule.schedule durations property_set_time_unit dag time_unit h
  = inr sf →
  let g := ASAPSchedule.new_dag sf in
  let lane := lane_view (ASAPSchedule.store sf) g (ASAPSchedule.start_times sf) in
  ASAPSchedule.run durations property_set_time_unit dag time_unit h
  = (inr g, ASAPSchedule.store sf)
  ∧ ∃ cd s1,
      dag_duration g = Some cd
      ∧ ASAPSchedule.schedule_nodes durations u (topological_op_nodes dag)
          (ASAPSchedule.init_sched dag h) = inr s1
      ∧ (∀ n b, n ∈ topological_op_nodes dag → b ∈ node_bits n →
                (avail (ASAPSchedule.bit_time_available s1) b ≤ cd)%Z)
      ∧ (∃ n b, n ∈ topological_op_nodes dag ∧ b ∈ node_bits n
                ∧ avail (ASAPSchedule.bit_time_available s1) b = cd)
      ∧ (∀ b, b ∈ lanes g → last_end (lane b) = Some cd)
      ∧ py_max (omap (λ b, last_end (lane b)) (lanes g)) = Some cd.
Proof.
  intros u _ Hnn Hwf Hsched g lane.
  split; [unfold ASAPSchedule.run; by rewrite Hsched|].
  destruct (schedule_spec durations property_set_time_unit dag time_unit h sf
              Hwf Hsched) as (s1 & Hloop & Hinv & Hfin & Hnd & Hlanes).
  destruct (finish_spec durations _ _ _ _ _ _ _ Hnn Hinv Hnd Hfin)
    as (cd & Hg & Hle & (b0 & Hb0 & Hcd) & _ & Hchain & _).
  pose proof (li_keys _ _ _ _ _ _ Hinv) as Hkeys.
  assert (∀ b, b ∈ dom (ASAPSchedule.bit_time_available s1)
               ↔ ∃ n, n ∈ topological_op_nodes dag ∧ b ∈ node_bits n) as Hdom.
  { intros b. rewrite Hkeys, elem_of_list_to_set. apply elem_of_concat_bits. }
  assert (lanes g = lanes dag) as Hlg.
  { rewrite <- Hlanes. unfold g. rewrite Hg. done. }
  assert (∀ b, b ∈ lanes g → last_end (lane b) = Some cd) as Hend.
  { intros b Hb. apply chain_end_last_end. unfold lane. rewrite Hchain.
    rewrite decide_True; [done|]. by rewrite Hlanes, <- Hlg. }
  exists cd, s1. split; [unfold g; by rewrite Hg|]. split; [done|].
  split; [intros n b Hn Hb; apply Hle, Hdom; eauto|].
  apply Hdom in Hb0 as (n0 & Hn0 & Hbn0).
  split; [by exists n0, b0|]. split; [done|].
  assert (b0 ∈ lanes g) as Hb0l.
  { rewrite Hlg. by apply (wf_lanes _ _ Hwf n0). }
  apply py_max_const.
  - apply list_elem_of_omap. exists b0. split; [done|by apply Hend].
  - intros x (b & Hb & Hx)%list_elem_of_omap. rewrite (Hend b Hb) in Hx.
    by injection Hx.
Qed.

Lemma asap_total_duration_witness :
  ∃ sf,
    ASAPSchedule.schedule Examples.table None Examples.dag_A Examples.dt
      Examples.store_A = inr sf
    ∧ ASAPSchedule.run Examples.table None Examples.dag_A Examples.dt
        Examples.store_A
      = (inr (ASAPSchedule.new_dag sf), ASAPSchedule.store sf)
    ∧ ∃ cd s1,
        dag_duration (ASAPSchedule.new_dag sf) = Some cd
        ∧ ASAPSchedule.schedule_nodes Examples.table Examples.dt
            (topological_op_nodes Examples.dag_A)
            (ASAPSchedule.init_sched Examples.dag_A Examples.store_A) = inr s1
        ∧ (∀ n b, n ∈ topological_op_nodes Examples.dag_A → b ∈ node_bits n →
                  (avail (ASAPSchedule.bit_time_available s1) b ≤ cd)%Z)
        ∧ (∃ n b, n ∈ topological_op_nodes Examples.dag_A ∧ b ∈ node_bits n
                  ∧ avail (ASAPSchedule.bit_time_available s1) b = cd)
        ∧ (∀ b, b ∈ lanes (ASAPSchedule.new_dag sf) →
                last_end (lane_view (ASAPSchedule.store sf)
                            (ASAPSchedule.new_dag sf)
                            (ASAPSchedule.start_times sf) b) = Some cd)
        ∧ py_max (omap (λ b, last_end (lane_view (ASAPSchedule.store sf)
                                          (ASAPSchedule.new_dag sf)
                                          (ASAPSchedule.start_times sf) b))
                       (lanes (ASAPSchedule.new_dag sf))) = Some cd.
Proof.
  eexists. split; [by vm_compute|].
  apply (asap_total_duration Examples.table None Examples.dt Examples.dag_A
           Examples.store_A).
  - reflexivity.
  - apply Examples_table_nonneg.
  - apply well_formed_A.
  - by vm_compute.
Defined.

(** The lanes of an operation are its operands: the register of a
    classical condition is not among them, and the scheduler does not wait
    for it.  Here op2, conditioned on c, is placed at 0 on q1 while op1
    occupies c0 until 5. *)
Remark asap_condition_register_not_a_lane :
  ∃ sf,
    ASAPSchedule.schedule Examples.table None Examples.dag_M Examples.dt
      Examples.store_M = inr sf
    ∧ lane_view (ASAPSchedule.store sf) (ASAPSchedule.new_dag sf)
        (ASAPSchedule.start_times sf) (Examples.c 0)
      = [mkPlaced [Examples.q 0] [Examples.c 0] None 0
           (mkInstruction "op1" false (Some 5%Z) Examples.dt)]
    ∧ lane_view (ASAPSchedule.store sf) (ASAPSchedule.new_dag sf)
        (ASAPSchedule.start_times sf) (Examples.q 1)
      = [mkPlaced [Examples.q 1] [] (Some ("c", 1%Z)) 0
           (mkInstruction "op2" false (Some 3%Z) Examples.dt);
         delay_entry (Examples.q 1) 3 2 Examples.dt].
Proof. eexists. split; [by vm_compute|]. by vm_compute. Qed.

(* ================================================================== *)
(** * Further properties of RemoveDelaysOnIdleQubits *)
(* ================================================================== *)

Section RemoverMore.

Import RemoveDelaysOnIdleQubits.

Variable h : Store.

(** [removed] is set exactly when some wire of the loop is idle in the
    graph the loop starts from. *)
Lemma remove_idle_flag (qs : list Bit) (g : DAGCircuit) (r : bool) :
  (remove_idle h qs g r).2 = true
  ↔ r = true ∨ ∃ q, q ∈ qs ∧ idling h q g = true.
Proof.
  revert r. induction qs as [|q0 qs IH]; intros r; cbn [remove_idle].
  - split; [by left|]. intros [?|(q & ?%elem_of_nil & _)]; done.
  - destruct (idling h q0 g) eqn:Hi.
    + rewrite remove_idle_true. split; [|done]. intros _. right.
      exists q0. split; [left|done].
    + rewrite IH. split.
      * intros [?|(q & Hq & Hid)]; [by left|]. right. exists q.
        split; [by right|done].
      * intros [?|(q & [->|Hq]%elem_of_cons & Hid)]; [by left|congruence|].
        right. by exists q.
Qed.

(** A node that the loop removes is on a wire of the loop that is idle
    in the graph the loop starts from. *)
Lemma remove_idle_removed (qs : list Bit) (g : DAGCircuit) (r : bool)
    (p : nat * DAGNode) :
  p ∈ op_nodes g → p ∉ op_nodes (remove_idle h qs g r).1 →
  ∃ q, q ∈ qs ∧ on_wire q p.2 = true ∧ idling h q g = true.
Proof.
  revert g r. induction qs as [|q0 qs IH]; intros g r Hp Hgone;
    cbn [remove_idle] in Hgone; [done|].
  destruct (idling h q0 g) eqn:Hi.
  - destruct (on_wire q0 p.2) eqn:Hon.
    + exists q0. split; [left|done].
    + destruct (IH (remove_all (nodes_on_wire q0 g) g) true)
        as (q & Hq & Hq_on & Hq_idle); [|done|].
      { rewrite op_nodes_strip. apply list_elem_of_filter. split; [|done].
        congruence. }
      exists q. split; [by right|]. split; [done|].
      unfold idling. apply forallb_forall. intros p' Hp'.
      apply list_elem_of_In in Hp'.
      destruct (on_wire q0 p'.2) eqn:Hon'.
      * unfold idling in Hi. rewrite forallb_forall in Hi. apply Hi.
        apply list_elem_of_In. unfold nodes_on_wire in *.
        apply list_elem_of_filter in Hp' as [_ Hp'].
        apply list_elem_of_filter. by split.
      * unfold idling in Hq_idle. rewrite forallb_forall in Hq_idle.
        apply Hq_idle. apply list_elem_of_In. rewrite nodes_on_wire_strip.
        apply list_elem_of_filter. split; [congruence|done].
  - destruct (IH g r Hp Hgone) as (q & Hq & Hrest). exists q.
    split; [by right|done].
Qed.

Lemma py_sum_from_None (acc : Z) (xs : list (option Z)) :
  py_sum_from acc xs = None ↔ None ∈ xs.
Proof.
  revert acc. induction xs as [|[x|] xs IH]; intros acc; cbn [py_sum_from].
  - split; [done|]. by intros ?%elem_of_nil.
  - rewrite IH. split; [by right|]. by intros [?|?]%elem_of_cons.
  - split; [left|done].
Qed.

Lemma per_qubit_None (q : Bit) (g : DAGCircuit) :
  per_qubit h q g = None
  ↔ ∃ p, p ∈ nodes_on_wire q g ∧ op_duration (h !!! op p.2) = None.
Proof.
  unfold per_qubit, py_sum. rewrite py_sum_from_None, list_elem_of_fmap.
  split; intros (p & Hp1 & Hp2); exists p; done.
Qed.

Lemma recompute_None (qs : list Bit) (g : DAGCircuit) (c : Z) :
  recompute h qs g c = None ↔ ∃ q, q ∈ qs ∧ per_qubit h q g = None.
Proof.
  revert c. induction qs as [|q qs IH]; intros c; cbn [recompute].
  - split; [done|]. by intros (q & ?%elem_of_nil & _).
  - destruct (per_qubit h q g) as [x|] eqn:Hx.
    + rewrite IH. split.
      * intros (q' & Hq' & Hn). exists q'. split; [by right|done].
      * intros (q' & [->|Hq']%elem_of_cons & Hn); [congruence|]. by exists q'.
    + split; [|done]. intros _. exists q. split; [left|done].
Qed.

Lemma idling_true (q : Bit) (g : DAGCircuit) :
  idling h q g = true
  ↔ ∀ p, p ∈ nodes_on_wire q g → is_Delay (h !!! op p.2) = true.
Proof.
  unfold idling. rewrite forallb_forall. split.
  - intros H p Hp. by apply H, list_elem_of_In.
  - intros H p Hp. by apply H, list_elem_of_In.
Qed.

Lemma run_meta (dag : DAGCircuit) :
  ∃ ns d, (run h dag).2
          = mkDAGCircuit (dag_name dag) (qregs dag) (cregs dag) ns d
                         (dag_unit dag)
          ∧ length ns = length (nodes dag).
Proof.
  assert (∀ ps g, length (nodes (remove_all ps g)) = length (nodes g)) as Hra.
  { unfold remove_all. induction ps as [|p ps IH]; intros g; cbn [foldl]; [done|].
    rewrite IH. cbn. apply length_insert. }
  assert (∀ qs g r, length (nodes (remove_idle h qs g r).1) = length (nodes g))
    as Hri.
  { induction qs as [|q qs IH]; intros g r; cbn [remove_idle]; [done|].
    destruct (idling h q g); [|apply IH]. by rewrite IH, Hra. }
  destruct (dag_duration dag) as [d0|] eqn:Hd.
  - rewrite (run_scheduled h dag d0 Hd). cbv zeta.
    destruct (remove_idle_set_nodes h (qubits dag) dag false) as [ns Hns].
    specialize (Hri (qubits dag) dag false). rewrite Hns in *. cbn in Hri.
    destruct (remove_idle h (qubits dag) dag false).2;
      [destruct (recompute _ _ _ _)|]; cbn; eauto.
  - rewrite (run_unscheduled h dag Hd). exists (nodes dag), None.
    split; [|done]. destruct dag. cbn in *. by subst.
Qed.

End RemoverMore.

(** X1.  The pass only removes, and only delays of idle quantum lanes:
    every node left in the graph was in it, with the same handle; every
    node whose operation is not a delay is left; a node that is gone was a
    delay on a quantum lane of the graph all of whose operations were
    delays. *)
Theorem remover_only_removes_delays (h : Store) (dag : DAGCircuit) :
  let g' := (RemoveDelaysOnIdleQubits.run h dag).2 in
  (∀ p, p ∈ op_nodes g' → p ∈ op_nodes dag)
  ∧ (∀ p, p ∈ op_nodes dag → is_Delay (h !!! op p.2) = false →
          p ∈ op_nodes g')
  ∧ (∀ p, p ∈ op_nodes dag → p ∉ op_nodes g' →
          is_Delay (h !!! op p.2) = true
          ∧ ∃ q, q ∈ qubits dag ∧ p ∈ nodes_on_wire q dag
                 ∧ ∀ p', p' ∈ nodes_on_wire q dag →
                         is_Delay (h !!! op p'.2) = true).
Proof.
  cbv zeta. destruct (dag_duration dag) as [d0|] eqn:Hd.
  - rewrite (run_op_nodes h dag d0 Hd).
    split; [|split].
    + intros p Hp. by apply remove_idle_op_nodes in Hp.
    + intros p Hp Hnd. by apply remove_idle_op_nodes.
    + intros p Hp Hgone.
      destruct (remove_idle_removed h _ _ _ p Hp Hgone) as (q & Hq & Hon & Hid).
      assert (p ∈ nodes_on_wire q dag) as Hpq
        by (apply list_elem_of_filter; by split).
      pose proof (proj1 (idling_true h q dag) Hid) as Hall.
      split; [by apply Hall|]. by exists q.
  - rewrite (run_unscheduled h dag Hd). cbn [snd]. by repeat split.
Qed.

(** X2.  Whatever the outcome, the pass leaves the name, the quantum and
    classical registers and the time unit of the graph as they were. *)
Theorem remover_keeps_registers (h : Store) (dag : DAGCircuit) :
  let g' := (RemoveDelaysOnIdleQubits.run h dag).2 in
  dag_name g' = dag_name dag
  ∧ qregs g' = qregs dag
  ∧ cregs g' = cregs dag
  ∧ dag_unit g' = dag_unit dag.
Proof.
  cbv zeta. destruct (run_meta h dag) as (ns & d & -> & Hlen). by cbn.
Qed.

(** X3.  On a scheduled graph in which every quantum lane carries an
    operation that is not a delay, the pass returns the graph as it is:
    no node removed, the duration not recomputed. *)
Theorem remover_busy_graph_unchanged (h : Store) (dag : DAGCircuit) (d0 : Z) :
  dag_duration dag = Some d0 →
  (∀ q, q ∈ qubits dag →
        ∃ p, p ∈ nodes_on_wire q dag ∧ is_Delay (h !!! op p.2) = false) →
  RemoveDelaysOnIdleQubits.run h dag = (None, dag).
Proof.
  intros Hd Hbusy. rewrite (run_scheduled h dag d0 Hd). cbv zeta.
  assert (∀ q, q ∈ qubits dag →
               RemoveDelaysOnIdleQubits.idling h q dag = false) as Hf.
  { intros q Hq. apply idling_false. by apply Hbusy. }
  rewrite (remove_idle_fixpoint h (qubits dag) dag false).
  - cbn [fst snd orb].
    assert (existsb (λ q, RemoveDelaysOnIdleQubits.idling h q dag) (qubits dag)
            = false) as ->; [|done].
    apply not_true_iff_false. intros (q & Hq & Hid)%existsb_exists.
    apply list_elem_of_In in Hq. rewrite (Hf q Hq) in Hid. done.
  - intros q Hq Hid. rewrite (Hf q Hq) in Hid. done.
Qed.

Lemma remover_busy_graph_unchanged_witness :
  RemoveDelaysOnIdleQubits.run Examples.store_H_scheduled
    Examples.dag_H_scheduled
  = (None, Examples.dag_H_scheduled).
Proof.
  apply (remover_busy_graph_unchanged _ _ 4%Z); [reflexivity|].
  intros q Hq. vm_compute in Hq. apply list_elem_of_singleton in Hq as ->.
  exists (0, mkDAGNode 0 [Examples.q 0] [] None). split; [|reflexivity].
  vm_compute. left.
Defined.

(** X4.  The pass raises [TypeError] exactly when the graph is scheduled,
    some quantum lane is idle (only delays, or nothing), and some
    operation left on a quantum lane has no duration.  The failure comes
    after the removal: the recorded duration is as before, but the idle
    lanes have already been emptied. *)
Theorem remover_type_error (h : Store) (dag : DAGCircuit) :
  let g' := (RemoveDelaysOnIdleQubits.run h dag).2 in
  ((RemoveDelaysOnIdleQubits.run h dag).1 = Some TypeError
   ↔ is_Some (dag_duration dag)
     ∧ (∃ q, q ∈ qubits dag
             ∧ ∀ p, p ∈ nodes_on_wire q dag → is_Delay (h !!! op p.2) = true)
     ∧ (∃ q p, q ∈ qubits dag ∧ p ∈ nodes_on_wire q g'
               ∧ op_duration (h !!! op p.2) = None))
  ∧ ((RemoveDelaysOnIdleQubits.run h dag).1 = Some TypeError →
     dag_duration g' = dag_duration dag
     ∧ ∀ q, q ∈ qubits dag →
            (∀ p, p ∈ nodes_on_wire q dag → is_Delay (h !!! op p.2) = true) →
            nodes_on_wire q g' = []).
Proof.
  cbv zeta. destruct (dag_duration dag) as [d0|] eqn:Hd.
  2:{ rewrite (run_unscheduled h dag Hd). cbn [fst snd].
      split; [|done]. split; [done|]. by intros [[? [=]] _]. }
  pose proof (run_nodes_on_wire h dag d0) as Hwire.
  pose proof (remove_idle_flag h (qubits dag) dag false) as Hflag.
  pose proof (remove_idle_set_nodes h (qubits dag) dag false) as [ns Hns].
  pose proof (remove_idle_idle_empty h (qubits dag) dag false) as Hempty.
  pose proof (remove_idle_on_wire h (qubits dag) dag false) as Hsub.
  rewrite (run_scheduled h dag d0 Hd) in *. cbv zeta in *.
  set (g := (RemoveDelaysOnIdleQubits.remove_idle h (qubits dag) dag false).1)
    in *.
  destruct (RemoveDelaysOnIdleQubits.remove_idle h (qubits dag) dag false).2
    eqn:Hr.
  - destruct (RemoveDelaysOnIdleQubits.recompute h (qubits dag) g 0) as [d|]
      eqn:Hrec; cbn [fst snd] in *.
    + split; [|done]. split; [done|]. intros (_ & _ & q & p & Hq & Hp & Hnone).
      assert (RemoveDelaysOnIdleQubits.recompute h (qubits dag) g 0 = None)
        as Hbad; [|congruence].
      apply recompute_None. exists q. split; [done|].
      apply per_qubit_None. exists p. split; [|done].
      by rewrite <- (Hwire q Hd).
    + split.
      * split; [|done]. intros _. split; [eauto|]. split.
        -- destruct (proj1 Hflag eq_refl) as [?|(q & Hq & Hid)]; [done|].
           exists q. split; [done|]. by apply idling_true.
        -- apply recompute_None in Hrec as (q & Hq & Hn).
           apply per_qubit_None in Hn as (p & Hp & Hn). by exists q, p.
      * intros _. split; [by rewrite Hns|].
        intros q Hq Hall. apply Hempty; [done|]. apply idling_true.
        intros p Hp. apply Hall. by apply Hsub.
  - cbn [fst snd]. split; [|done]. split; [done|].
    intros (_ & (q & Hq & Hall) & _).
    assert (false = true) as Ht; [|done].
    apply Hflag. right. exists q. split; [done|]. by apply idling_true.
Qed.

Lemma remover_type_error_witness :
  (RemoveDelaysOnIdleQubits.run MoreExamples.store_T MoreExamples.dag_T).1
  = Some TypeError
  ∧ dag_duration
      (RemoveDelaysOnIdleQubits.run MoreExamples.store_T MoreExamples.dag_T).2
    = Some 10%Z
  ∧ nodes_on_wire (Examples.q 1)
      (RemoveDelaysOnIdleQubits.run MoreExamples.store_T MoreExamples.dag_T).2
    = [].
Proof.
  destruct (remover_type_error MoreExamples.store_T MoreExamples.dag_T)
    as [Hiff Hthen].
  assert ((RemoveDelaysOnIdleQubits.run MoreExamples.store_T
             MoreExamples.dag_T).1 = Some TypeError) as Herr.
  { apply Hiff. split; [by eexists|]. split.
    - exists (Examples.q 1). split; [vm_compute; right; left|].
      intros p Hp. vm_compute in Hp. apply list_elem_of_singleton in Hp as ->.
      reflexivity.
    - exists (Examples.q 0), (0, mkDAGNode 0 [Examples.q 0] [] None).
      split; [vm_compute; left|]. split; [vm_compute; left|reflexivity]. }
  split; [done|]. destruct (Hthen Herr) as [Hdur Hgone]. split; [done|].
  apply Hgone; [vm_compute; right; left|].
  intros p Hp. vm_compute in Hp. apply list_elem_of_singleton in Hp as ->.
  reflexivity.
Defined.




(** X6.  After the pass has run on a scheduled graph, whatever the
    outcome, no quantum lane is left with delays only: each is empty or
    carries an operation that is not a delay. *)
Theorem remover_leaves_no_idle_lane (h : Store) (dag : DAGCircuit) (d0 : Z)
    (q : Bit) :
  dag_duration dag = Some d0 →
  q ∈ qubits dag →
  let lane := nodes_on_wire q (RemoveDelaysOnIdleQubits.run h dag).2 in
  lane = [] ∨ ∃ p, p ∈ lane ∧ is_Delay (h !!! op p.2) = false.
Proof.
  intros Hd Hq. cbv zeta. rewrite (run_nodes_on_wire h dag d0 q Hd).
  destruct (RemoveDelaysOnIdleQubits.idling h q
              (RemoveDelaysOnIdleQubits.remove_idle h (qubits dag) dag false).1)
    eqn:Hid.
  - left. by apply remove_idle_idle_empty.
  - right. by apply idling_false.
Qed.

Lemma remover_leaves_no_idle_lane_witness :
  let lane := nodes_on_wire (Examples.q 0)
                (RemoveDelaysOnIdleQubits.run Examples.store_D Examples.dag_D).2 in
  lane = [] ∨ ∃ p, p ∈ lane ∧ is_Delay (Examples.store_D !!! op p.2) = false.
Proof.
  apply (remover_leaves_no_idle_lane Examples.store_D Examples.dag_D 300);
    [reflexivity | vm_compute; left].
Defined.

(* ================================================================== *)
(** * Further lemmas on ASAPSchedule *)
(* ================================================================== *)

Section ScheduleMore.

Import ASAPSchedule.

Variable durations : Instruction → list Bit → option string → option Z.

(** The test at the head of [run] passes exactly on a graph with one
    quantum register, named q. *)
Lemma physical_check (dag : DAGCircuit) :
  bool_decide (length (qregs dag) ≠ 1)
  || bool_decide (list_to_map (M := gmap string nat) (qregs dag) !! "q" = None)
  = false
  ↔ ∃ n, qregs dag = [("q", n)].
Proof.
  destruct (qregs dag) as [|[name n] [|r l]] eqn:Hq.
  - split; [done|]. by intros [n [=]].
  - rewrite bool_decide_eq_false_2 by (intros ?; done). cbn [orb length].
    cbn [list_to_map foldr uncurry fst snd].
    destruct (decide (name = "q")) as [->|Hne].
    + rewrite lookup_insert_eq. split; [eauto|]. intros _.
      by apply bool_decide_eq_false_2.
    + rewrite lookup_insert_ne by done. rewrite lookup_empty.
      split; [by rewrite bool_decide_eq_true_2|]. intros [n' [=]]. done.
  - rewrite bool_decide_eq_true_2 by (cbn; lia). split; [done|].
    by intros [n' [=]].
Qed.

Lemma schedule_node_error (u : option string) (node : DAGNode) (s : Sched)
    (e : Exception) (h' : Store) :
  schedule_node durations u node s = inl (e, h') →
  (e = ValueError ∧ node_bits node = [] ∧ h' = store s)
  ∨ (e = DurationLookupError ∧ node_bits node ≠ []
     ∧ ∃ s1, s1 = pad_with_delays (node_bits node)
                    (default 0%Z (py_max (map (avail (bit_time_available s))
                                              (node_bits node)))) u
                    (mkSched (store s) (new_dag s)
                       (dd_get_all (node_bits node) (bit_time_available s)).2
                       (start_times s))
             ∧ h' = store s1
             ∧ durations (store s1 !!! op node) (qargs node) u = None).
Proof.
  unfold schedule_node.
  destruct (dd_get_all_spec (node_bits node) (bit_time_available s)) as (Hts & _).
  destruct (dd_get_all (node_bits node) (bit_time_available s)) as [ts m1].
  cbn [fst snd] in *. subst ts.
  destruct (py_max _) as [start|] eqn:Hmax.
  - unfold apply_operation_back.
    destruct (durations _ _ _) as [d|] eqn:Ed; [done|].
    intros [= <- <-]. right. split; [done|]. split.
    { intros Hnil. by rewrite Hnil in Hmax. }
    eexists. split; [done|]. split; [done|]. exact Ed.
  - intros [= <- <-]. left. split; [done|]. split; [|done].
    destruct (node_bits node); [done|]. done.
Qed.

Lemma schedule_nodes_app (u : option string) (l1 l2 : list DAGNode) (s : Sched) :
  schedule_nodes durations u (l1 ++ l2) s
  = match schedule_nodes durations u l1 s with
    | inl e => inl e
    | inr s1 => schedule_nodes durations u l2 s1
    end.
Proof.
  revert s. induction l1 as [|n l1 IH]; intros s; cbn [app schedule_nodes];
    [done|].
  destruct (schedule_node durations u n s); [done|apply IH].
Qed.

Lemma schedule_nodes_error (u : option string) (ns : list DAGNode) (s : Sched)
    (e : Exception) (h' : Store) :
  schedule_nodes durations u ns s = inl (e, h') →
  e = ValueError ∨ e = DurationLookupError.
Proof.
  revert s. induction ns as [|n ns IH]; intros s; cbn [schedule_nodes]; [done|].
  destruct (schedule_node durations u n s) as [[e1 h1]|s1] eqn:Hstep.
  - intros [= <- <-].
    apply schedule_node_error in Hstep as [(-> & _)|(-> & _)]; [by left|by right].
  - apply IH.
Qed.

Lemma finish_error (name u : option string) (s : Sched) (e : Exception)
    (h' : Store) :
  finish name u s = inl (e, h') →
  e = ValueError ∧ h' = store s ∧ bit_time_available s = ∅.
Proof.
  unfold finish. destruct (py_max _) as [cd|] eqn:Hmax; [done|].
  intros [= <- <-]. split; [done|]. split; [done|].
  apply map_to_list_empty_iff.
  destruct (map_to_list (bit_time_available s)); [done|]. done.
Qed.

Lemma pad_with_delays_regs (bits : list Bit) (until : Z) (u : option string)
    (s : Sched) :
  new_dag (pad_with_delays bits until u s)
  = set_nodes (nodes (new_dag (pad_with_delays bits until u s))) (new_dag s).
Proof.
  revert s. induction bits as [|b bits IH]; intros s; cbn [pad_with_delays].
  - by rewrite set_nodes_id.
  - pose proof (IH (pad_bit until u b s)) as Hrest.
    assert (∃ ns, new_dag (pad_bit until u b s) = set_nodes ns (new_dag s))
      as [ns Hns].
    { unfold pad_bit. destruct (dd_get b (bit_time_available s)) as [t m].
      destruct (t <? until)%Z; cbn [new_dag alloc apply_operation_back].
      - eexists. reflexivity.
      - exists (nodes (new_dag s)). by rewrite set_nodes_id. }
    rewrite Hns in Hrest. by rewrite set_nodes_set_nodes in Hrest.
Qed.

Lemma schedule_nodes_regs (u : option string) (ns : list DAGNode) (s s' : Sched) :
  schedule_nodes durations u ns s = inr s' →
  new_dag s' = set_nodes (nodes (new_dag s')) (new_dag s).
Proof.
  revert s. induction ns as [|n ns IH]; intros s; cbn [schedule_nodes].
  - intros [= <-]. by rewrite set_nodes_id.
  - destruct (schedule_node durations u n s) as [e|s1] eqn:Hstep; [done|].
    intros Hrest. apply IH in Hrest.
    apply schedule_node_unfold in Hstep as (start & d & s0 & _ & Hs0 & _ & ->).
    cbn [new_dag] in Hrest. rewrite set_nodes_set_nodes in Hrest.
    pose proof (pad_with_delays_regs (node_bits n) start u
                  (mkSched (store s) (new_dag s)
                     (dd_get_all (node_bits n) (bit_time_available s)).2
                     (start_times s))) as Hp.
    rewrite <- Hs0 in Hp. cbn [new_dag] in Hp. rewrite Hp in Hrest.
    by rewrite set_nodes_set_nodes in Hrest.
Qed.

Lemma finish_regs (name u : option string) (s sf : Sched) :
  finish name u s = inr sf →
  ∃ cd, new_dag sf
        = mkDAGCircuit name (qregs (new_dag s)) (cregs (new_dag s))
                       (nodes (new_dag sf)) (Some cd) u.
Proof.
  unfold finish. destruct (py_max _) as [cd|]; [|done]. intros [= <-].
  exists cd. cbn [new_dag nodes]. rewrite pad_with_delays_regs.
  cbn [set_nodes qregs cregs]. rewrite pad_with_delays_regs. done.
Qed.

End ScheduleMore.

(* ================================================================== *)
(** * Further properties of ASAPSchedule *)
(* ================================================================== *)

(** The three ways [run] can end. *)
Lemma run_cases
    (durations : Instruction → list Bit → option string → option Z)
    (property_set_time_unit time_unit : option string)
    (dag : DAGCircuit) (h : Store) :
  let physical := ∃ n, qregs dag = [("q", n)] in
  let result :=
    ASAPSchedule.run durations property_set_time_unit dag time_unit h in
  (¬ physical
   ∧ result = (inl (TranspilerError
                      "ASAP schedule runs on physical circuits only"), h))
  ∨ (physical
     ∧ ∃ e h', result = (inl e, h')
               ∧ (e = ValueError ∨ e = DurationLookupError))
  ∨ (physical ∧ ∃ g h', result = (inr g, h')).
Proof.
  intros physical result. subst result.
  unfold ASAPSchedule.run, ASAPSchedule.schedule.
  pose proof (physical_check dag) as Hcheck. fold physical in Hcheck.
  destruct (bool_decide (length (qregs dag) ≠ 1) || bool_decide _) eqn:Hc.
  - left. split; [|done]. intros Hp. apply Hcheck in Hp. done.
  - right. assert (physical) as Hp by (by apply Hcheck).
    destruct (ASAPSchedule.schedule_nodes _ _ _ _) as [[e1 h1]|s1] eqn:Hloop.
    + left. split; [done|]. exists e1, h1. split; [done|].
      by apply schedule_nodes_error in Hloop.
    + destruct (ASAPSchedule.finish _ _ _) as [[e1 h1]|sf] eqn:Hfin.
      * left. split; [done|]. exists e1, h1. split; [done|].
        apply finish_error in Hfin as [-> _]. by left.
      * right. split; [done|]. eauto.
Qed.

(** X7.  The pass raises [TranspilerError] exactly when the graph does
    not have one quantum register named q: no register, several, or one
    of another name; the object store is then as it was.  Every other
    failure of the pass is a [ValueError] or a failed duration lookup. *)
Theorem asap_precondition_error
    (durations : Instruction → list Bit → option string → option Z)
    (property_set_time_unit time_unit : option string)
    (dag : DAGCircuit) (h : Store) :
  let physical := ∃ n, qregs dag = [("q", n)] in
  let result :=
    ASAPSchedule.run durations property_set_time_unit dag time_unit h in
  ((∃ msg, result.1 = inl (TranspilerError msg)) ↔ ¬ physical)
  ∧ (¬ physical → result.2 = h)
  ∧ (∀ e, result.1 = inl e → physical →
          e = ValueError ∨ e = DurationLookupError).
Proof.
  intros physical result.
  destruct (run_cases durations property_set_time_unit time_unit dag h)
    as [[Hno Hres]|[(Hp & e & h' & Hres & He)|(Hp & g & h' & Hres)]];
    subst physical result; rewrite Hres; cbn [fst snd].
  - split; [split; [done|eauto]|]. split; [done|]. done.
  - split; [split; [|done]|].
    + intros [msg [= ->]]. by destruct He.
    + split; [done|]. by intros e0 [= <-] _.
  - split; [split; [|done]|]; [by intros [msg [=]]|]. split; [done|].
    by intros e0 [=].
Qed.

Lemma asap_precondition_error_witness :
  (ASAPSchedule.run Examples.table None MoreExamples.dag_virtual Examples.dt
     Examples.store_H).2
  = Examples.store_H.
Proof.
  destruct (asap_precondition_error Examples.table None Examples.dt
              MoreExamples.dag_virtual Examples.store_H)
    as (_ & Hstore & _).
  apply Hstore. by intros [n [=]].
Defined.

(** X8.  The graph returned by the pass has the name and the registers of
    the input graph and a duration; its time unit is the [time_unit]
    handed to [run], unless that is [None] or the empty string, in which
    case it is the time unit of the property set. *)
Theorem asap_result_metadata
    (durations : Instruction → list Bit → option string → option Z)
    (property_set_time_unit time_unit : option string)
    (dag g : DAGCircuit) (h h' : Store) :
  ASAPSchedule.run durations property_set_time_unit dag time_unit h
  = (inr g, h') →
  dag_name g = dag_name dag
  ∧ qregs g = qregs dag
  ∧ cregs g = cregs dag
  ∧ is_Some (dag_duration g)
  ∧ (∀ t, time_unit = Some t → t ≠ "" → dag_unit g = Some t)
  ∧ (time_unit = None ∨ time_unit = Some "" →
     dag_unit g = property_set_time_unit).
Proof.
  unfold ASAPSchedule.run, ASAPSchedule.schedule.
  destruct (_ || _); [done|].
  destruct (ASAPSchedule.schedule_nodes _ _ _ _) as [[e1 h1]|s1] eqn:Hloop;
    [done|].
  destruct (ASAPSchedule.finish _ _ _) as [[e1 h1]|sf] eqn:Hfin; [done|].
  intros [= <- <-].
  apply schedule_nodes_regs in Hloop. apply finish_regs in Hfin as [cd Hg].
  rewrite Hloop, init_sched_dag in Hg. cbn [set_nodes qregs cregs] in Hg.
  rewrite Hg. cbn [dag_name qregs cregs dag_duration dag_unit].
  split; [done|]. split; [done|]. split; [done|]. split; [eauto|].
  unfold ASAPSchedule.resolve_unit, falsy. split.
  - intros t -> Hne. by rewrite bool_decide_eq_false_2.
  - intros [->| ->]; [done|]. by rewrite bool_decide_eq_true_2.
Qed.

Lemma asap_result_metadata_witness :
  ∃ g h',
    ASAPSchedule.run Examples.table (Some "ns") Examples.dag_A (Some "")
      Examples.store_A = (inr g, h')
    ∧ dag_name g = dag_name Examples.dag_A
    ∧ qregs g = qregs Examples.dag_A
    ∧ cregs g = cregs Examples.dag_A
    ∧ is_Some (dag_duration g)
    ∧ (∀ t, Some "" = Some t → t ≠ "" → dag_unit g = Some t)
    ∧ (Some "" = None ∨ Some "" = Some "" → dag_unit g = Some "ns").
Proof.
  eexists. eexists. split; [by vm_compute|].
  eapply (asap_result_metadata Examples.table (Some "ns") (Some "")
            Examples.dag_A _ Examples.store_A).
  by vm_compute.
Defined.

Section ScheduleProgress.

Import ASAPSchedule.

Variable durations : Instruction → list Bit → option string → option Z.

(** An operation with an operand and a duration in the table is
    scheduled. *)
Lemma schedule_node_progress (h : Store) (u : option string) (g0 : DAGCircuit)
    (done : list DAGNode) (node : DAGNode) (s : Sched) :
  loop_inv durations h u g0 done s →
  op node < length h →
  op node ∉ op <$> done →
  (store (pad_with_delays (node_bits node)
            (default 0%Z (py_max (map (avail (bit_time_available s))
                                      (node_bits node)))) u
            (mkSched (store s) (new_dag s)
               (dd_get_all (node_bits node) (bit_time_available s)).2
               (start_times s)))) !!! op node
  = h !!! op node.
Proof.
  intros [[Hlen Hrefs _] Hgrow Hframe _ _ _ _ _] Hop Hfresh.
  destruct (pad_with_delays_spec
              (default 0%Z (py_max (map (avail (bit_time_available s))
                                        (node_bits node)))) u (node_bits node)
              (mkSched (store s) (new_dag s)
                 (dd_get_all (node_bits node) (bit_time_available s)).2
                 (start_times s)) Hlen Hrefs)
    as (_ & _ & _ & _ & [ext E] & _).
  rewrite E. cbn [store]. rewrite lookup_total_app_l by lia.
  apply store_lookup_total. by apply Hframe.
Qed.

Lemma schedule_node_returns (h : Store) (u : option string) (g0 : DAGCircuit)
    (done : list DAGNode) (node : DAGNode) (s : Sched) :
  loop_inv durations h u g0 done s →
  op node < length h →
  op node ∉ op <$> done →
  node_bits node ≠ [] →
  is_Some (durations (h !!! op node) (qargs node) u) →
  ∃ s', schedule_node durations u node s = inr s'.
Proof.
  intros Hinv Hop Hfresh Hbits [d Hd].
  destruct (schedule_node durations u node s) as [[e h']|s'] eqn:Hstep; [|eauto].
  exfalso. apply schedule_node_error in Hstep
    as [(_ & Hnil & _)|(_ & _ & s1 & -> & _ & Hnone)]; [done|].
  rewrite (schedule_node_progress h u g0 done node s Hinv Hop Hfresh) in Hnone.
  congruence.
Qed.

Lemma schedule_nodes_returns (h : Store) (u : option string) (g0 : DAGCircuit)
    (ns done : list DAGNode) (s : Sched) :
  loop_inv durations h u g0 done s →
  (∀ n, n ∈ ns → op n < length h) →
  NoDup (op <$> (done ++ ns)) →
  (∀ n, n ∈ ns → NoDup (node_bits n)) →
  (∀ n, n ∈ ns → node_bits n ≠ []
                 ∧ is_Some (durations (h !!! op n) (qargs n) u)) →
  ∃ s', schedule_nodes durations u ns s = inr s'.
Proof.
  revert done s. induction ns as [|n ns IH]; intros done s Hinv Hrefs Hnd Hbits Hok;
    cbn [schedule_nodes]; [eauto|].
  assert (n ∈ n :: ns) as Hhd by left.
  assert (op n ∉ op <$> done) as Hfresh.
  { rewrite fmap_app, fmap_cons in Hnd.
    apply NoDup_app in Hnd as (_ & Hdisj & _). intros Hin.
    apply (Hdisj _ Hin). left. }
  destruct (Hok n Hhd) as [Hne Hdur].
  destruct (schedule_node_returns h u g0 done n s Hinv (Hrefs n Hhd) Hfresh
              Hne Hdur) as [s1 Hstep].
  rewrite Hstep.
  destruct (schedule_node_spec durations h u g0 done n s s1 Hinv (Hrefs n Hhd)
              Hfresh (Hbits n Hhd) Hstep) as (_ & _ & _ & _ & Hinv1 & _).
  apply (IH (done ++ [n]) s1 Hinv1).
  - intros n' Hn'. apply Hrefs. by right.
  - by rewrite <- app_assoc.
  - intros n' Hn'. apply Hbits. by right.
  - intros n' Hn'. apply Hok. by right.
Qed.

Lemma schedule_nodes_operands (u : option string) (ns : list DAGNode)
    (s s' : Sched) :
  schedule_nodes durations u ns s = inr s' → ∀ n, n ∈ ns → node_bits n ≠ [].
Proof.
  revert s. induction ns as [|n0 ns IH]; intros s; cbn [schedule_nodes].
  - intros _ n Hn. by apply elem_of_nil in Hn.
  - destruct (schedule_node durations u n0 s) as [e|s1] eqn:Hstep; [done|].
    intros Hrest n [->|Hn]%elem_of_cons; [|by apply (IH s1)].
    apply schedule_node_unfold in Hstep as (start & _ & _ & Hmax & _).
    intros Hnil. by rewrite Hnil in Hmax.
Qed.

Lemma finish_returns (name u : option string) (s : Sched) :
  bit_time_available s ≠ ∅ → ∃ sf, finish name u s = inr sf.
Proof.
  intros Hne. unfold finish.
  destruct (py_max_is_Some ((map_to_list (bit_time_available s)).*2))
    as [cd ->]; [|eauto].
  intros Hnil. apply Hne. apply map_to_list_empty_iff.
  destruct (map_to_list (bit_time_available s)); [done|]. done.
Qed.

End ScheduleProgress.

Lemma schedule_physical
    (durations : Instruction → list Bit → option string → option Z)
    (property_set_time_unit time_unit : option string)
    (dag : DAGCircuit) (h : Store) :
  (∃ n, qregs dag = [("q", n)]) →
  ASAPSchedule.schedule durations property_set_time_unit dag time_unit h
  = match ASAPSchedule.schedule_nodes durations
            (ASAPSchedule.resolve_unit property_set_time_unit time_unit)
            (topological_op_nodes dag) (ASAPSchedule.init_sched dag h) with
    | inl e => inl e
    | inr s => ASAPSchedule.finish (dag_name dag)
                 (ASAPSchedule.resolve_unit property_set_time_unit time_unit) s
    end.
Proof.
  intros Hp. apply physical_check in Hp. unfold ASAPSchedule.schedule.
  by rewrite Hp.
Qed.

Lemma well_formed_whole (h : Store) (dag : DAGCircuit) :
  well_formed h dag →
  (∀ n, n ∈ topological_op_nodes dag → op n < length h)
  ∧ NoDup (op <$> ([] ++ topological_op_nodes dag))
  ∧ (∀ n, n ∈ topological_op_nodes dag → NoDup (node_bits n)).
Proof. intros [_ Hrefs Hunshared Hoperands _]. done. Qed.

(** X9.  On a well-formed graph with one quantum register named q, the
    pass returns a graph exactly when the graph has at least one
    operation, every operation has at least one operand, and the duration
    table has a duration for every operation. *)
Theorem asap_returns_iff
    (durations : Instruction → list Bit → option string → option Z)
    (property_set_time_unit time_unit : option string)
    (dag : DAGCircuit) (h : Store) :
  let u := ASAPSchedule.resolve_unit property_set_time_unit time_unit in
  well_formed h dag →
  (∃ n, qregs dag = [("q", n)]) →
  (∃ g h', ASAPSchedule.run durations property_set_time_unit dag time_unit h
           = (inr g, h'))
  ↔ topological_op_nodes dag ≠ []
    ∧ ∀ n, n ∈ topological_op_nodes dag →
           node_bits n ≠ []
           ∧ is_Some (durations (h !!! op n) (qargs n) u).
Proof.
  intros u Hwf Hp. unfold ASAPSchedule.run.
  pose proof (schedule_physical durations property_set_time_unit time_unit
                dag h Hp) as Hsched. fold u in Hsched.
  destruct (well_formed_whole h dag Hwf) as (Hrefs & Hnd & Hbits).
  pose proof (init_sched_inv durations dag h u) as Hinit. split.
  - intros (g & h' & Hrun).
    destruct (ASAPSchedule.schedule _ _ _ _ _) as [[e he]|sf] eqn:Hs; [done|].
    destruct (schedule_spec durations property_set_time_unit dag time_unit h sf
                Hwf Hs) as (s1 & Hloop & Hinv & Hfin & _). fold u in Hloop, Hinv.
    split.
    + intros Hnil. rewrite Hnil in Hinv.
      pose proof (li_keys _ _ _ _ _ _ Hinv) as Hkeys. cbn in Hkeys.
      apply dom_empty_iff_L in Hkeys.
      unfold ASAPSchedule.finish in Hfin. rewrite Hkeys in Hfin.
      by rewrite map_to_list_empty in Hfin.
    + intros n Hn. split.
      * by apply (schedule_nodes_operands durations u _ _ _ Hloop).
      * destruct (li_set _ _ _ _ _ _ Hinv n Hn) as (d & Hd & _). eauto.
  - intros [Hne Hok].
    destruct (schedule_nodes_returns durations h u _ (topological_op_nodes dag)
                [] _ Hinit Hrefs Hnd Hbits Hok) as [s1 Hloop].
    pose proof (schedule_nodes_spec durations h u _ (topological_op_nodes dag)
                  [] _ s1 Hinit Hrefs Hnd Hbits Hloop) as Hinv.
    cbn [app] in Hinv.
    destruct (finish_returns (dag_name dag) u s1) as [sf Hfin].
    { intros Hempty. pose proof (li_keys _ _ _ _ _ _ Hinv) as Hkeys.
      rewrite Hempty, dom_empty_L in Hkeys.
      destruct (topological_op_nodes dag) as [|n ns] eqn:Hns; [done|].
      destruct (Hok n) as [Hbn _]; [left|].
      destruct (node_bits n) as [|b bs] eqn:Hb; [done|].
      assert (b ∈ (∅ : gset Bit)) as Hin; [|by apply not_elem_of_empty in Hin].
      rewrite Hkeys. apply elem_of_list_to_set, elem_of_concat_bits.
      exists n. split; [left|]. rewrite Hb. left. }
    rewrite Hsched, Hloop, Hfin. eauto.
Qed.

Lemma asap_returns_iff_witness :
  (∃ g h', ASAPSchedule.run Examples.table None Examples.dag_A Examples.dt
             Examples.store_A = (inr g, h'))
  ↔ topological_op_nodes Examples.dag_A ≠ []
    ∧ ∀ n, n ∈ topological_op_nodes Examples.dag_A →
           node_bits n ≠ []
           ∧ is_Some (Examples.table (Examples.store_A !!! op n) (qargs n)
                        Examples.dt).
Proof.
  apply (asap_returns_iff Examples.table None Examples.dt Examples.dag_A
           Examples.store_A); [apply well_formed_A | by exists 3].
Defined.

(** X10.  On a well-formed graph with one quantum register named q, the
    first operation, in traversal order, that has no operand or no
    duration in the table makes the pass fail: with [ValueError] when it
    has no operand, with the failed lookup otherwise.  No graph is
    returned, but the failure is not silent in the store: the operations
    before it have already been given their duration and the unit; the
    other objects of the store are as they were. *)
Theorem asap_first_failure
    (durations : Instruction → list Bit → option string → option Z)
    (property_set_time_unit time_unit : option string)
    (dag : DAGCircuit) (h : Store) (pre post : list DAGNode) (n : DAGNode) :
  let u := ASAPSchedule.resolve_unit property_set_time_unit time_unit in
  well_formed h dag →
  (∃ k, qregs dag = [("q", k)]) →
  topological_op_nodes dag = pre ++ n :: post →
  (∀ m, m ∈ pre → node_bits m ≠ []
                  ∧ is_Some (durations (h !!! op m) (qargs m) u)) →
  node_bits n = [] ∨ durations (h !!! op n) (qargs n) u = None →
  ∃ h',
    ASAPSchedule.run durations property_set_time_unit dag time_unit h
    = (inl (if decide (node_bits n = []) then ValueError
            else DurationLookupError), h')
    ∧ length h ≤ length h'
    ∧ (∀ r, r < length h → r ∉ op <$> pre → h' !! r = h !! r)
    ∧ (∀ m, m ∈ pre →
            ∃ d, durations (h !!! op m) (qargs m) u = Some d
                 ∧ h' !!! op m
                   = mkInstruction (op_name (h !!! op m))
                       (is_Delay (h !!! op m)) (Some d) u).
Proof.
  intros u Hwf Hp Hsplit Hok Hbad.
  destruct (well_formed_split h dag pre post n Hwf Hsplit)
    as (Hrefs & Hnd & Hbits & Hop & Hfresh & Hnode).
  pose proof (init_sched_inv durations dag h u) as Hinit.
  destruct (schedule_nodes_returns durations h u _ pre [] _ Hinit Hrefs Hnd
              Hbits Hok) as [s Hpre].
  pose proof (schedule_nodes_spec durations h u _ pre [] _ s Hinit Hrefs Hnd
                Hbits Hpre) as Hinv. cbn [app] in Hinv.
  pose proof (schedule_node_progress durations h u _ pre n s Hinv Hop Hfresh)
    as Hobj.
  destruct Hinv as [[Hlen Hrefs' _] Hgrow Hframe Hset _ Hshared _ _].
  destruct (pad_with_delays_spec
              (default 0%Z (py_max (map (avail (ASAPSchedule.bit_time_available s))
                                        (node_bits n)))) u (node_bits n)
              (ASAPSchedule.mkSched (ASAPSchedule.store s)
                 (ASAPSchedule.new_dag s)
                 (dd_get_all (node_bits n) (ASAPSchedule.bit_time_available s)).2
                 (ASAPSchedule.start_times s)) Hlen Hrefs')
    as (_ & _ & _ & _ & [ext E] & _).
  cbn [ASAPSchedule.store] in E.
  assert (∃ h', ASAPSchedule.schedule_node durations u n s
                = inl (if decide (node_bits n = []) then ValueError
                       else DurationLookupError, h')
                ∧ ∃ ext', h' = ASAPSchedule.store s ++ ext') as (h' & Hstep & ext' & Hh').
  { destruct (ASAPSchedule.schedule_node durations u n s) as [[e h']|s'] eqn:Hstep.
    - exists h'. apply schedule_node_error in Hstep
        as [(-> & Hnil & ->)|(-> & Hne & s1 & -> & -> & _)].
      + rewrite decide_True by done. split; [done|]. exists [].
        by rewrite app_nil_r.
      + rewrite decide_False by done. split; [done|]. by exists ext.
    - exfalso.
      apply schedule_node_unfold in Hstep as (start & d & s1 & Hmax & -> & Hd & _).
      rewrite Hmax in Hobj. cbn [default from_option id] in Hobj.
      rewrite Hobj in Hd.
      destruct Hbad as [Hnil|Hnone]; [|congruence].
      by rewrite Hnil in Hmax. }
  exists h'. split.
  { unfold ASAPSchedule.run.
    rewrite (schedule_physical _ _ _ _ _ Hp). fold u.
    by rewrite Hsplit, schedule_nodes_app, Hpre; cbn [ASAPSchedule.schedule_nodes];
      rewrite Hstep. }
  subst h'. split; [rewrite length_app; lia|]. split.
  - intros r Hr Hnot. rewrite lookup_app_l by lia. by apply Hframe.
  - intros m Hm. destruct (Hset m Hm) as (d & Hd & Hobjm). exists d.
    split; [done|]. rewrite lookup_total_app_l; [done|].
    by apply Hrefs', Hshared.
Qed.

Lemma well_formed_U : well_formed MoreExamples.store_U MoreExamples.dag_U.
Proof.
  split.
  - constructor.
  - intros n Hn. vm_compute in Hn.
    repeat (apply elem_of_cons in Hn as [->|Hn]; [cbn; lia|]).
    by apply elem_of_nil in Hn.
  - vm_compute. repeat (constructor; [set_solver|]). constructor.
  - intros n Hn. vm_compute in Hn.
    repeat (apply elem_of_cons in Hn as [->|Hn];
            [vm_compute; repeat (constructor; [set_solver|]); constructor|]).
    by apply elem_of_nil in Hn.
  - intros n b Hn Hb. vm_compute in Hn.
    repeat (apply elem_of_cons in Hn as [->|Hn];
            [vm_compute in Hb; vm_compute; set_solver|]).
    by apply elem_of_nil in Hn.
Qed.

Lemma asap_first_failure_witness :
  ∃ h',
    ASAPSchedule.run Examples.table None MoreExamples.dag_U Examples.dt
      MoreExamples.store_U
    = (inl DurationLookupError, h')
    ∧ length MoreExamples.store_U ≤ length h'
    ∧ op_duration (h' !!! 0) = Some 5%Z
    ∧ h' !! 3 = MoreExamples.store_U !! 3.
Proof.
  destruct (asap_first_failure Examples.table None Examples.dt
              MoreExamples.dag_U MoreExamples.store_U
              (topological_op_nodes Examples.dag_A) []
              (mkDAGNode 3 [Examples.q 1] [] None))
    as (h' & Hrun & Hlen & Hframe & Hset).
  - apply well_formed_U.
  - by exists 3.
  - reflexivity.
  - intros m Hm. vm_compute in Hm.
    repeat (apply elem_of_cons in Hm as [->|Hm];
            [split; [done|by eexists]|]).
    by apply elem_of_nil in Hm.
  - by right.
  - exists h'. split; [exact Hrun|]. split; [done|]. split.
    + destruct (Hset (Examples.node_A 0)) as (d & Hd & Hobj);
        [vm_compute; left|].
      vm_compute in Hd. injection Hd as <-.
      exact (f_equal op_duration Hobj).
    + apply Hframe; [cbn; lia|]. vm_compute. intros Hin.
      repeat (apply elem_of_cons in Hin as [Hin|Hin]; [discriminate|]).
      by apply elem_of_nil in Hin.
Defined.

Section NodesInvariant.

Import ASAPSchedule.

Variable durations : Instruction → list Bit → option string → option Z.
Variables (h : Store) (u : option string).

Lemma topological_omap (g : DAGCircuit) :
  topological_op_nodes g = omap id (nodes g).
Proof.
  unfold topological_op_nodes, op_nodes. generalize 0.
  induction (nodes g) as [|[n|] r IH]; intros i; cbn; [done| |apply IH].
  f_equal. apply IH.
Qed.

Lemma is_padding_ext (h1 h2 : Store) (n : DAGNode) :
  h2 !!! op n = h1 !!! op n → is_padding h1 u n → is_padding h2 u n.
Proof. intros Heq (b & d & H1 & H2 & H3). exists b, d. by rewrite Heq. Qed.

Lemma pad_bit_nodes_inv (until : Z) (b : Bit) (done : list DAGNode) (s : Sched) :
  (∀ n, Some n ∈ nodes (new_dag s) → op n < length (store s)) →
  length h ≤ length (store s) →
  nodes_inv h u done s → nodes_inv h u done (pad_bit until u b s).
Proof.
  intros Hrefs Hgrow [Hlive Horig Hpad]. unfold pad_bit.
  destruct (dd_get b (bit_time_available s)) as [t m].
  destruct (t <? until)%Z eqn:Elt; [|by split].
  apply Z.ltb_lt in Elt. unfold alloc, apply_operation_back.
  split; cbn [store new_dag set_nodes nodes].
  - intros o [Ho|Ho%list_elem_of_singleton]%elem_of_app; [by apply Hlive|].
    subst o. eauto.
  - rewrite omap_app, filter_app, Horig. cbn [omap list_omap id].
    rewrite filter_cons_False by (cbn; lia). by rewrite app_nil_r.
  - intros n [Hn|Hn%list_elem_of_singleton]%elem_of_app Hge.
    + apply (is_padding_ext (store s)); [|by apply Hpad].
      apply lookup_total_app_l. by apply Hrefs.
    + injection Hn as ->. exists b, (until - t)%Z. cbn [op].
      split; [done|]. split; [|lia]. by apply list_lookup_total_middle.
Qed.

Lemma pad_with_delays_nodes_inv (bits : list Bit) (until : Z)
    (done : list DAGNode) (s : Sched) :
  length (start_times s) = length (nodes (new_dag s)) →
  (∀ n, Some n ∈ nodes (new_dag s) → op n < length (store s)) →
  length h ≤ length (store s) →
  nodes_inv h u done s → nodes_inv h u done (pad_with_delays bits until u s).
Proof.
  revert s. induction bits as [|b bits IH]; intros s Hlen Hrefs Hgrow Hinv;
    cbn [pad_with_delays]; [done|].
  destruct (pad_bit_spec until u b s Hlen Hrefs)
    as (A & B & _ & _ & [ext E] & _).
  apply IH; [done|done| |by apply pad_bit_nodes_inv].
  rewrite E, length_app. lia.
Qed.

Lemma schedule_node_nodes_inv (g0 : DAGCircuit) (done : list DAGNode)
    (node : DAGNode) (s s' : Sched) :
  loop_inv durations h u g0 done s →
  nodes_inv h u done s →
  op node < length h →
  schedule_node durations u node s = inr s' →
  nodes_inv h u (done ++ [node]) s'.
Proof.
  intros [[Hlen Hrefs _] Hgrow _ _ _ _ _ _] Hinv Hop Hstep.
  apply schedule_node_unfold in Hstep as (start & d & s1 & _ & Hs1 & _ & ->).
  assert (nodes_inv h u done s1) as [Hlive Horig Hpad].
  { rewrite Hs1. apply pad_with_delays_nodes_inv; [done..|].
    destruct Hinv as [H1 H2 H3]. by split. }
  destruct (pad_with_delays_spec start u (node_bits node)
              (mkSched (store s) (new_dag s)
                 (dd_get_all (node_bits node) (bit_time_available s)).2
                 (start_times s)) Hlen Hrefs) as (_ & _ & _ & _ & [ext E] & _).
  rewrite <- Hs1 in E. cbn [store] in E.
  split; cbn [store new_dag set_nodes nodes].
  - intros o [Ho|Ho%list_elem_of_singleton]%elem_of_app; [by apply Hlive|].
    subst o. eauto.
  - rewrite omap_app, filter_app, Horig. cbn [omap list_omap id].
    by rewrite filter_cons_True by done.
  - intros n [Hn|Hn%list_elem_of_singleton]%elem_of_app Hge.
    + apply (is_padding_ext (store s1)); [|by apply Hpad].
      apply store_lookup_total, set_duration_unit_other. lia.
    + injection Hn as ->. lia.
Qed.

Lemma schedule_nodes_nodes_inv (g0 : DAGCircuit) (ns done : list DAGNode)
    (s s' : Sched) :
  loop_inv durations h u g0 done s →
  nodes_inv h u done s →
  (∀ n, n ∈ ns → op n < length h) →
  NoDup (op <$> (done ++ ns)) →
  (∀ n, n ∈ ns → NoDup (node_bits n)) →
  schedule_nodes durations u ns s = inr s' →
  nodes_inv h u (done ++ ns) s'.
Proof.
  revert done s. induction ns as [|n ns IH];
    intros done s Hloop Hinv Hrefs Hnd Hbits; cbn [schedule_nodes].
  - intros [= <-]. by rewrite app_nil_r.
  - destruct (schedule_node durations u n s) as [e|s1] eqn:Hstep; [done|].
    intros Hrest. assert (n ∈ n :: ns) as Hhd by left.
    assert (op n ∉ op <$> done) as Hfresh.
    { rewrite fmap_app, fmap_cons in Hnd.
      apply NoDup_app in Hnd as (_ & Hdisj & _). intros Hin.
      apply (Hdisj _ Hin). left. }
    destruct (schedule_node_spec durations h u g0 done n s s1 Hloop
                (Hrefs n Hhd) Hfresh (Hbits n Hhd) Hstep)
      as (_ & _ & _ & _ & Hloop1 & _).
    pose proof (schedule_node_nodes_inv g0 done n s s1 Hloop Hinv
                  (Hrefs n Hhd) Hstep) as Hinv1.
    replace (done ++ n :: ns) with ((done ++ [n]) ++ ns)
      by (by rewrite <- app_assoc).
    apply (IH (done ++ [n]) s1); [done|done| | | |done].
    + intros n' Hn'. apply Hrefs. by right.
    + by rewrite <- app_assoc.
    + intros n' Hn'. apply Hbits. by right.
Qed.

Lemma finish_nodes_inv (name : option string) (done : list DAGNode)
    (s sf : Sched) :
  length (start_times s) = length (nodes (new_dag s)) →
  (∀ n, Some n ∈ nodes (new_dag s) → op n < length (store s)) →
  length h ≤ length (store s) →
  nodes_inv h u done s →
  finish name u s = inr sf →
  nodes_inv h u done sf.
Proof.
  intros Hlen Hrefs Hgrow Hinv. unfold finish.
  destruct (py_max _) as [cd|]; [|done].
  destruct (pad_with_delays_spec cd u (qubits (new_dag s)) s Hlen Hrefs)
    as (A1 & B1 & _ & _ & [e1 E1] & _).
  pose proof (pad_with_delays_nodes_inv (qubits (new_dag s)) cd done s Hlen
                Hrefs Hgrow Hinv) as Hinv1.
  set (s1 := pad_with_delays (qubits (new_dag s)) cd u s) in *.
  assert (length h ≤ length (store s1)) as Hgrow1
    by (rewrite E1, length_app; lia).
  pose proof (pad_with_delays_nodes_inv (clbits (new_dag s1)) cd done s1 A1
                B1 Hgrow1 Hinv1) as [H1 H2 H3].
  intros [= <-]. by split.
Qed.

End NodesInvariant.

Lemma schedule_nodes_inv
    (durations : Instruction → list Bit → option string → option Z)
    (property_set_time_unit time_unit : option string)
    (dag : DAGCircuit) (h : Store) (sf : ASAPSchedule.Sched) :
  well_formed h dag →
  ASAPSchedule.schedule durations property_set_time_unit dag time_unit h
  = inr sf →
  nodes_inv h (ASAPSchedule.resolve_unit property_set_time_unit time_unit)
    (topological_op_nodes dag) sf.
Proof.
  intros Hwf Hsched.
  destruct (schedule_spec durations property_set_time_unit dag time_unit h sf
              Hwf Hsched) as (s1 & Hloop & Hinv & Hfin & _).
  destruct (well_formed_whole h dag Hwf) as (Hrefs & Hnd & Hbits).
  set (u := ASAPSchedule.resolve_unit property_set_time_unit time_unit) in *.
  assert (nodes_inv h u [] (ASAPSchedule.init_sched dag h)) as Hinit.
  { pose proof (init_sched_dag dag h) as Hg. split; rewrite Hg; cbn.
    - by intros o ?%elem_of_nil.
    - done.
    - by intros n ?%elem_of_nil. }
  pose proof (schedule_nodes_nodes_inv durations h u _ _ [] _ s1
                (init_sched_inv durations dag h u) Hinit Hrefs Hnd Hbits Hloop)
    as Hinv1. cbn [app] in Hinv1.
  destruct Hinv as [[Hlen Hrefs1 _] Hgrow _ _ _ _ _ _].
  by apply (finish_nodes_inv h u (dag_name dag) _ s1 sf).
Qed.


Lemma schedule_final_store
    (durations : Instruction → list Bit → option string → option Z)
    (property_set_time_unit time_unit : option string)
    (dag : DAGCircuit) (h : Store) (sf : ASAPSchedule.Sched) :
  well_formed h dag →
  ASAPSchedule.schedule durations property_set_time_unit dag time_unit h
  = inr sf →
  ∀ n, n ∈ topological_op_nodes dag →
       ∃ d, durations (h !!! op n) (qargs n)
              (ASAPSchedule.resolve_unit property_set_time_unit time_unit)
            = Some d
            ∧ ASAPSchedule.store sf !!! op n
              = mkInstruction (op_name (h !!! op n)) (is_Delay (h !!! op n))
                  (Some d)
                  (ASAPSchedule.resolve_unit property_set_time_unit time_unit).
Proof.
  intros Hwf Hsched n Hn.
  destruct (schedule_spec durations property_set_time_unit dag time_unit h sf
              Hwf Hsched) as (s1 & _ & Hinv & Hfin & _).
  destruct Hinv as [[Hlen Hrefs _] Hgrow Hframe Hset _ Hshared _ _].
  destruct (finish_store _ _ _ _ Hlen Hrefs Hfin) as [[ext Hext] Hin].
  destruct (Hset n Hn) as (d & Hd & Hobj). exists d. split; [done|].
  rewrite Hext, lookup_total_app_l; [done|]. by apply Hrefs, Hshared.
Qed.

(** Every node of the graph returned on a well-formed input carries a
    duration and the unit of the run. *)
Lemma schedule_nodes_timed
    (durations : Instruction → list Bit → option string → option Z)
    (property_set_time_unit time_unit : option string)
    (dag : DAGCircuit) (h : Store) (sf : ASAPSchedule.Sched) :
  well_formed h dag →
  ASAPSchedule.schedule durations property_set_time_unit dag time_unit h
  = inr sf →
  ∀ n, n ∈ topological_op_nodes (ASAPSchedule.new_dag sf) →
       is_Some (op_duration (ASAPSchedule.store sf !!! op n))
       ∧ op_unit (ASAPSchedule.store sf !!! op n)
         = ASAPSchedule.resolve_unit property_set_time_unit time_unit.
Proof.
  intros Hwf Hsched n Hn.
  pose proof (schedule_final_store durations property_set_time_unit time_unit
                dag h sf Hwf Hsched) as Hset.
  destruct (schedule_nodes_inv durations property_set_time_unit time_unit dag
              h sf Hwf Hsched) as [_ Horig Hpad].
  rewrite topological_omap in Hn.
  destruct (decide (op n < length h)) as [Hlt|Hge].
  - assert (n ∈ topological_op_nodes dag) as Hin.
    { rewrite <- Horig. apply list_elem_of_filter. by split. }
    destruct (Hset n Hin) as (d & _ & ->). cbn. eauto.
  - apply list_elem_of_omap in Hn as (o & Ho & Hid). cbn in Hid. subst o.
    destruct (Hpad n Ho) as (b & d & _ & -> & _); [lia|]. cbn. eauto.
Qed.

Lemma run_schedule
    (durations : Instruction → list Bit → option string → option Z)
    (property_set_time_unit time_unit : option string)
    (dag g : DAGCircuit) (h h' : Store) :
  ASAPSchedule.run durations property_set_time_unit dag time_unit h
  = (inr g, h') →
  ∃ sf, ASAPSchedule.schedule durations property_set_time_unit dag time_unit h
        = inr sf
        ∧ g = ASAPSchedule.new_dag sf ∧ h' = ASAPSchedule.store sf.
Proof.
  unfold ASAPSchedule.run.
  destruct (ASAPSchedule.schedule _ _ _ _ _) as [[e he]|sf]; [done|].
  intros [= <- <-]. by exists sf.
Qed.

(** X11.  The pass keeps the operations and their order, and only adds
    padding.  In the graph returned on a well-formed input no handle is
    vacant; the nodes whose instruction object existed before the run are
    the operation nodes of the input, in the order of the traversal; every
    other node is a padding delay on an object created by the run: on one
    lane alone, without condition, of positive duration, in the unit of
    the run. *)
Theorem asap_keeps_operations_in_order
    (durations : Instruction → list Bit → option string → option Z)
    (property_set_time_unit time_unit : option string)
    (dag g : DAGCircuit) (h h' : Store) :
  let u := ASAPSchedule.resolve_unit property_set_time_unit time_unit in
  well_formed h dag →
  ASAPSchedule.run durations property_set_time_unit dag time_unit h
  = (inr g, h') →
  length (topological_op_nodes g) = length (nodes g)
  ∧ filter (λ n, op n < length h) (topological_op_nodes g)
    = topological_op_nodes dag
  ∧ ∀ n, n ∈ topological_op_nodes g → length h ≤ op n →
         ∃ b d, n = mkDAGNode (op n) (if is_Qubit b then [b] else [])
                      (if is_Clbit b then [b] else []) None
                ∧ node_bits n = [b]
                ∧ h' !!! op n = Delay d u ∧ (0 < d)%Z.
Proof.
  intros u Hwf Hrun.
  apply run_schedule in Hrun as (sf & Hsched & -> & ->).
  destruct (schedule_nodes_inv durations property_set_time_unit time_unit dag
              h sf Hwf Hsched) as [Hlive Horig Hpad].
  rewrite topological_omap. split; [|split; [done|]].
  - clear Horig Hpad.
    induction (nodes (ASAPSchedule.new_dag sf)) as [|o l IH]; [done|].
    destruct (Hlive o) as [n ->]; [left|]. cbn. f_equal. apply IH.
    intros o' Ho'. apply Hlive. by right.
  - intros n (o & Ho & Hid)%list_elem_of_omap Hge. cbn in Hid. subst o.
    destruct (Hpad n Ho Hge) as (b & d & Hn & Hobj & Hd). exists b, d.
    split; [exact Hn|]. split; [|done]. rewrite Hn. apply node_bits_delay_node.
Qed.

Lemma asap_keeps_operations_in_order_witness :
  ∃ g h',
    ASAPSchedule.run Examples.table None Examples.dag_A Examples.dt
      Examples.store_A = (inr g, h')
    ∧ length (topological_op_nodes g) = length (nodes g)
    ∧ filter (λ n, op n < length Examples.store_A) (topological_op_nodes g)
      = topological_op_nodes Examples.dag_A
    ∧ ∀ n, n ∈ topological_op_nodes g → length Examples.store_A ≤ op n →
           ∃ b d, n = mkDAGNode (op n) (if is_Qubit b then [b] else [])
                        (if is_Clbit b then [b] else []) None
                  ∧ node_bits n = [b]
                  ∧ h' !!! op n = Delay d Examples.dt ∧ (0 < d)%Z.
Proof.
  eexists. eexists. split; [by vm_compute|].
  apply (asap_keeps_operations_in_order Examples.table None Examples.dt
           Examples.dag_A _ Examples.store_A _ well_formed_A).
  by vm_compute.
Defined.

(** X12.  Every node of the graph returned on a well-formed input is
    timed: its instruction has a duration, and its unit is the unit of
    the run. *)
Theorem asap_all_nodes_timed
    (durations : Instruction → list Bit → option string → option Z)
    (property_set_time_unit time_unit : option string)
    (dag g : DAGCircuit) (h h' : Store) :
  well_formed h dag →
  ASAPSchedule.run durations property_set_time_unit dag time_unit h
  = (inr g, h') →
  ∀ n, n ∈ topological_op_nodes g →
       is_Some (op_duration (h' !!! op n))
       ∧ op_unit (h' !!! op n)
         = ASAPSchedule.resolve_unit property_set_time_unit time_unit.
Proof.
  intros Hwf Hrun. apply run_schedule in Hrun as (sf & Hsched & -> & ->).
  by apply (schedule_nodes_timed durations property_set_time_unit time_unit
              dag h).
Qed.

Lemma asap_all_nodes_timed_witness :
  ∃ g h',
    ASAPSchedule.run Examples.table None Examples.dag_A Examples.dt
      Examples.store_A = (inr g, h')
    ∧ ∀ n, n ∈ topological_op_nodes g →
           is_Some (op_duration (h' !!! op n))
           ∧ op_unit (h' !!! op n) = Examples.dt.
Proof.
  eexists. eexists. split; [by vm_compute|].
  apply (asap_all_nodes_timed Examples.table None Examples.dt
           Examples.dag_A _ Examples.store_A _ well_formed_A).
  by vm_compute.
Defined.

(* ================================================================== *)
(** * The two passes in sequence *)
(* ================================================================== *)

Lemma py_sum_from_total (acc : Z) (xs : list (option Z)) :
  Forall timed_nonneg xs → py_sum_from acc xs = Some (acc + total xs)%Z.
Proof.
  intros Hall. revert acc. induction Hall as [|x xs (d & -> & Hd) _ IH];
    intros acc; cbn [py_sum_from total foldr].
  - f_equal. lia.
  - rewrite IH. f_equal. fold (total xs). cbn. lia.
Qed.

Lemma total_nonneg (xs : list (option Z)) :
  Forall timed_nonneg xs → (0 ≤ total xs)%Z.
Proof.
  induction 1 as [|x xs (d & -> & Hd) _ IH]; cbn [total foldr]; [lia|].
  fold (total xs). cbn. lia.
Qed.

Lemma total_sublist (xs ys : list (option Z)) :
  xs `sublist_of` ys → Forall timed_nonneg ys →
  Forall timed_nonneg xs ∧ (total xs ≤ total ys)%Z.
Proof.
  induction 1 as [|x l1 l2 _ IH|x l1 l2 _ IH]; intros Hall.
  - split; [done|lia].
  - apply Forall_cons in Hall as [Hx Hall]. destruct (IH Hall) as [H1 H2].
    split; [by constructor|]. cbn [total foldr]. fold (total l1) (total l2). lia.
  - apply Forall_cons in Hall as [(d & -> & Hd) Hall].
    destruct (IH Hall) as [H1 H2]. split; [done|].
    cbn [total foldr]. fold (total l2). cbn. lia.
Qed.

Lemma chain_end_total (t e : Z) (l : list Placed) :
  chain_end t l = Some e →
  Forall timed_nonneg (map (λ p, op_duration (p_op p)) l)
  ∧ e = (t + total (map (λ p, op_duration (p_op p)) l))%Z.
Proof.
  revert t. induction l as [|p l IH]; intros t; cbn [chain_end map].
  - intros [= <-]. split; [constructor|]. cbn. lia.
  - destruct (op_duration (p_op p)) as [d|] eqn:Ed; [|done].
    destruct (bool_decide _) eqn:E; [|done].
    apply bool_decide_eq_true in E as [_ Hd]. intros [Hall ->]%IH.
    split; [constructor; [by exists d|done]|].
    cbn [total foldr]. fold (total (map (λ p, op_duration (p_op p)) l)).
    cbn. lia.
Qed.

(** The durations along a lane, read off the lane view or off the wire. *)
Lemma lane_durations (h : Store) (b : Bit) (ns : list (option DAGNode))
    (ts : list Z) (i0 : nat) :
  length ts = length ns →
  map (λ p, op_duration (p_op p)) (omap (place h b) (zip ns ts))
  = map (λ p : nat * DAGNode, op_duration (h !!! op p.2))
        (filter (λ p, on_wire b p.2 = true) (live_from i0 ns)).
Proof.
  revert ts i0. induction ns as [|o ns IH]; intros ts i0 Hlen; [done|].
  destruct ts as [|t ts]; [done|]. injection Hlen as Hlen.
  cbn [zip_with omap list_omap]. unfold place at 1. cbn [fst snd].
  destruct o as [n|]; cbn [live_from].
  - destruct (on_wire b n) eqn:Hon.
    + rewrite filter_cons_True by done. cbn [map]. f_equal. by apply IH.
    + rewrite filter_cons_False by (cbn; congruence). by apply IH.
  - by apply IH.
Qed.

Lemma sublist_map {A B} (f : A → B) (l1 l2 : list A) :
  l1 `sublist_of` l2 → map f l1 `sublist_of` map f l2.
Proof.
  induction 1; cbn [map]; [constructor|by constructor|by constructor].
Qed.

Section Sequence.

Variable h : Store.

Lemma remove_idle_sublist (qs : list Bit) (g : DAGCircuit) (r : bool) (q : Bit) :
  nodes_on_wire q (RemoveDelaysOnIdleQubits.remove_idle h qs g r).1
  `sublist_of` nodes_on_wire q g.
Proof.
  revert g r. induction qs as [|q0 qs IH]; intros g r;
    cbn [RemoveDelaysOnIdleQubits.remove_idle]; [done|].
  destruct (RemoveDelaysOnIdleQubits.idling h q0 g); [|apply IH].
  etrans; [apply IH|]. rewrite nodes_on_wire_strip. apply sublist_filter.
Qed.

(** The sum over a wire after the pass is at most the sum before it, when
    the operations of the wire have durations that are not negative. *)
Lemma per_qubit_after (dag : DAGCircuit) (d0 : Z) (q : Bit) :
  dag_duration dag = Some d0 →
  Forall timed_nonneg
    (map (λ p : nat * DAGNode, op_duration (h !!! op p.2))
         (nodes_on_wire q dag)) →
  ∃ s, RemoveDelaysOnIdleQubits.per_qubit h q
         (RemoveDelaysOnIdleQubits.run h dag).2 = Some s
       ∧ (0 ≤ s)%Z
       ∧ (s ≤ total (map (λ p : nat * DAGNode, op_duration (h !!! op p.2))
                         (nodes_on_wire q dag)))%Z.
Proof.
  intros Hd Hall. unfold RemoveDelaysOnIdleQubits.per_qubit, py_sum.
  rewrite (run_nodes_on_wire h dag d0 q Hd).
  pose proof (remove_idle_sublist (qubits dag) dag false q) as Hsub.
  apply (sublist_map (λ p : nat * DAGNode, op_duration (h !!! op p.2)))
    in Hsub.
  destruct (total_sublist _ _ Hsub Hall) as [Hall' Hle].
  eexists. split; [by apply py_sum_from_total|].
  split; [|lia]. pose proof (total_nonneg _ Hall'). lia.
Qed.

End Sequence.

Lemma finish_len (name u : option string) (s sf : ASAPSchedule.Sched) :
  length (ASAPSchedule.start_times s) = length (nodes (ASAPSchedule.new_dag s)) →
  (∀ n, Some n ∈ nodes (ASAPSchedule.new_dag s) →
        op n < length (ASAPSchedule.store s)) →
  ASAPSchedule.finish name u s = inr sf →
  length (ASAPSchedule.start_times sf)
  = length (nodes (ASAPSchedule.new_dag sf)).
Proof.
  intros Hlen Hrefs. unfold ASAPSchedule.finish.
  destruct (py_max _) as [cd|]; [|done].
  destruct (pad_with_delays_spec cd u (qubits (ASAPSchedule.new_dag s)) s Hlen Hrefs)
    as (A1 & B1 & _).
  set (s1 := ASAPSchedule.pad_with_delays _ cd u s) in *.
  destruct (pad_with_delays_spec cd u (clbits (ASAPSchedule.new_dag s1)) s1 A1 B1)
    as (A2 & _).
  by intros [= <-].
Qed.

(** In the graph returned on a well-formed input, with durations that are
    not negative, the durations along every lane of the graph are there,
    are not negative, and add up to the duration of the graph. *)
Lemma schedule_wire_total
    (durations : Instruction → list Bit → option string → option Z)
    (property_set_time_unit time_unit : option string)
    (dag : DAGCircuit) (h : Store) (sf : ASAPSchedule.Sched) :
  durations_nonneg durations →
  well_formed h dag →
  ASAPSchedule.schedule durations property_set_time_unit dag time_unit h
  = inr sf →
  ∃ cd, dag_duration (ASAPSchedule.new_dag sf) = Some cd
        ∧ (0 ≤ cd)%Z
        ∧ ∀ b, b ∈ lanes (ASAPSchedule.new_dag sf) →
               let ds := map (λ p : nat * DAGNode,
                                op_duration (ASAPSchedule.store sf !!! op p.2))
                             (nodes_on_wire b (ASAPSchedule.new_dag sf)) in
               Forall timed_nonneg ds ∧ total ds = cd.
Proof.
  intros Hnn Hwf Hsched.
  destruct (schedule_spec durations property_set_time_unit dag time_unit h sf
              Hwf Hsched) as (s1 & _ & Hinv & Hfin & Hnd & _).
  destruct (finish_spec durations _ _ _ _ _ _ _ Hnn Hinv Hnd Hfin)
    as (cd & Hg & _ & (b0 & _ & Hb0) & _ & Hchain & _).
  destruct Hinv as [[Hlen Hrefs Hchain1] _ _ _ _ _ _ _].
  pose proof (finish_len _ _ _ _ Hlen Hrefs Hfin) as Hlenf.
  exists cd. split; [by rewrite Hg|].
  assert (∀ b, b ∈ lanes (ASAPSchedule.new_dag sf) →
               Forall timed_nonneg
                 (map (λ p : nat * DAGNode,
                         op_duration (ASAPSchedule.store sf !!! op p.2))
                      (nodes_on_wire b (ASAPSchedule.new_dag sf)))
               ∧ total (map (λ p : nat * DAGNode,
                               op_duration (ASAPSchedule.store sf !!! op p.2))
                            (nodes_on_wire b (ASAPSchedule.new_dag sf))) = cd)
    as Hlane.
  { intros b Hb. specialize (Hchain b).
    rewrite decide_True in Hchain by (by rewrite Hg in Hb).
    apply chain_end_total in Hchain as [Hall Hsum].
    unfold lane_view in Hall, Hsum.
    rewrite (lane_durations _ b _ _ 0 Hlenf) in Hall, Hsum.
    split; [done|]. unfold nodes_on_wire, op_nodes. lia. }
  split; [|done].
  pose proof (chain_end_ge _ _ _ (Hchain1 Hnn b0)). lia.
Qed.

(** What the delay remover finds in a graph returned by the scheduler. *)
Lemma scheduled_graph_facts
    (durations : Instruction → list Bit → option string → option Z)
    (property_set_time_unit time_unit : option string)
    (dag g : DAGCircuit) (h h' : Store) :
  durations_nonneg durations →
  well_formed h dag →
  ASAPSchedule.run durations property_set_time_unit dag time_unit h
  = (inr g, h') →
  ∃ cd, dag_duration g = Some cd
        ∧ (0 ≤ cd)%Z
        ∧ (∀ p, p ∈ op_nodes g → is_Some (op_duration (h' !!! op p.2)))
        ∧ (∀ q, q ∈ qubits g →
                Forall timed_nonneg
                  (map (λ p : nat * DAGNode, op_duration (h' !!! op p.2))
                       (nodes_on_wire q g))
                ∧ total (map (λ p : nat * DAGNode, op_duration (h' !!! op p.2))
                             (nodes_on_wire q g)) = cd)
        ∧ qubits (RemoveDelaysOnIdleQubits.run h' g).2 = qubits g.
Proof.
  intros Hnn Hwf Hrun. apply run_schedule in Hrun as (sf & Hsched & -> & ->).
  destruct (schedule_wire_total durations property_set_time_unit time_unit dag
              h sf Hnn Hwf Hsched) as (cd & Hcd & Hpos & Hlane).
  exists cd. split; [done|]. split; [done|]. split; [|split].
  - intros p Hp.
    apply (schedule_nodes_timed durations property_set_time_unit time_unit
             dag h sf Hwf Hsched).
    unfold topological_op_nodes. apply list_elem_of_fmap. by exists p.
  - intros q Hq. apply Hlane. unfold lanes. apply elem_of_app. by left.
  - destruct (run_meta (ASAPSchedule.store sf) (ASAPSchedule.new_dag sf))
      as (ns & d & -> & _). done.
Qed.

(** X13.  The two passes in sequence, with the time unit ['dt'].  On the
    graph returned by the scheduler for a well-formed input, with
    durations that are not negative, the delay remover never raises, and
    the duration it leaves is between 0 and the scheduled duration:
    removing idle lanes never lengthens the schedule. *)
Theorem asap_then_remove_delays
    (durations : Instruction → list Bit → option string → option Z)
    (property_set_time_unit time_unit : option string)
    (dag g : DAGCircuit) (h h' : Store) :
  ASAPSchedule.resolve_unit property_set_time_unit time_unit = Some "dt" →
  durations_nonneg durations →
  well_formed h dag →
  ASAPSchedule.run durations property_set_time_unit dag time_unit h
  = (inr g, h') →
  ∃ cd d,
    dag_duration g = Some cd
    ∧ (RemoveDelaysOnIdleQubits.run h' g).1 = None
    ∧ dag_duration (RemoveDelaysOnIdleQubits.run h' g).2 = Some d
    ∧ (0 ≤ d ≤ cd)%Z.
Proof.
  intros _ Hnn Hwf Hrun.
  destruct (scheduled_graph_facts durations property_set_time_unit time_unit
              dag g h h' Hnn Hwf Hrun) as (cd & Hcd & Hpos & Htimed & Hlane & Hq).
  exists cd.
  destruct (RemoveDelaysOnIdleQubits.remove_idle h' (qubits g) g false).2 eqn:Hr.
  - destruct (run_recomputed h' g cd Hcd Htimed Hr)
      as (Hok & d & Hd & Hd0 & _ & Hmax).
    exists d. split; [done|]. split; [done|]. split; [done|]. split; [done|].
    destruct Hmax as [->|(q & Hqin & Hsum)]; [done|]. rewrite Hq in Hqin.
    destruct (Hlane q Hqin) as [Hall Htot].
    destruct (per_qubit_after h' g cd q Hcd Hall) as (s & Hs & _ & Hle).
    rewrite Hs in Hsum. injection Hsum as ->. lia.
  - apply remove_idle_false in Hr as Hsame. destruct Hsame as [Hsame _].
    exists cd. rewrite (run_scheduled h' g cd Hcd). cbv zeta.
    rewrite Hr, Hsame. cbn [fst snd]. split; [done|]. split; [done|].
    split; [done|lia].
Qed.

Lemma asap_then_remove_delays_witness :
  ∃ g h' cd d,
    ASAPSchedule.run Examples.table None Examples.dag_A Examples.dt
      Examples.store_A = (inr g, h')
    ∧ dag_duration g = Some cd
    ∧ (RemoveDelaysOnIdleQubits.run h' g).1 = None
    ∧ dag_duration (RemoveDelaysOnIdleQubits.run h' g).2 = Some d
    ∧ (0 ≤ d ≤ cd)%Z.
Proof.
  assert (∃ g h',
            ASAPSchedule.run Examples.table None Examples.dag_A Examples.dt
              Examples.store_A = (inr g, h')) as (g & h' & Hrun)
    by (vm_compute; eauto).
  destruct (asap_then_remove_delays Examples.table None Examples.dt
              Examples.dag_A g Examples.store_A h' eq_refl
              Examples_table_nonneg well_formed_A Hrun) as (cd & d & H).
  exists g, h', cd, d. split; [exact Hrun|exact H].
Defined.

(** In the graph returned on a well-formed input whose delays sit on one
    lane each, every delay sits on one lane. *)
Lemma scheduled_delays_single_lane
    (durations : Instruction → list Bit → option string → option Z)
    (property_set_time_unit time_unit : option string)
    (dag g : DAGCircuit) (h h' : Store) :
  well_formed h dag →
  (∀ n, n ∈ topological_op_nodes dag → is_Delay (h !!! op n) = true →
        length (node_bits n) = 1) →
  ASAPSchedule.run durations property_set_time_unit dag time_unit h
  = (inr g, h') →
  ∀ p, p ∈ op_nodes g → is_Delay (h' !!! op p.2) = true →
       length (node_bits p.2) = 1.
Proof.
  intros Hwf Hone Hrun. apply run_schedule in Hrun as (sf & Hsched & -> & ->).
  pose proof (schedule_final_store durations property_set_time_unit time_unit
                dag h sf Hwf Hsched) as Hset.
  destruct (schedule_nodes_inv durations property_set_time_unit time_unit dag
              h sf Hwf Hsched) as [_ Horig Hpad].
  intros [i n] Hp Hd. cbn [snd] in *.
  assert (n ∈ topological_op_nodes (ASAPSchedule.new_dag sf)) as Hn.
  { unfold topological_op_nodes. apply list_elem_of_fmap. by exists (i, n). }
  rewrite topological_omap in Hn.
  destruct (decide (op n < length h)) as [Hlt|Hge].
  - assert (n ∈ topological_op_nodes dag) as Hin.
    { rewrite <- Horig. apply list_elem_of_filter. by split. }
    apply Hone; [done|]. destruct (Hset n Hin) as (d & _ & Hobj).
    rewrite Hobj in Hd. done.
  - apply list_elem_of_omap in Hn as (o & Ho & Hid). cbn in Hid. subst o.
    destruct (Hpad n Ho) as (b & d & Hn & _); [lia|].
    rewrite Hn, node_bits_delay_node. done.
Qed.

(** X14.  The duration left by the two passes in sequence, with the time
    unit ['dt'].  For a well-formed input whose delays sit on one lane
    each, with durations that are not negative: when some quantum lane of
    the scheduled graph
    carries an operation that is not a delay, the delay remover leaves
    the scheduled duration; when the graph has qubits and every quantum
    lane carries delays only, it leaves the duration 0. *)
Theorem asap_then_remove_delays_duration
    (durations : Instruction → list Bit → option string → option Z)
    (property_set_time_unit time_unit : option string)
    (dag g : DAGCircuit) (h h' : Store) :
  ASAPSchedule.resolve_unit property_set_time_unit time_unit = Some "dt" →
  durations_nonneg durations →
  well_formed h dag →
  (∀ n, n ∈ topological_op_nodes dag → is_Delay (h !!! op n) = true →
        length (node_bits n) = 1) →
  ASAPSchedule.run durations property_set_time_unit dag time_unit h
  = (inr g, h') →
  ((∃ q p, q ∈ qubits g ∧ p ∈ nodes_on_wire q g
           ∧ is_Delay (h' !!! op p.2) = false) →
   dag_duration (RemoveDelaysOnIdleQubits.run h' g).2 = dag_duration g)
  ∧ (qubits g ≠ [] →
     (∀ q p, q ∈ qubits g → p ∈ nodes_on_wire q g →
             is_Delay (h' !!! op p.2) = true) →
     dag_duration (RemoveDelaysOnIdleQubits.run h' g).2 = Some 0%Z).
Proof.
  intros _ Hnn Hwf Hone Hrun.
  pose proof (scheduled_delays_single_lane durations property_set_time_unit
                time_unit dag g h h' Hwf Hone Hrun) as Hsingle.
  destruct (scheduled_graph_facts durations property_set_time_unit time_unit
              dag g h h' Hnn Hwf Hrun) as (cd & Hcd & Hpos & Htimed & Hlane & Hq).
  pose proof (run_nodes_on_wire h' g cd) as Hwire.
  split.
  - intros (q & p & Hqin & Hp & Hbusy). rewrite Hcd.
    destruct (RemoveDelaysOnIdleQubits.remove_idle h' (qubits g) g false).2
      eqn:Hr.
    + destruct (run_recomputed h' g cd Hcd Htimed Hr)
        as (_ & d & Hd & _ & Hub & Hmax).
      rewrite Hd. f_equal. apply Z.le_antisymm.
      * destruct Hmax as [->|(q' & Hq' & Hsum)]; [done|]. rewrite Hq in Hq'.
        destruct (Hlane q' Hq') as [Hall Htot].
        destruct (per_qubit_after h' g cd q' Hcd Hall) as (s & Hs & _ & Hle).
        rewrite Hs in Hsum. injection Hsum as ->. lia.
      * rewrite Hq in Hub. destruct (Hub q Hqin) as (s & Hs & Hle).
        unfold RemoveDelaysOnIdleQubits.per_qubit, py_sum in Hs.
        rewrite (Hwire q Hcd) in Hs.
        rewrite (remove_idle_busy_wire h' (qubits g) g false q Hsingle) in Hs.
        2:{ apply idling_false. by exists p. }
        destruct (Hlane q Hqin) as [Hall Htot].
        rewrite (py_sum_from_total 0 _ Hall) in Hs. injection Hs as <-. lia.
    + apply remove_idle_false in Hr as Hsame. destruct Hsame as [Hsame _].
      rewrite (run_scheduled h' g cd Hcd). cbv zeta.
      rewrite Hr, Hsame. done.
  - intros Hne Hidle.
    assert ((RemoveDelaysOnIdleQubits.remove_idle h' (qubits g) g false).2
            = true) as Hr.
    { apply remove_idle_flag. right. destruct (qubits g) as [|q qs] eqn:Hqs;
        [done|]. exists q. split; [left|]. apply idling_true.
      intros p Hp. apply (Hidle q p); [left|done]. }
    destruct (run_recomputed h' g cd Hcd Htimed Hr)
      as (_ & d & Hd & _ & _ & Hmax).
    rewrite Hd. f_equal. destruct Hmax as [->|(q & Hqin & Hsum)]; [done|].
    rewrite Hq in Hqin.
    unfold RemoveDelaysOnIdleQubits.per_qubit in Hsum.
    rewrite (Hwire q Hcd) in Hsum.
    rewrite (remove_idle_idle_empty h' (qubits g) g false q Hqin) in Hsum.
    + by injection Hsum.
    + apply idling_true. intros p Hp. apply (Hidle q p Hqin).
      by apply remove_idle_on_wire in Hp.
Qed.

Lemma asap_then_remove_delays_duration_witness :
  ∃ g h',
    ASAPSchedule.run Examples.table None Examples.dag_A Examples.dt
      Examples.store_A = (inr g, h')
    ∧ ((∃ q p, q ∈ qubits g ∧ p ∈ nodes_on_wire q g
               ∧ is_Delay (h' !!! op p.2) = false) →
       dag_duration (RemoveDelaysOnIdleQubits.run h' g).2 = dag_duration g)
    ∧ (qubits g ≠ [] →
       (∀ q p, q ∈ qubits g → p ∈ nodes_on_wire q g →
               is_Delay (h' !!! op p.2) = true) →
       dag_duration (RemoveDelaysOnIdleQubits.run h' g).2 = Some 0%Z).
Proof.
  assert (∃ g h',
            ASAPSchedule.run Examples.table None Examples.dag_A Examples.dt
              Examples.store_A = (inr g, h')) as (g & h' & Hrun)
    by (vm_compute; eauto).
  assert (∀ n, n ∈ topological_op_nodes Examples.dag_A →
               is_Delay (Examples.store_A !!! op n) = true →
               length (node_bits n) = 1) as Hdelays.
  { intros n Hn Hd. vm_compute in Hn.
    repeat (apply elem_of_cons in Hn as [->|Hn]; [discriminate Hd|]).
    apply elem_of_nil in Hn. destruct Hn. }
  pose proof (asap_then_remove_delays_duration Examples.table None Examples.dt
                Examples.dag_A g Examples.store_A h' eq_refl
                Examples_table_nonneg well_formed_A Hdelays Hrun) as H.
  exists g, h'. split; [exact Hrun|exact H].
Defined.

Lemma finish_lanes (name u : option string) (g0 : DAGCircuit)
    (s sf : ASAPSchedule.Sched) :
  length (ASAPSchedule.start_times s) = length (nodes (ASAPSchedule.new_dag s)) →
  (∀ n, Some n ∈ nodes (ASAPSchedule.new_dag s) →
        op n < length (ASAPSchedule.store s)) →
  ASAPSchedule.new_dag s = set_nodes (nodes (ASAPSchedule.new_dag s)) g0 →
  NoDup (lanes g0) →
  ASAPSchedule.finish name u s = inr sf →
  ∃ cd, dag_duration (ASAPSchedule.new_dag sf) = Some cd
        ∧ ∀ b, lane_view (ASAPSchedule.store sf) (ASAPSchedule.new_dag sf)
                 (ASAPSchedule.start_times sf) b
               = lane_view (ASAPSchedule.store s) (ASAPSchedule.new_dag s)
                   (ASAPSchedule.start_times s) b
                 ++ padding cd u (ASAPSchedule.bit_time_available s)
                      (lanes g0) b.
Proof.
  intros Hlen Hrefs Hregs Hnd. unfold ASAPSchedule.finish.
  destruct (py_max _) as [cd|]; [|done].
  assert (qubits (ASAPSchedule.new_dag s) = qubits g0) as -> by (by rewrite Hregs).
  destruct (pad_with_delays_spec cd u (qubits g0) s Hlen Hrefs)
    as (_ & _ & _ & _ & _ & F1 & _).
  assert (clbits (ASAPSchedule.new_dag
                    (ASAPSchedule.pad_with_delays (qubits g0) cd u s))
          = clbits g0) as -> by (by rewrite F1, Hregs).
  rewrite <- pad_with_delays_app. fold (lanes g0).
  destruct (pad_with_delays_spec cd u (lanes g0) s Hlen Hrefs)
    as (_ & _ & _ & _ & _ & _ & G & _). specialize (G Hnd).
  intros [= <-]. exists cd. split; [done|]. exact G.
Qed.

Section Untouched.

Variable durations : Instruction → list Bit → option string → option Z.

(** The loop adds nothing to a lane that none of its operations has for
    operand. *)
Lemma schedule_nodes_untouched (h : Store) (u : option string) (g0 : DAGCircuit)
    (ns done : list DAGNode) (s s' : ASAPSchedule.Sched) (b : Bit) :
  loop_inv durations h u g0 done s →
  (∀ n, n ∈ ns → op n < length h) →
  NoDup (op <$> (done ++ ns)) →
  (∀ n, n ∈ ns → NoDup (node_bits n)) →
  (∀ n, n ∈ ns → b ∉ node_bits n) →
  ASAPSchedule.schedule_nodes durations u ns s = inr s' →
  lane_view (ASAPSchedule.store s') (ASAPSchedule.new_dag s')
    (ASAPSchedule.start_times s') b
  = lane_view (ASAPSchedule.store s) (ASAPSchedule.new_dag s)
      (ASAPSchedule.start_times s) b.
Proof.
  revert done s. induction ns as [|n ns IH];
    intros done s Hinv Hrefs Hnd Hbits Hoff; cbn [ASAPSchedule.schedule_nodes].
  - by intros [= <-].
  - destruct (ASAPSchedule.schedule_node durations u n s) as [e|s1] eqn:Hstep;
      [done|].
    intros Hrest. assert (n ∈ n :: ns) as Hhd by left.
    assert (op n ∉ op <$> done) as Hfresh.
    { rewrite fmap_app, fmap_cons in Hnd.
      apply NoDup_app in Hnd as (_ & Hdisj & _). intros Hin.
      apply (Hdisj _ Hin). left. }
    destruct (schedule_node_spec durations h u g0 done n s s1 Hinv
                (Hrefs n Hhd) Hfresh (Hbits n Hhd) Hstep)
      as (start & d & _ & _ & Hinv1 & Hlane & _).
    rewrite (IH (done ++ [n]) s1 Hinv1); [| | | | |done].
    + rewrite Hlane, padding_not_in by (by apply Hoff).
      rewrite decide_False by (by apply Hoff). by rewrite !app_nil_r.
    + intros n' Hn'. apply Hrefs. by right.
    + by rewrite <- app_assoc.
    + intros n' Hn'. apply Hbits. by right.
    + intros n' Hn'. apply Hoff. by right.
Qed.

End Untouched.

(** X15.  A lane of the graph that no operation has for operand: in the
    graph returned on a well-formed input it carries one padding delay,
    from 0 to the duration of the graph, when that duration is positive,
    and nothing when the duration is 0. *)
Theorem asap_untouched_lane
    (durations : Instruction → list Bit → option string → option Z)
    (property_set_time_unit time_unit : option string)
    (dag : DAGCircuit) (h : Store) (sf : ASAPSchedule.Sched) (b : Bit) :
  let u := ASAPSchedule.resolve_unit property_set_time_unit time_unit in
  well_formed h dag →
  ASAPSchedule.schedule durations property_set_time_unit dag time_unit h
  = inr sf →
  b ∈ lanes dag →
  (∀ n, n ∈ topological_op_nodes dag → b ∉ node_bits n) →
  ∃ cd, dag_duration (ASAPSchedule.new_dag sf) = Some cd
        ∧ lane_view (ASAPSchedule.store sf) (ASAPSchedule.new_dag sf)
            (ASAPSchedule.start_times sf) b
          = if decide (0 < cd)%Z then [delay_entry b 0 cd u] else [].
Proof.
  intros u Hwf Hsched Hb Hoff.
  destruct (schedule_spec durations property_set_time_unit dag time_unit h sf
              Hwf Hsched) as (s1 & Hloop & Hinv & Hfin & Hnd & Hlanes).
  fold u in Hloop, Hinv, Hfin.
  destruct (well_formed_whole h dag Hwf) as (Hrefs & Hunshared & Hbits).
  pose proof (schedule_nodes_untouched durations h u _ _ [] _ s1 b
                (init_sched_inv durations dag h u) Hrefs Hunshared Hbits Hoff
                Hloop) as Hlane1.
  assert (lane_view (ASAPSchedule.store (ASAPSchedule.init_sched dag h))
            (ASAPSchedule.new_dag (ASAPSchedule.init_sched dag h))
            (ASAPSchedule.start_times (ASAPSchedule.init_sched dag h)) b = [])
    as Hinit.
  { unfold lane_view. by rewrite init_sched_dag. }
  rewrite Hinit in Hlane1.
  pose proof (li_keys _ _ _ _ _ _ Hinv) as Hkeys.
  assert (avail (ASAPSchedule.bit_time_available s1) b = 0%Z) as Hav.
  { unfold avail.
    assert (ASAPSchedule.bit_time_available s1 !! b = None) as ->; [|done].
    apply not_elem_of_dom. rewrite Hkeys, elem_of_list_to_set.
    intros (n & Hn & Hbn)%elem_of_concat_bits. by apply (Hoff n). }
  destruct Hinv as [[Hlen Hrefs1 _] _ _ _ _ _ _ Hregs].
  destruct (finish_lanes _ _ _ _ _ Hlen Hrefs1 Hregs Hnd Hfin) as (cd & Hcd & Hl).
  exists cd. split; [done|]. rewrite Hl, Hlane1. cbn [app].
  unfold padding. rewrite Hav, Z.sub_0_r.
  destruct (decide (0 < cd)%Z) as [Hlt|Hge].
  - rewrite decide_True; [done|]. split; [by rewrite Hlanes|done].
  - rewrite decide_False; [done|]. by intros [_ ?].
Qed.

Lemma well_formed_H : well_formed Examples.store_H Examples.dag_H.
Proof.
  split.
  - cbn. apply NoDup_singleton.
  - intros n Hn. vm_compute in Hn.
    repeat (apply elem_of_cons in Hn as [->|Hn]; [cbn; lia|]).
    by apply elem_of_nil in Hn.
  - vm_compute. apply NoDup_singleton.
  - intros n Hn. vm_compute in Hn.
    repeat (apply elem_of_cons in Hn as [->|Hn];
            [vm_compute; apply NoDup_singleton|]).
    by apply elem_of_nil in Hn.
  - intros n b Hn Hb. vm_compute in Hn.
    repeat (apply elem_of_cons in Hn as [->|Hn];
            [vm_compute in Hb; apply list_elem_of_singleton in Hb as ->;
             vm_compute; left|]).
    by apply elem_of_nil in Hn.
Qed.

Lemma asap_untouched_lane_witness :
  ∃ sf,
    ASAPSchedule.schedule Examples.table None Examples.dag_H Examples.dt
      Examples.store_H = inr sf
    ∧ ∃ cd, dag_duration (ASAPSchedule.new_dag sf) = Some cd
            ∧ lane_view (ASAPSchedule.store sf) (ASAPSchedule.new_dag sf)
                (ASAPSchedule.start_times sf) (Examples.c 0)
              = if decide (0 < cd)%Z
                then [delay_entry (Examples.c 0) 0 cd Examples.dt] else [].
Proof.
  eexists. split; [by vm_compute|].
  apply (asap_untouched_lane Examples.table None Examples.dt Examples.dag_H
           Examples.store_H _ (Examples.c 0) well_formed_H).
  - by vm_compute.
  - vm_compute. right. left.
  - intros n Hn. vm_compute in Hn. apply list_elem_of_singleton in Hn as ->.
    vm_compute. intros Hin. apply list_elem_of_singleton in Hin. discriminate.
Defined.
